(** * while_v2: single-operator while loops and their gradient

    A shallow embedding of [tensorflow/python/ops/while_v2.py].

    The module builds graphs; it never runs them.  Graph construction is
    modelled by explicit state passing over records that mirror the Python
    objects ([Tensor], [Operation], [FuncGraph]), Python exceptions by a
    result type, [dict]s by finite maps and [OrderedDict]s by association
    lists.  The closure tracer ([func_graph_from_py_func]) and the generic
    differentiator are collaborators outside this file: wherever the source
    calls them, the model takes what they return as an argument. *)

From Stdlib Require Import ZArith NArith Lia.
From stdpp Require Import base option list strings pretty countable gmap.

Open Scope string_scope.
Open Scope list_scope.

(** ** Python exceptions *)

(** The [%]-arguments of a formatted message are kept next to the format
    string instead of being spliced into it. *)
Inductive exn : Type :=
  | AssertionError (msg : string) (args : list string)
  | ValueError (msg : string) (args : list string)
  | IndexError (msg : string)
  | KeyError (key : string).

Inductive result (A : Type) : Type :=
  | Ok (a : A)
  | Raise (e : exn).
Arguments Ok {A} a.
Arguments Raise {A} e.

#[global] Instance exn_eq_dec : EqDecision exn.
Proof. solve_decision. Defined.

#[global] Instance result_eq_dec {A} `{EqDecision A} : EqDecision (result A).
Proof. solve_decision. Defined.

#[global] Instance result_ret : MRet result := fun _ a => Ok a.
#[global] Instance result_bind : MBind result := fun _ _ f m =>
  match m with
  | Ok a => f a
  | Raise e => Raise e
  end.

(** [assert c, msg % args] *)
Definition py_assert (c : bool) (msg : string) (args : list string) : result unit :=
  if c then Ok tt else Raise (AssertionError msg args).

(** [l[i]] *)
Definition py_getitem {A} (l : list A) (i : nat) : result A :=
  match l !! i with
  | Some a => Ok a
  | None => Raise (IndexError "list index out of range")
  end.

(** [l[a:a+n]] *)
Definition py_slice {A} (l : list A) (a n : nat) : list A := take n (drop a l).

(** [zip] of three sequences stops at the shortest. *)
Fixpoint zip3 {A B C} (la : list A) (lb : list B) (lc : list C) : list (A * B * C) :=
  match la, lb, lc with
  | a :: la, b :: lb, c :: lc => (a, b, c) :: zip3 la lb lc
  | _, _, _ => []
  end.

(** ** Tensors, operations and function graphs *)

Inductive DType : Type :=
  | DT_FLOAT | DT_INT32 | DT_BOOL | DT_RESOURCE | DT_VARIANT.

#[global] Instance DType_eq_dec : EqDecision DType.
Proof. solve_decision. Defined.

(** A dimension is a size or unknown; a shape is a list of dimensions or of
    unknown rank ([dims is None]). *)
Definition Dimension : Type := option N.
Definition TensorShape : Type := option (list Dimension).

Definition scalar : TensorShape := Some [].

Definition gid : Type := nat.

(** Tensors are compared by identity in the source; a tensor is the
    [value_index]-th output of an operation of some graph, and the graph, the
    name of the operation and the index identify it.  Operation names are
    numbers: a graph hands out the next unused one. *)
Record Tensor : Type := mkTensor {
  t_graph : gid;
  t_op_name : nat;
  t_value_index : nat;
  t_dtype : DType;
  t_shape : TensorShape;
}.

#[global] Instance Tensor_eq_dec : EqDecision Tensor.
Proof. solve_decision. Defined.

(** Floats occur only as loop counters; such a float32 is written as the
    natural number it equals. *)
Definition float32 : Type := N.

(** [op_value] is the value of a scalar [Const]; other attributes of
    operations are not represented. *)
Record Operation : Type := mkOp {
  op_name : nat;
  op_type : string;
  op_inputs : list Tensor;
  op_outputs : list Tensor;
  op_value : option float32;
}.

#[global] Instance Operation_eq_dec : EqDecision Operation.
Proof. solve_decision. Defined.

(** [str(shape)] and [str(tensor)], as they appear in error messages: a
    shape is printed dimension by dimension, a tensor as [name:index]. *)
Definition str_dim (d : Dimension) : string :=
  match d with
  | Some n => pretty n
  | None => "?"
  end.

Definition str_shape (s : TensorShape) : string :=
  match s with
  | Some ds => "(" +:+ String.concat ", " (str_dim <$> ds) +:+ ")"
  | None => "<unknown>"
  end.

Definition str_tensor (t : Tensor) : string :=
  pretty (t_op_name t) +:+ ":" +:+ pretty (t_value_index t).

(** A function graph: its operations in creation order, its input
    placeholders, its outputs and the ordered table [captures] from captured
    external tensors to the placeholders standing for them. *)
Record FuncGraph : Type := mkFuncGraph {
  fg_name : gid;
  fg_outer_graph : gid;
  fg_operations : list Operation;
  fg_inputs : list Tensor;
  fg_outputs : list Tensor;
  fg_captures : list (Tensor * Tensor);
  fg_next_name : nat;
}.

(** [captures.keys()] and [captures.values()], in insertion order. *)
Definition external_captures (g : FuncGraph) : list Tensor := fst <$> fg_captures g.
Definition internal_captures (g : FuncGraph) : list Tensor := snd <$> fg_captures g.

(** [captures.get(t)] *)
Fixpoint captures_get (c : list (Tensor * Tensor)) (t : Tensor) : option Tensor :=
  match c with
  | [] => None
  | (k, v) :: c => if decide (k = t) then Some v else captures_get c t
  end.

(** [t in l] and [l.index(t)] *)
Definition py_in (t : Tensor) (l : list Tensor) : bool := bool_decide (t ∈ l).

Fixpoint index_from (t : Tensor) (l : list Tensor) (i : nat) : option nat :=
  match l with
  | [] => None
  | x :: l => if decide (x = t) then Some i else index_from t l (S i)
  end.

Definition py_index (l : list Tensor) (t : Tensor) : result nat :=
  match index_from t l 0 with
  | Some i => Ok i
  | None => Raise (ValueError "%s is not in list" [str_tensor t])
  end.

(** [tensor.consumers()] and [tensor.op], read off the operations of the
    graph [g] the tensor lives in.  Every tensor of a graph has a producer
    there; the lookup raises when handed a tensor that has none. *)
Definition consumers (g : FuncGraph) (t : Tensor) : list Operation :=
  filter (fun op => t ∈ op_inputs op) (fg_operations g).

Definition tensor_op (g : FuncGraph) (t : Tensor) : result Operation :=
  match list_find (fun op => op_name op = t_op_name t) (fg_operations g) with
  | Some (_, op) => Ok op
  | None => Raise (ValueError "Tensor %s has no operation in its graph." [str_tensor t])
  end.

(** Adding an operation to a graph: the operation takes the next unused name
    and its outputs are fresh tensors of the graph. *)
Definition new_outputs (g : gid) (name : nat) (outs : list (DType * TensorShape))
  : list Tensor :=
  imap (fun i '(d, s) => mkTensor g name i d s) outs.

Definition add_op_with_value (g : FuncGraph) (type : string) (inputs : list Tensor)
    (outs : list (DType * TensorShape)) (value : option float32)
  : Operation * FuncGraph :=
  let op := mkOp (fg_next_name g) type inputs
              (new_outputs (fg_name g) (fg_next_name g) outs) value in
  (op, mkFuncGraph (fg_name g) (fg_outer_graph g) (fg_operations g ++ [op])
         (fg_inputs g) (fg_outputs g) (fg_captures g) (S (fg_next_name g))).

Definition add_op (g : FuncGraph) (type : string) (inputs : list Tensor)
    (outs : list (DType * TensorShape)) : Operation * FuncGraph :=
  add_op_with_value g type inputs outs None.

Definition set_outputs (g : FuncGraph) (outs : list Tensor) : FuncGraph :=
  mkFuncGraph (fg_name g) (fg_outer_graph g) (fg_operations g) (fg_inputs g)
    outs (fg_captures g) (fg_next_name g).

(** Modelled from the spec: [FuncGraph.capture] and [FuncGraph._capture_helper]
    live in func_graph.py, which is not part of the sources.  A reference to a
    value of another graph is resolved into an explicit extra input: the first
    capture of a tensor creates a placeholder of the same type, records the
    pair in [captures] and appends the placeholder to [inputs]; later captures
    of the same tensor return that placeholder. *)
Definition base_capture_helper (g : FuncGraph) (t : Tensor) : Tensor * FuncGraph :=
  match captures_get (fg_captures g) t with
  | Some ph => (ph, g)
  | None =>
      let '(op, g1) := add_op g "Placeholder" [] [(t_dtype t, t_shape t)] in
      let ph := mkTensor (fg_name g) (fg_next_name g) 0 (t_dtype t) (t_shape t) in
      (ph, mkFuncGraph (fg_name g1) (fg_outer_graph g1) (fg_operations g1)
             (fg_inputs g1 ++ [ph]) (fg_outputs g1)
             (fg_captures g1 ++ [(t, ph)]) (fg_next_name g1))
  end.

Definition capture (g : FuncGraph) (t : Tensor) : Tensor * FuncGraph :=
  if decide (t_graph t = fg_name g) then (t, g) else base_capture_helper g t.

(** Operations created while a function graph is the default graph capture
    their inputs from other graphs first. *)
Fixpoint capture_all (g : FuncGraph) (ts : list Tensor) : list Tensor * FuncGraph :=
  match ts with
  | [] => ([], g)
  | t :: ts =>
      let '(t', g1) := capture g t in
      let '(ts', g2) := capture_all g1 ts in
      (t' :: ts', g2)
  end.

(** ** Nested structures ([nest]) *)

Inductive nest (A : Type) : Type :=
  | Leaf (a : A)
  | Seq (l : list (nest A)).
Arguments Leaf {A} a.
Arguments Seq {A} l.

(** Modelled from the spec: the [nest] utilities are not part of the sources.
    Loop-carried values are nested sequences; [flatten] lists the leaves left
    to right, [map_structure] maps over the leaves, [pack_sequence_as] refills
    the leaves of a structure from a flat list of the same length and
    [assert_same_structure] compares the nesting of two structures. *)
Fixpoint flatten {A} (s : nest A) : list A :=
  match s with
  | Leaf a => [a]
  | Seq l => concat (map flatten l)
  end.

Fixpoint map_structure {A B} (f : A -> B) (s : nest A) : nest B :=
  match s with
  | Leaf a => Leaf (f a)
  | Seq l => Seq (map (map_structure f) l)
  end.

Fixpoint same_structure {A B} (s : nest A) (s' : nest B) : bool :=
  match s, s' with
  | Leaf _, Leaf _ => true
  | Seq l, Seq l' =>
      (fix go (l : list (nest A)) (l' : list (nest B)) : bool :=
         match l, l' with
         | [], [] => true
         | x :: l, y :: l' => same_structure x y && go l l'
         | _, _ => false
         end) l l'
  | _, _ => false
  end.

Definition assert_same_structure {A B} (s : nest A) (s' : nest B) : result unit :=
  if same_structure s s' then Ok tt
  else Raise (ValueError "The two structures don't have the same nested structure." []).

(** Refill the leaves of [s] from [flat]; returns the packed structure and the
    unused rest of [flat], or [None] when [flat] runs out. *)
Fixpoint packed_nest {A B} (s : nest A) (flat : list B) : option (nest B * list B) :=
  match s with
  | Leaf _ =>
      match flat with
      | b :: flat => Some (Leaf b, flat)
      | [] => None
      end
  | Seq l =>
      match (fix go (l : list (nest A)) (flat : list B) : option (list (nest B) * list B) :=
               match l with
               | [] => Some ([], flat)
               | x :: l =>
                   match packed_nest x flat with
                   | Some (y, flat') =>
                       match go l flat' with
                       | Some (ys, rest) => Some (y :: ys, rest)
                       | None => None
                       end
                   | None => None
                   end
               end) l flat with
      | Some (ys, rest) => Some (Seq ys, rest)
      | None => None
      end
  end.

Definition pack_sequence_as {A B} (s : nest A) (flat : list B) : result (nest B) :=
  if decide (length (flatten s) = length flat) then
    match packed_nest s flat with
    | Some (p, _) => Ok p
    | None => Raise (ValueError "Could not pack sequence." [])
    end
  else Raise (ValueError "Could not pack sequence." []).

(** Induction over nested structures. *)
Section NestInd.
Context {A : Type} (P : nest A -> Prop).
Hypothesis HLeaf : forall a, P (Leaf a).
Hypothesis HSeq : forall l, Forall P l -> P (Seq l).

Fixpoint nest_ind' (s : nest A) : P s :=
  match s with
  | Leaf a => HLeaf a
  | Seq l =>
      HSeq l ((fix go (l : list (nest A)) : Forall P l :=
                 match l with
                 | [] => Forall_nil_2 P
                 | x :: l => Forall_cons_2 P x l (nest_ind' x) (go l)
                 end) l)
  end.
End NestInd.

(** ** Loop-carried values *)

(** A [TensorArray] object: its resource handle, its scalar flow value and the
    attributes [_pack_sequence_as] copies. *)
Record TensorArray : Type := mkTensorArray {
  ta_dtype : DType;
  ta_handle : Tensor;
  ta_flow : Tensor;
  ta_infer_shape : bool;
  ta_colocate_with_first_write_call : bool;
  ta_colocate_with : list string;
  ta_element_shape : TensorShape;
}.

Inductive LoopVar : Type :=
  | LV_Tensor (t : Tensor)
  | LV_TensorArray (ta : TensorArray).

(** [_tensor_array_to_flow] *)
Definition _tensor_array_to_flow (loop_vars : nest LoopVar) : nest Tensor :=
  map_structure (fun maybe_ta =>
                   match maybe_ta with
                   | LV_TensorArray ta => ta_flow ta
                   | LV_Tensor t => t
                   end) loop_vars.

(** [_pack_sequence_as]: like [nest.pack_sequence_as] but also replaces flows
    with TensorArrays. *)
Definition flow_to_tensor_array (flow : Tensor) (ta : LoopVar) : LoopVar :=
  match ta with
  | LV_TensorArray ta =>
      LV_TensorArray
        (mkTensorArray (ta_dtype ta) (ta_handle ta) flow (ta_infer_shape ta)
           (ta_colocate_with_first_write_call ta) (ta_colocate_with ta)
           (ta_element_shape ta))
  | LV_Tensor _ => LV_Tensor flow
  end.

Definition _pack_sequence_as (structure_with_tas : nest LoopVar)
    (loop_vars : list Tensor) : result (nest LoopVar) :=
  let flattened_loop_vars :=
    (fun z => flow_to_tensor_array z.1 z.2)
      <$> zip loop_vars (flatten structure_with_tas) in
  pack_sequence_as structure_with_tas flattened_loop_vars.

(** ** Shape validation *)

(** Modelled from the spec: [control_flow_ops._ShapeLessThanOrEqual] is not
    part of the sources.  The output shape [shape1] must be an instance of the
    invariant [shape2]: an invariant of unknown rank accepts everything,
    otherwise the ranks agree, unknown dimensions of the invariant are
    unconstrained and its concrete dimensions must match exactly. *)
Fixpoint dims_less_than_or_equal (dims1 dims2 : list Dimension) : bool :=
  match dims1, dims2 with
  | [], [] => true
  | dim1 :: dims1, dim2 :: dims2 =>
      match dim2 with
      | None => dims_less_than_or_equal dims1 dims2
      | Some _ => bool_decide (dim1 = dim2) && dims_less_than_or_equal dims1 dims2
      end
  | _, _ => false
  end.

Definition _ShapeLessThanOrEqual (shape1 shape2 : TensorShape) : bool :=
  match shape2 with
  | None => true
  | Some dims2 =>
      match shape1 with
      | None => false
      | Some dims1 => dims_less_than_or_equal dims1 dims2
      end
  end.

Definition shape_error_msg : string :=
  "Input tensor '%s' enters the loop with shape %s, but has shape %s after one iteration. To allow the shape to vary across iterations, use the `shape_invariants` argument of tf.while_loop to specify a less-specific shape.".

(** [_check_shapes_compat] *)
Fixpoint check_shapes_compat_loop (zipped : list (Tensor * TensorShape * Tensor))
  : result unit :=
  match zipped with
  | [] => Ok tt
  | (t, shape, input_t) :: zipped =>
      if negb (_ShapeLessThanOrEqual (t_shape t) shape) then
        Raise (ValueError shape_error_msg
                 [str_tensor input_t; str_shape shape; str_shape (t_shape t)])
      else check_shapes_compat_loop zipped
  end.

Definition _check_shapes_compat (output_tensors : list Tensor)
    (shape_invariants : list TensorShape) (input_tensors : list Tensor) : result unit :=
  check_shapes_compat_loop (zip3 output_tensors shape_invariants input_tensors).

(** [_check_num_inputs_outputs] *)
Definition _check_num_inputs_outputs (cond_graph body_graph : FuncGraph)
    (num_flattened_loop_vars : nat) : result unit :=
  _ ← py_assert (bool_decide (length (fg_inputs cond_graph) = num_flattened_loop_vars))
        "cond_graph takes %d inputs; Expected: %d"
        [pretty (length (fg_inputs cond_graph)); pretty num_flattened_loop_vars];
  _ ← py_assert (bool_decide (length (fg_outputs cond_graph) = 1))
        "cond_graph has %d outputs; Expected: 1"
        [pretty (length (fg_outputs cond_graph))];
  _ ← py_assert (bool_decide (length (fg_inputs body_graph) = num_flattened_loop_vars))
        "body_graph takes %d inputs; Expected: %d"
        [pretty (length (fg_inputs cond_graph)); pretty num_flattened_loop_vars];
  py_assert (bool_decide (length (fg_outputs body_graph) = num_flattened_loop_vars))
    "body_graph has %d outputs; Expected: %d"
    [pretty (length (fg_outputs body_graph)); pretty num_flattened_loop_vars].

(** ** Accumulation of intermediates *)

(** [_get_accumulator], with its local helper [get_func_graph_output].  The
    graph argument is [tensor.graph]. *)
Definition get_func_graph_output (g : FuncGraph) (t : Tensor) : result (option Tensor) :=
  if py_in t (fg_outputs g) then Ok (Some t)
  else
    identity_op ← py_getitem (consumers g t) 0;
    if decide (op_type identity_op = "Identity") then
      o ← py_getitem (op_outputs identity_op) 0;
      if py_in o (fg_outputs g) then Ok (Some o) else Ok None
    else Ok None.

Fixpoint get_accumulator_loop (g : FuncGraph) (cs : list Operation)
  : result (option Tensor) :=
  match cs with
  | [] => Ok None
  | consumer :: cs =>
      if decide (op_type consumer = "TensorListPushBack") then
        input_tl ← py_getitem (op_inputs consumer) 0;
        if py_in input_tl (fg_inputs g) then
          output_tl ← py_getitem (op_outputs consumer) 0;
          output ← get_func_graph_output g output_tl;
          match output with
          | None => get_accumulator_loop g cs
          | Some output =>
              accum_input_idx ← py_index (fg_inputs g) input_tl;
              accum_output_idx ← py_index (fg_outputs g) output;
              if decide (accum_input_idx = accum_output_idx) then Ok (Some output)
              else get_accumulator_loop g cs
          end
        else get_accumulator_loop g cs
      else get_accumulator_loop g cs
  end.

Definition _get_accumulator (g : FuncGraph) (tensor : Tensor) : result (option Tensor) :=
  get_accumulator_loop g (consumers g tensor).

(** [_get_intermediates] *)
Fixpoint intermediates_of_outputs (func_graph : FuncGraph) (outs : list Tensor)
    (intermediates : list Tensor) : result (list Tensor) :=
  match outs with
  | [] => Ok intermediates
  | o :: outs =>
      counter ← py_getitem (fg_inputs func_graph) 0;
      if decide (o = counter) then
        intermediates_of_outputs func_graph outs intermediates
      else if decide (t_dtype o = DT_RESOURCE) then
        intermediates_of_outputs func_graph outs intermediates
      else
        acc ← _get_accumulator func_graph o;
        match acc with
        | None => intermediates_of_outputs func_graph outs (intermediates ++ [o])
        | Some _ => intermediates_of_outputs func_graph outs intermediates
        end
  end.

Fixpoint intermediates_of_ops (func_graph : FuncGraph) (ops : list Operation)
    (intermediates : list Tensor) : result (list Tensor) :=
  match ops with
  | [] => Ok intermediates
  | op :: ops =>
      if decide (op_type op = "Identity") then
        intermediates_of_ops func_graph ops intermediates
      else
        intermediates ← intermediates_of_outputs func_graph (op_outputs op) intermediates;
        intermediates_of_ops func_graph ops intermediates
  end.

Definition _get_intermediates (func_graph : FuncGraph) : result (list Tensor) :=
  intermediates_of_ops func_graph (fg_operations func_graph) [].

(** ** The forward assembler *)

(** An operation with a single output. *)
Definition add_op1 (g : FuncGraph) (type : string) (inputs : list Tensor)
    (d : DType) (s : TensorShape) : Tensor * FuncGraph :=
  let '(_, g1) := add_op g type inputs [(d, s)] in
  (mkTensor (fg_name g) (fg_next_name g) 0 d s, g1).

(** [constant_op.constant(value)] for a float scalar. *)
Definition constant (g : FuncGraph) (value : float32) : Tensor * FuncGraph :=
  let '(_, g1) := add_op_with_value g "Const" [] [(DT_FLOAT, scalar)] (Some value) in
  (mkTensor (fg_name g) (fg_next_name g) 0 DT_FLOAT scalar, g1).

Definition create_op1 (g : FuncGraph) (type : string) (inputs : list Tensor)
    (d : DType) (s : TensorShape) : Tensor * FuncGraph :=
  let '(inputs', g1) := capture_all g inputs in
  add_op1 g1 type inputs' d s.

Definition shared_capture_msg : string :=
  "Looks like both cond and body are capturing the same tensor %s. This is not supported yet. For now consider passing, this as a loop variable.".

(** Lines 177-183 of [while_loop]: capture the external captures of the body
    in the cond graph. *)
Fixpoint reconcile_captures (cond_graph : FuncGraph) (body_external : list Tensor)
  : result FuncGraph :=
  match body_external with
  | [] => Ok cond_graph
  | external_capture :: body_external =>
      _ ← py_assert (negb (py_in external_capture (external_captures cond_graph)))
            shared_capture_msg [str_tensor external_capture];
      reconcile_captures (capture cond_graph external_capture).2 body_external
  end.

(** The graphs and the loop variables [while_loop] updates while it
    accumulates. *)
Record Assembly : Type := mkAssembly {
  as_outer : FuncGraph;
  as_loop_vars : list (nest Tensor);
  as_cond_graph : FuncGraph;
  as_body_graph : FuncGraph;
}.

(** Lines 190-208 of [while_loop]: one empty tensor list per intermediate,
    appended to the loop variables, captured by the cond graph, and pushed to
    in the body graph (which captures it too); the pushed-to list becomes a
    new body output.  The constant inputs of [EmptyTensorList] (element shape,
    capacity) are not represented. *)
Definition accumulate_one (a : Assembly) (intermediate_tensor : Tensor) : Assembly :=
  let '(tensor_list, outer) :=
    add_op1 (as_outer a) "EmptyTensorList" [] DT_VARIANT scalar in
  let loop_vars := as_loop_vars a ++ [Leaf tensor_list] in
  let cond_graph := (capture (as_cond_graph a) tensor_list).2 in
  let '(appended_tensor_list, body_graph) :=
    create_op1 (as_body_graph a) "TensorListPushBack"
      [tensor_list; intermediate_tensor] DT_VARIANT scalar in
  let body_graph := set_outputs body_graph (fg_outputs body_graph ++ [appended_tensor_list]) in
  mkAssembly outer loop_vars cond_graph body_graph.

Definition accumulate (a : Assembly) (intermediate_tensors : list Tensor) : Assembly :=
  foldl accumulate_one a intermediate_tensors.

(** Lines 232-245: an identity per output of the While operation. *)
Fixpoint identities (outer : FuncGraph) (outputs : list Tensor) : list Tensor * FuncGraph :=
  match outputs with
  | [] => ([], outer)
  | t :: outputs =>
      let '(t', outer) := add_op1 outer "Identity" [t] (t_dtype t) (t_shape t) in
      let '(ts, outer) := identities outer outputs in
      (t' :: ts, outer)
  end.

(** Lines 240-245: the first output is the loop counter; a single flattened
    loop variable is returned bare. *)
Definition while_loop_return (orig_loop_vars : list (nest LoopVar))
    (outputs : list Tensor) : result (nest LoopVar) :=
  let num_flattened_outputs := length (flatten (Seq orig_loop_vars)) in
  if decide (num_flattened_outputs = 1) then
    o ← py_getitem outputs 1; Ok (Leaf (LV_Tensor o))
  else
    _pack_sequence_as (Seq orig_loop_vars) (py_slice outputs 1 num_flattened_outputs).

Section WhileLoop.

(** [func_graph_from_py_func] applied to [wrapped_cond] and to
    [wrapped_body]: the closure builder is a collaborator, so the graph it
    returns for given loop variables and signature shapes is taken as
    given. *)
Variable trace_cond : list (nest Tensor) -> list (nest TensorShape) -> result FuncGraph.
Variable trace_body : list (nest Tensor) -> list (nest TensorShape) -> result FuncGraph.

(** The steps of [while_loop] up to and including the validation (lines
    61-220).  [outer] is the default graph.  The loop variables are tensors
    already, so [internal_convert_to_tensor_or_indexed_slices] leaves them as
    they are; name scopes and function names are not represented, and the
    signature handed to the closure builder is the list of shape
    invariants. *)
Definition while_loop_assemble (outer : FuncGraph)
    (orig_loop_vars : list (nest LoopVar))
    (shape_invariants : option (list (nest TensorShape))) : result Assembly :=
  let len_orig_loop_vars := length orig_loop_vars in
  let loop_vars := _tensor_array_to_flow <$> orig_loop_vars in
  shape_invariants ←
    match shape_invariants with
    | Some shape_invariants =>
        _ ← assert_same_structure (Seq orig_loop_vars) (Seq shape_invariants);
        Ok shape_invariants
    | None => Ok (map_structure t_shape <$> loop_vars)
    end;
  let '(loop_counter, outer) := constant outer 0%N in
  let loop_vars := Leaf loop_counter :: loop_vars in
  let shape_invariants := Leaf scalar :: shape_invariants in
  cond_graph ← trace_cond loop_vars shape_invariants;
  let loop_vars := loop_vars ++ (Leaf <$> external_captures cond_graph) in
  let shape_invariants :=
    shape_invariants ++ ((fun t => Leaf (t_shape t)) <$> external_captures cond_graph) in
  body_graph ← trace_body loop_vars shape_invariants;
  let loop_vars := loop_vars ++ (Leaf <$> external_captures body_graph) in
  let body_graph :=
    set_outputs body_graph (fg_outputs body_graph ++ internal_captures body_graph) in
  cond_graph ← reconcile_captures cond_graph (external_captures body_graph);
  intermediate_tensors ← _get_intermediates body_graph;
  let a := accumulate (mkAssembly outer loop_vars cond_graph body_graph)
             intermediate_tensors in
  let num_flattened_outputs := length (flatten (Seq orig_loop_vars)) in
  _ ← _check_shapes_compat
        (py_slice (fg_outputs (as_body_graph a)) 1 num_flattened_outputs)
        (flatten (Seq (py_slice shape_invariants 1 len_orig_loop_vars)))
        (flatten (Seq (py_slice (as_loop_vars a) 1 len_orig_loop_vars)));
  let flattened_loop_vars := flatten (Seq (as_loop_vars a)) in
  _ ← _check_num_inputs_outputs (as_cond_graph a) (as_body_graph a)
        (length flattened_loop_vars);
  Ok a.

(** [while_loop]: emits the single While operation (one output per input,
    shaped like the body outputs) and returns the loop-carried outputs.  The
    function attributes, the handle data copied onto the outputs and the
    lowering attribute of the operation are not represented. *)
Definition while_loop (outer : FuncGraph) (orig_loop_vars : list (nest LoopVar))
    (shape_invariants : option (list (nest TensorShape)))
  : result (nest LoopVar * FuncGraph) :=
  a ← while_loop_assemble outer orig_loop_vars shape_invariants;
  let flattened_loop_vars := flatten (Seq (as_loop_vars a)) in
  let '(while_op, outer) :=
    add_op (as_outer a) "While" flattened_loop_vars
      ((fun z => (t_dtype z.1, t_shape z.2))
         <$> zip flattened_loop_vars (fg_outputs (as_body_graph a))) in
  let '(outputs, outer) := identities outer (op_outputs while_op) in
  r ← while_loop_return orig_loop_vars outputs;
  Ok (r, outer).

End WhileLoop.

(** ** The gradient capture resolver *)

#[global] Instance DType_countable : Countable DType.
Proof.
  refine (inj_countable'
            (fun d => match d with
                      | DT_FLOAT => 0 | DT_INT32 => 1 | DT_BOOL => 2
                      | DT_RESOURCE => 3 | DT_VARIANT => 4
                      end)
            (fun n => match n with
                      | 0 => DT_FLOAT | 1 => DT_INT32 | 2 => DT_BOOL
                      | 3 => DT_RESOURCE | _ => DT_VARIANT
                      end) _).
  intros []; reflexivity.
Defined.

#[global] Instance Tensor_countable : Countable Tensor.
Proof.
  refine (inj_countable'
            (fun t => (t_graph t, t_op_name t, t_value_index t, t_dtype t, t_shape t))
            (fun p => let '(g, n, i, d, s) := p in mkTensor g n i d s) _).
  intros []; reflexivity.
Defined.

(** [_WhileBodyGradFuncGraph]: the state inherited from [FuncGraph], the
    forward body graph with the While operation it belongs to
    ([_forward_graph._while]), and the three dictionaries of the class. *)
Record WhileBodyGradFuncGraph : Type := mkGradFuncGraph {
  gg_graph : FuncGraph;
  popped_tensor_lists : gmap Tensor Tensor;
  _forward_graph : FuncGraph;
  _forward_while : Operation;
  _indirect_captures : gmap Tensor Tensor;
  _inner_to_outer_tensor : gmap Tensor Tensor;
}.

Definition gg_with_graph (self : WhileBodyGradFuncGraph) (g : FuncGraph)
  : WhileBodyGradFuncGraph :=
  mkGradFuncGraph g (popped_tensor_lists self) (_forward_graph self)
    (_forward_while self) (_indirect_captures self) (_inner_to_outer_tensor self).

Definition gg_set_inner_to_outer (self : WhileBodyGradFuncGraph) (k v : Tensor)
  : WhileBodyGradFuncGraph :=
  mkGradFuncGraph (gg_graph self) (popped_tensor_lists self) (_forward_graph self)
    (_forward_while self) (_indirect_captures self)
    (<[k:=v]> (_inner_to_outer_tensor self)).

Definition gg_set_indirect (self : WhileBodyGradFuncGraph) (k v : Tensor)
  : WhileBodyGradFuncGraph :=
  mkGradFuncGraph (gg_graph self) (popped_tensor_lists self) (_forward_graph self)
    (_forward_while self) (<[k:=v]> (_indirect_captures self))
    (_inner_to_outer_tensor self).

Definition gg_set_popped (self : WhileBodyGradFuncGraph) (k v : Tensor)
  : WhileBodyGradFuncGraph :=
  mkGradFuncGraph (gg_graph self) (<[k:=v]> (popped_tensor_lists self))
    (_forward_graph self) (_forward_while self) (_indirect_captures self)
    (_inner_to_outer_tensor self).

(** [__init__] *)
Definition new_grad_func_graph (g : FuncGraph) (forward_graph : FuncGraph)
    (while_op : Operation) : WhileBodyGradFuncGraph :=
  mkGradFuncGraph g ∅ forward_graph while_op ∅ ∅.

(** [super()._capture_helper] *)
Definition super_capture_helper (self : WhileBodyGradFuncGraph) (tensor : Tensor)
  : Tensor * WhileBodyGradFuncGraph :=
  let '(ph, g) := base_capture_helper (gg_graph self) tensor in
  (ph, gg_with_graph self g).

(** [while tensor.op.type == "Identity": tensor = tensor.op.inputs[0]].  The
    loop runs on fuel; in a graph without cycles it makes fewer steps than the
    graph has operations.  [None] stands for a loop that has not stopped. *)
Fixpoint skip_identities (fuel : nat) (g : FuncGraph) (tensor : Tensor)
  : option (result Tensor) :=
  match tensor_op g tensor with
  | Raise e => Some (Raise e)
  | Ok op =>
      if decide (op_type op = "Identity") then
        match py_getitem (op_inputs op) 0 with
        | Raise e => Some (Raise e)
        | Ok tensor' =>
            match fuel with
            | 0 => None
            | S fuel => skip_identities fuel g tensor'
            end
        end
      else Some (Ok tensor)
  end.

Definition capture_error_msg : string :=
  "Attempting to capture tensor %s which is not in the forward graph but in %s.".
Definition resource_created_msg : string :=
  "Taking gradient of a while loop which creates a resource in its body is not supported: %s".
Definition loop_invariant_msg : string :=
  "Resource tensors must be loop invariants %s.".
Definition unaccumulated_msg : string :=
  "Reference to un-accumulated intermediate tensor: %s".

(** [_WhileBodyGradFuncGraph.capture], over the [_capture_helper] it
    dispatches to. *)
Definition capture_via
    (helper : WhileBodyGradFuncGraph -> Tensor -> option (result (Tensor * WhileBodyGradFuncGraph)))
    (self : WhileBodyGradFuncGraph) (tensor : Tensor) (whitelisted : bool)
  : option (result (Tensor * WhileBodyGradFuncGraph)) :=
  if negb whitelisted
     && negb (bool_decide (t_graph tensor = fg_name (gg_graph self)))
     && negb (bool_decide (t_graph tensor = fg_name (_forward_graph self)))
  then Some (Raise (ValueError capture_error_msg
                      [str_tensor tensor; pretty (t_graph tensor)]))
  else if decide (t_graph tensor = fg_name (gg_graph self)) then Some (Ok (tensor, self))
  else helper self tensor.

(** The index of a resource tensor among the inputs of the forward body. *)
Definition resource_index (forward_graph : FuncGraph) (tensor : Tensor) : result nat :=
  if py_in tensor (fg_inputs forward_graph) then py_index (fg_inputs forward_graph) tensor
  else
    op ← tensor_op forward_graph tensor;
    if decide (op_type op = "While") then
      inp ← py_getitem (op_inputs op) (t_value_index tensor);
      py_index (fg_inputs forward_graph) inp
    else Raise (ValueError resource_created_msg [str_tensor tensor]).

(** [_capture_helper], lines 622-628: a tensor resolved before. *)
Definition cached_capture (self : WhileBodyGradFuncGraph) (tensor captured_tensor : Tensor)
  : result (Tensor * WhileBodyGradFuncGraph) :=
  match _inner_to_outer_tensor self !! tensor with
  | None => Raise (KeyError (str_tensor tensor))
  | Some outer_tensor =>
      _ ← py_assert (py_in outer_tensor (external_captures (gg_graph self))) "" [];
      Ok (captured_tensor, (super_capture_helper self outer_tensor).2)
  end.

(** [_capture_helper], lines 630-651: the input of the forward While
    operation that a resource tensor of the forward body stands for. *)
Definition resolve_resource (self : WhileBodyGradFuncGraph) (tensor : Tensor)
  : result Tensor :=
  let fwd := _forward_graph self in
  index ← resource_index fwd tensor;
  input_t ← py_getitem (fg_inputs fwd) index;
  output_t ← py_getitem (fg_outputs fwd) index;
  if decide (input_t = output_t) then
    py_getitem (op_inputs (_forward_while self)) index
  else
    while_input ← py_getitem (op_inputs (_forward_while self)) index;
    Raise (AssertionError loop_invariant_msg [str_tensor while_input]).

(** [_capture_helper], lines 657-682: an intermediate is read back from its
    accumulator.  The output of the forward While operation that holds the
    accumulator is captured and one value is popped off it. *)
Definition capture_accumulated (self : WhileBodyGradFuncGraph) (tensor : Tensor)
  : result (Tensor * WhileBodyGradFuncGraph) :=
  let fwd := _forward_graph self in
  _ ← py_assert (bool_decide (_inner_to_outer_tensor self !! tensor = None)) "" [];
  accumulator ← _get_accumulator fwd tensor;
  match accumulator with
  | None => Raise (ValueError unaccumulated_msg [str_tensor tensor])
  | Some accumulator =>
      _ ← py_assert (bool_decide (t_graph accumulator = fg_name fwd)) "" [];
      idx ← py_index (fg_outputs fwd) accumulator;
      accumulator ← py_getitem (op_outputs (_forward_while self)) idx;
      _ ← py_assert (bool_decide (t_graph accumulator = fg_outer_graph fwd)) "" [];
      let self := gg_set_inner_to_outer self tensor accumulator in
      let '(accumulator_ph, self) := super_capture_helper self accumulator in
      let '(pop, g) :=
        add_op (gg_graph self) "TensorListPopBack" [accumulator_ph]
          [(DT_VARIANT, scalar); (t_dtype tensor, None)] in
      let self := gg_with_graph self g in
      let new_tensor_list := mkTensor (fg_name g) (op_name pop) 0 DT_VARIANT scalar in
      let captured_tensor := mkTensor (fg_name g) (op_name pop) 1 (t_dtype tensor) None in
      let self := gg_set_indirect self tensor captured_tensor in
      let self := gg_set_popped self accumulator_ph new_tensor_list in
      Ok (captured_tensor, self)
  end.

(** [_WhileBodyGradFuncGraph._capture_helper].  [depth] bounds the nesting of
    calls ([capture] calls back into [_capture_helper]); running out of it is
    [None], as is an identity chain that does not end. *)
Fixpoint _capture_helper (depth : nat) (self : WhileBodyGradFuncGraph) (tensor : Tensor)
  : option (result (Tensor * WhileBodyGradFuncGraph)) :=
  match depth with
  | 0 => None
  | S depth =>
      let fwd := _forward_graph self in
      if decide (t_graph tensor = fg_name fwd) then
        match skip_identities (length (fg_operations fwd)) fwd tensor with
        | None => None
        | Some (Raise e) => Some (Raise e)
        | Some (Ok tensor) =>
            match _indirect_captures self !! tensor with
            | Some captured_tensor => Some (cached_capture self tensor captured_tensor)
            | None =>
                if decide (t_dtype tensor = DT_RESOURCE) then
                  match resolve_resource self tensor with
                  | Raise e => Some (Raise e)
                  | Ok tensor_in_outer_graph =>
                      let self := gg_set_inner_to_outer self tensor tensor_in_outer_graph in
                      match capture_via (_capture_helper depth) self tensor_in_outer_graph true with
                      | None => None
                      | Some (Raise e) => Some (Raise e)
                      | Some (Ok (ph, self)) => Some (Ok (ph, gg_set_indirect self tensor ph))
                      end
                  end
                else Some (capture_accumulated self tensor)
            end
        end
      else Some (Ok (super_capture_helper self tensor))
  end.

Definition grad_capture (depth : nat) (self : WhileBodyGradFuncGraph) (tensor : Tensor)
    (whitelisted : bool) : option (result (Tensor * WhileBodyGradFuncGraph)) :=
  capture_via (_capture_helper depth) self tensor whitelisted.

(** ** The gradient assembler *)

(** Op types that output a resource tensor representing a TensorArray
    handle. *)
Definition TENSOR_ARRAY_HANDLE_OPS : list string :=
  ["TensorArrayV3"; "TensorArrayGradV3"; "TensorArrayGradWithShape"].

(** [_create_grad_func], lines 386-396: the popped accumulators (or the
    captured resources) become outputs, in the order of the captures. *)
Fixpoint add_popped_outputs (self : WhileBodyGradFuncGraph)
    (internal : list Tensor) : result WhileBodyGradFuncGraph :=
  match internal with
  | [] => Ok self
  | internal_capture :: internal =>
      match popped_tensor_lists self !! internal_capture with
      | Some popped =>
          add_popped_outputs
            (gg_with_graph self
               (set_outputs (gg_graph self) (fg_outputs (gg_graph self) ++ [popped])))
            internal
      | None =>
          if decide (t_dtype internal_capture = DT_RESOURCE) then
            add_popped_outputs
              (gg_with_graph self
                 (set_outputs (gg_graph self)
                    (fg_outputs (gg_graph self) ++ [internal_capture])))
              internal
          else
            Raise (ValueError
                     "Tensor %s is in list of internal_captures but is neither a resource nor is in popped_tensor_lists."
                     [str_tensor internal_capture])
      end
  end.

(** Lines 317-325 of [_WhileGrad]: [None] where the incoming gradient is
    [None], the next output of the backward While operation elsewhere. *)
Fixpoint none_pad (grads : list (option Tensor)) (outputs : list Tensor) (index : nat)
  : result (list (option Tensor)) :=
  match grads with
  | [] => Ok []
  | None :: grads =>
      rest ← none_pad grads outputs index; Ok (None :: rest)
  | Some _ :: grads =>
      o ← py_getitem outputs index;
      rest ← none_pad grads outputs (S index);
      Ok (Some o :: rest)
  end.

(** [result]-valued map, left to right. *)
Fixpoint mapM_result {A B} (f : A -> result B) (l : list A) : result (list B) :=
  match l with
  | [] => Ok []
  | a :: l => b ← f a; bs ← mapM_result f l; Ok (b :: bs)
  end.

Section WhileGrad.

(** What [_WhileGrad] reads from the world around it: the graph object a
    tensor's [graph] attribute refers to, [func_graph.maybe_captured],
    [gradients_impl.IsTrainable], the body graph rebuilt from the function
    library ([_get_body_graph]), and the closure builder applied to
    [_grad_fn] under a fresh [_WhileBodyGradFuncGraph] and to [grad_cond]. *)
Variable graph_of : gid -> FuncGraph.
Variable maybe_captured : Tensor -> Tensor.
Variable IsTrainable : Tensor -> bool.
Variable _get_body_graph : Operation -> FuncGraph.
Variable trace_grad_fn :
  list Tensor -> list Tensor -> list Tensor -> FuncGraph -> Operation ->
  option (result WhileBodyGradFuncGraph).
Variable trace_grad_cond : list Tensor -> result FuncGraph.
Variable recursion_limit : nat.

(** [_is_tensor_array_handle] *)
Definition _is_tensor_array_handle (tensor : Tensor) : result bool :=
  if decide (t_dtype tensor = DT_RESOURCE) then
    op ← tensor_op (graph_of (t_graph tensor)) tensor;
    tensor ←
      (if decide (op_type op = "While")
       then py_getitem (op_inputs op) (t_value_index tensor)
       else Ok tensor);
    let tensor := maybe_captured tensor in
    op ← tensor_op (graph_of (t_graph tensor)) tensor;
    Ok (bool_decide (op_type op ∈ TENSOR_ARRAY_HANDLE_OPS))
  else Ok false.

(** [_create_grad_func] *)
Definition _create_grad_func (outer : FuncGraph) (ys xs grads : list Tensor)
    (func_graph : FuncGraph) (while_op : Operation)
  : option (result (WhileBodyGradFuncGraph * list Tensor * FuncGraph)) :=
  match py_assert (bool_decide (length ys = length grads)) "" [] with
  | Raise e => Some (Raise e)
  | Ok _ =>
      let '(counter, outer) := constant outer 0%N in
      match py_getitem (op_outputs while_op) 0 with
      | Raise e => Some (Raise e)
      | Ok total_iters =>
          let args := [counter; total_iters] ++ grads in
          match trace_grad_fn ys xs args func_graph while_op with
          | None => None
          | Some (Raise e) => Some (Raise e)
          | Some (Ok grad_func_graph) =>
              Some (grad_func_graph ←
                      add_popped_outputs grad_func_graph
                        (internal_captures (gg_graph grad_func_graph));
                    Ok (grad_func_graph, args, outer))
          end
      end
  end.

(** Lines 280-290 of [_WhileGrad]: accumulate the intermediates of the
    backward body. *)
Fixpoint grad_accumulate (outer : FuncGraph) (body_grad_graph : WhileBodyGradFuncGraph)
    (intermediate_tensors : list Tensor)
  : option (result (WhileBodyGradFuncGraph * FuncGraph)) :=
  match intermediate_tensors with
  | [] => Some (Ok (body_grad_graph, outer))
  | intermediate_tensor :: intermediate_tensors =>
      let '(tensor_list, outer) := add_op1 outer "EmptyTensorList" [] DT_VARIANT scalar in
      match grad_capture recursion_limit body_grad_graph tensor_list true with
      | None => None
      | Some (Raise e) => Some (Raise e)
      | Some (Ok (tensor_list_ph, body_grad_graph)) =>
          let '(appended_tensor_list, g) :=
            add_op1 (gg_graph body_grad_graph) "TensorListPushBack"
              [tensor_list_ph; intermediate_tensor] DT_VARIANT scalar in
          let g := set_outputs g (fg_outputs g ++ [appended_tensor_list]) in
          grad_accumulate outer (gg_with_graph body_grad_graph g) intermediate_tensors
      end
  end.

(** [_WhileGrad]: the gradient of a While operation produced by
    [while_loop].  [outer] is the default graph. *)
Definition _WhileGrad (outer : FuncGraph) (op : Operation) (grads : list (option Tensor))
  : option (result (list (option Tensor) * FuncGraph)) :=
  let body_graph := _get_body_graph op in
  match
    grads ← mapM_result
              (fun z : option Tensor * Tensor =>
                 b ← _is_tensor_array_handle z.2;
                 Ok (if b : bool then None else z.1))
              (zip grads (op_outputs op));
    _ ← py_assert
          (forallb (fun z : Tensor * option Tensor =>
                      bool_decide (z.2 ≠ None)
                      || bool_decide (t_dtype z.1 = DT_RESOURCE)
                      || negb (IsTrainable z.1))
             (zip (op_outputs op) grads))
          "All trainable loop vars must receive incoming gradients." [];
    let triples :=
      omap (fun z : Tensor * Tensor * option Tensor =>
              match z.2 with
              | Some grad => Some (z.1.1, z.1.2, grad)
              | None => None
              end)
        (zip3 (fg_outputs body_graph) (fg_inputs body_graph) grads) in
    if decide (triples = []) then
      Raise (ValueError "not enough values to unpack (expected 3, got 0)" [])
    else Ok (grads, triples)
  with
  | Raise e => Some (Raise e)
  | Ok (grads, triples) =>
      let ys := (fun z : Tensor * Tensor * Tensor => z.1.1) <$> triples in
      let xs := (fun z : Tensor * Tensor * Tensor => z.1.2) <$> triples in
      let non_none_grads := (fun z : Tensor * Tensor * Tensor => z.2) <$> triples in
      match _create_grad_func outer ys xs non_none_grads body_graph op with
      | None => None
      | Some (Raise e) => Some (Raise e)
      | Some (Ok (body_grad_graph, args, outer)) =>
          match _get_intermediates (gg_graph body_grad_graph) with
          | Raise e => Some (Raise e)
          | Ok intermediate_tensors =>
              match grad_accumulate outer body_grad_graph intermediate_tensors with
              | None => None
              | Some (Raise e) => Some (Raise e)
              | Some (Ok (body_grad_graph, outer)) =>
                  Some (
                    let loop_vars := args ++ external_captures (gg_graph body_grad_graph) in
                    cond_grad_graph ← trace_grad_cond loop_vars;
                    _ ← _check_num_inputs_outputs cond_grad_graph (gg_graph body_grad_graph)
                          (length loop_vars);
                    let '(while_op, outer) :=
                      add_op outer "While" loop_vars
                        ((fun z => (t_dtype z.1, t_shape z.2))
                           <$> zip loop_vars (fg_outputs (gg_graph body_grad_graph))) in
                    none_padded_outputs ← none_pad grads (op_outputs while_op) 2;
                    Ok (none_padded_outputs, outer))
              end
          end
      end
  end.

End WhileGrad.

(** ** Loop counters at run time *)

(** float32 has a 24-bit significand: a natural number below [2^24] is a
    float32, a larger one is rounded to the nearest multiple of its unit in
    the last place, ties to the even significand.  (Overflow to infinity,
    beyond [2^128], is not represented.) *)
Definition f32_round (n : N) : float32 :=
  if (n <? 2 ^ 24)%N then n
  else
    let e := (N.log2 n - 23)%N in
    let q := N.shiftr n e in
    let r := N.land n (N.ones e) in
    let half := (2 ^ (e - 1))%N in
    if (r <? half)%N then N.shiftl q e
    else if (half <? r)%N then N.shiftl (q + 1) e
    else if N.even q then N.shiftl q e
    else N.shiftl (q + 1) e.

Definition f32_add (a b : float32) : float32 := f32_round (a + b).
Definition f32_less (a b : float32) : bool := (a <? b)%N.

Section Runtime.

(** The values of the loop variables other than the counter(s): [V] in the
    forward loop, [G] (the gradients and the captured accumulators) in the
    backward loop. *)
Variables V G : Type.

(** [wrapped_cond]: receives the counter and ignores it. *)
Definition wrapped_cond (cond : V -> bool) (unused_loop_counter : float32) (args : V)
  : bool := cond args.

(** [wrapped_body]: returns [[loop_counter + 1] + outputs]. *)
Definition wrapped_body (body : V -> V) (loop_counter : float32) (args : V)
  : float32 * V := (f32_add loop_counter 1%N, body args).

(** [grad_cond] *)
Definition grad_cond (counter max_iters : float32) (unused_args : G) : bool :=
  f32_less counter max_iters.

(** [_grad_fn]: returns [[counter + 1, total_iters] + grad_outs]. *)
Definition _grad_fn (grad_outs : G -> G) (counter total_iters : float32) (grad_ys : G)
  : float32 * float32 * G := (f32_add counter 1%N, total_iters, grad_outs grad_ys).

End Runtime.

(** Modelled from the spec: running an assembled operator is outside this
    core.  A loop operator applies its body sub-program to the loop-carried
    values for as long as its condition sub-program holds;
    [while_runs cond body s n s'] says that started in [s] it stops in [s']
    after [n] applications of the body. *)
Inductive while_runs {S : Type} (cond : S -> bool) (body : S -> S) : S -> N -> S -> Prop :=
  | while_stop s : cond s = false -> while_runs cond body s 0%N s
  | while_step s n s' :
      cond s = true -> while_runs cond body (body s) n s' ->
      while_runs cond body s (N.succ n) s'.

(** The forward loop of [while_loop]: the counter enters as the constant 0. *)
Definition forward_runs {V} (cond : V -> bool) (body : V -> V) (v0 : V)
    (n : N) (out : float32 * V) : Prop :=
  while_runs (fun s => wrapped_cond V cond s.1 s.2)
    (fun s => wrapped_body V body s.1 s.2) (0%N, v0) n out.

(** The backward loop of [_WhileGrad]: the counter enters as the constant 0,
    [total_iters] is output 0 of the forward operation. *)
Definition backward_runs {G} (grad_outs : G -> G) (total_iters : float32) (g0 : G)
    (n : N) (out : float32 * float32 * G) : Prop :=
  while_runs (fun s => grad_cond G s.1.1 s.1.2 s.2)
    (fun s => _grad_fn G grad_outs s.1.1 s.1.2 s.2) (0%N, total_iters, g0) n out.

(** ** Vocabulary of the statements *)

(** The shape invariants [while_loop] works with: the declared ones, or the
    shapes of the (lowered) initial loop variables. *)
Definition effective_invariants (orig_loop_vars : list (nest LoopVar))
    (shape_invariants : option (list (nest TensorShape))) : list (nest TensorShape) :=
  match shape_invariants with
  | Some shape_invariants => shape_invariants
  | None => map_structure t_shape <$> (_tensor_array_to_flow <$> orig_loop_vars)
  end.

(** The loop variables and invariants handed to the two tracers. *)
Definition cond_loop_vars (outer : FuncGraph) (orig_loop_vars : list (nest LoopVar))
  : list (nest Tensor) :=
  Leaf (constant outer 0%N).1 :: (_tensor_array_to_flow <$> orig_loop_vars).

Definition cond_invariants (orig_loop_vars : list (nest LoopVar))
    (shape_invariants : option (list (nest TensorShape))) : list (nest TensorShape) :=
  Leaf scalar :: effective_invariants orig_loop_vars shape_invariants.

Definition body_loop_vars (outer : FuncGraph) (orig_loop_vars : list (nest LoopVar))
    (cond_graph : FuncGraph) : list (nest Tensor) :=
  cond_loop_vars outer orig_loop_vars ++ (Leaf <$> external_captures cond_graph).

Definition body_invariants (orig_loop_vars : list (nest LoopVar))
    (shape_invariants : option (list (nest TensorShape))) (cond_graph : FuncGraph)
  : list (nest TensorShape) :=
  cond_invariants orig_loop_vars shape_invariants
    ++ ((fun t => Leaf (t_shape t)) <$> external_captures cond_graph).

(** The body graph once its captured placeholders have been appended to its
    outputs (line 171). *)
Definition with_passthrough (body_graph : FuncGraph) : FuncGraph :=
  set_outputs body_graph (fg_outputs body_graph ++ internal_captures body_graph).

(** A run of the assembler that has reached the validation: both closures
    traced, the captures reconciled and the intermediates accumulated. *)
Inductive assembled
    (trace_cond trace_body : list (nest Tensor) -> list (nest TensorShape) -> result FuncGraph)
    (outer : FuncGraph) (orig_loop_vars : list (nest LoopVar))
    (shape_invariants : option (list (nest TensorShape))) (a : Assembly) : Prop :=
  | Assembled (cond_graph body_graph cond_graph' : FuncGraph) (intermediates : list Tensor) :
      match shape_invariants with
      | Some si => same_structure (Seq orig_loop_vars) (Seq si) = true
      | None => True
      end ->
      trace_cond (cond_loop_vars outer orig_loop_vars)
        (cond_invariants orig_loop_vars shape_invariants) = Ok cond_graph ->
      trace_body (body_loop_vars outer orig_loop_vars cond_graph)
        (body_invariants orig_loop_vars shape_invariants cond_graph) = Ok body_graph ->
      reconcile_captures cond_graph (external_captures body_graph) = Ok cond_graph' ->
      _get_intermediates (with_passthrough body_graph) = Ok intermediates ->
      a = accumulate
            (mkAssembly (constant outer 0%N).2
               (body_loop_vars outer orig_loop_vars cond_graph
                  ++ (Leaf <$> external_captures body_graph))
               cond_graph' (with_passthrough body_graph))
            intermediates ->
      assembled trace_cond trace_body outer orig_loop_vars shape_invariants a.

(** The three lists [_check_shapes_compat] walks in step: the body outputs
    after the counter, the invariants and the initial loop variables. *)
Definition validated_outputs (orig_loop_vars : list (nest LoopVar)) (a : Assembly)
  : list Tensor :=
  py_slice (fg_outputs (as_body_graph a)) 1 (length (flatten (Seq orig_loop_vars))).

Definition validated_invariants (orig_loop_vars : list (nest LoopVar))
    (shape_invariants : option (list (nest TensorShape))) : list TensorShape :=
  flatten (Seq (effective_invariants orig_loop_vars shape_invariants)).

Definition validated_inputs (orig_loop_vars : list (nest LoopVar)) : list Tensor :=
  flatten (Seq (_tensor_array_to_flow <$> orig_loop_vars)).

(** The accumulation policy in the spec's words: every output of every
    operation of the body except outputs of [Identity] operations, the loop
    counter (the first input), resource tensors, and tensors for which an
    accumulator is found. *)
Definition excluded (g : FuncGraph) (o : Tensor) : Prop :=
  fg_inputs g !! 0 = Some o \/ t_dtype o = DT_RESOURCE
  \/ exists acc, _get_accumulator g o = Ok (Some acc).

Definition candidate_outputs (g : FuncGraph) : list Tensor :=
  op ← filter (fun op => op_type op <> "Identity") (fg_operations g); op_outputs op.

Definition is_candidate (g : FuncGraph) (o : Tensor) : Prop :=
  fg_inputs g !! 0 <> Some o /\ t_dtype o <> DT_RESOURCE /\ _get_accumulator g o = Ok None.

#[global] Instance is_candidate_dec g o : Decision (is_candidate g o).
Proof. unfold is_candidate. apply _. Defined.

Definition candidates (g : FuncGraph) : list Tensor :=
  filter (is_candidate g) (candidate_outputs g).

(** In the assembly [a], the intermediate [it] is served by the accumulator
    [tensor_list]: an empty tensor list created in the outer graph, captured
    by the body as a placeholder, to which the body appends [it], giving the
    body output [appended]. *)
Definition accumulator_for (a : Assembly) (it tensor_list appended : Tensor) : Prop :=
  (exists name,
     mkOp name "EmptyTensorList" [] [tensor_list] None ∈ fg_operations (as_outer a)) /\
  exists ph name,
    (tensor_list, ph) ∈ fg_captures (as_body_graph a) /\
    ph ∈ fg_inputs (as_body_graph a) /\
    mkOp name "TensorListPushBack" [ph; it] [appended] None
      ∈ fg_operations (as_body_graph a).

(** Names handed out by the default graph are unused: no tensor of the
    default graph that the cond or the body graph has captured carries a name
    the default graph has yet to hand out; and the three graphs are distinct. *)
Definition fresh_for (outer g : FuncGraph) : Prop :=
  fg_name outer <> fg_name g /\
  forall k, k ∈ external_captures g -> t_graph k = fg_name outer ->
            t_op_name k < fg_next_name outer.

Definition wf_assembly (a : Assembly) : Prop :=
  fresh_for (as_outer a) (as_cond_graph a) /\ fresh_for (as_outer a) (as_body_graph a).

(** [n] variant scalars of graph [g], produced by the operations named
    [from], [from + step], ... *)
Fixpoint fresh_tensors (g : gid) (from step n : nat) : list Tensor :=
  match n with
  | 0 => []
  | S n => mkTensor g from 0 DT_VARIANT scalar :: fresh_tensors g (step + from) step n
  end.

(** The outputs of the operations of a graph are tensors of that graph. *)
Definition wf_outputs (g : FuncGraph) : Prop :=
  Forall (fun op => Forall (fun o => t_graph o = fg_name g) (op_outputs op))
    (fg_operations g).

(** Every tensor a graph mentions: its inputs, its outputs, and the inputs
    and outputs of its operations. *)
Definition tensors_of (g : FuncGraph) : list Tensor :=
  fg_inputs g ++ fg_outputs g ++ (op ← fg_operations g; op_inputs op ++ op_outputs op).

(** The names a graph has yet to hand out are unused by its own tensors. *)
Definition wf_names (g : FuncGraph) : Prop :=
  Forall (fun t => t_graph t = fg_name g -> t_op_name t < fg_next_name g) (tensors_of g).

(** The accumulator pattern of [_get_accumulator] in the spec's words.
    [func_graph_output g t out]: [out] is [t], or the output of the Identity
    that is the first consumer of [t], whichever is an output of the graph. *)
Definition func_graph_output (g : FuncGraph) (t out : Tensor) : Prop :=
  (t ∈ fg_outputs g /\ out = t) \/
  ((t ∉ fg_outputs g) /\
   exists identity_op,
     consumers g t !! 0 = Some identity_op /\ op_type identity_op = "Identity" /\
     op_outputs identity_op !! 0 = Some out /\ out ∈ fg_outputs g).

(** [t] is at index [i] of [l], and nowhere before. *)
Definition first_index (l : list Tensor) (t : Tensor) (i : nat) : Prop :=
  l !! i = Some t /\ forall j, j < i -> l !! j <> Some t.

(** [consumer] is an append-to-accumulator consumer of [tensor] whose list
    argument is an input of the graph and whose result [out] is an output of
    the graph at the same index. *)
Definition accumulates (g : FuncGraph) (tensor : Tensor) (consumer : Operation)
    (out : Tensor) : Prop :=
  consumer ∈ consumers g tensor /\ op_type consumer = "TensorListPushBack" /\
  exists input_tl output_tl i,
    op_inputs consumer !! 0 = Some input_tl /\
    op_outputs consumer !! 0 = Some output_tl /\
    func_graph_output g output_tl out /\
    first_index (fg_inputs g) input_tl i /\ first_index (fg_outputs g) out i.

(** A resource tensor of the forward body is a loop invariant standing for
    [outer_t]: the tensor, or the input of the nested While operation that
    passes it through, is an input of the body at some index, the body
    returns that very input at the same index, and [outer_t] is the input of
    the forward While operation at that index. *)
Definition loop_invariant_resource (self : WhileBodyGradFuncGraph)
    (tensor outer_t : Tensor) : Prop :=
  let fwd := _forward_graph self in
  exists index x,
    (first_index (fg_inputs fwd) tensor index \/
     ((tensor ∉ fg_inputs fwd) /\
      exists op inp,
        tensor_op fwd tensor = Ok op /\ op_type op = "While" /\
        op_inputs op !! t_value_index tensor = Some inp /\
        first_index (fg_inputs fwd) inp index)) /\
    fg_inputs fwd !! index = Some x /\ fg_outputs fwd !! index = Some x /\
    op_inputs (_forward_while self) !! index = Some outer_t.

(** A forward tensor has been resolved: its captured value is cached and the
    outer tensor it is read from is among the captures. *)
Definition cached (self : WhileBodyGradFuncGraph) (tensor captured : Tensor) : Prop :=
  _indirect_captures self !! tensor = Some captured /\
  exists outer_t,
    _inner_to_outer_tensor self !! tensor = Some outer_t /\
    outer_t ∈ external_captures (gg_graph self).

(** The states a backward graph under construction goes through: each step
    is a successful [_capture_helper] call, for any tensor. *)
Inductive resolves_to : WhileBodyGradFuncGraph -> WhileBodyGradFuncGraph -> Prop :=
  | resolves_refl self : resolves_to self self
  | resolves_step depth self tensor captured self' self'' :
      _capture_helper depth self tensor = Some (Ok (captured, self')) ->
      resolves_to self' self'' ->
      resolves_to self self''.

(** The operations of a graph are listed in creation order: the first input
    of an operation is produced by an earlier operation (a graph has no
    cycles). *)
Definition topologically_ordered (g : FuncGraph) : Prop :=
  forall j op t j' op',
    fg_operations g !! j = Some op -> op_inputs op !! 0 = Some t ->
    list_find (fun op => op_name op = t_op_name t) (fg_operations g) = Some (j', op') ->
    j' < j.

(** ** A worked loop

    [while_loop(lambda i: i < 3, lambda i: i + 1, [i])] with [i] an int32
    scalar of the default graph: the graphs the closure builder returns for
    [wrapped_cond] and [wrapped_body]. *)
Definition ex_i : Tensor := mkTensor 0 0 0 DT_INT32 scalar.

Definition ex_outer : FuncGraph :=
  mkFuncGraph 0 0 [mkOp 0 "Const" [] [ex_i] None] [] [] [] 1.

Definition ex_cond_graph : FuncGraph :=
  let c_ph := mkTensor 1 0 0 DT_FLOAT scalar in
  let i_ph := mkTensor 1 1 0 DT_INT32 scalar in
  let three := mkTensor 1 2 0 DT_INT32 scalar in
  let lt := mkTensor 1 3 0 DT_BOOL scalar in
  mkFuncGraph 1 0
    [mkOp 0 "Placeholder" [] [c_ph] None; mkOp 1 "Placeholder" [] [i_ph] None;
     mkOp 2 "Const" [] [three] None; mkOp 3 "Less" [i_ph; three] [lt] None]
    [c_ph; i_ph] [lt] [] 4.

Definition ex_body_graph : FuncGraph :=
  let c_ph := mkTensor 2 0 0 DT_FLOAT scalar in
  let i_ph := mkTensor 2 1 0 DT_INT32 scalar in
  let one := mkTensor 2 2 0 DT_INT32 scalar in
  let i1 := mkTensor 2 3 0 DT_INT32 scalar in
  let onef := mkTensor 2 4 0 DT_FLOAT scalar in
  let c1 := mkTensor 2 5 0 DT_FLOAT scalar in
  mkFuncGraph 2 0
    [mkOp 0 "Placeholder" [] [c_ph] None; mkOp 1 "Placeholder" [] [i_ph] None;
     mkOp 2 "Const" [] [one] None; mkOp 3 "Add" [i_ph; one] [i1] None;
     mkOp 4 "Const" [] [onef] (Some 1%N); mkOp 5 "Add" [c_ph; onef] [c1] None]
    [c_ph; i_ph] [c1; i1] [] 6.

Definition ex_trace (g : FuncGraph)
  : list (nest Tensor) -> list (nest TensorShape) -> result FuncGraph :=
  fun _ _ => Ok g.

(** The worked loop just before its intermediates are accumulated. *)
Definition ex_before_accumulation : Assembly :=
  mkAssembly (constant ex_outer 0%N).2
    (body_loop_vars ex_outer [Leaf (LV_Tensor ex_i)] ex_cond_graph
       ++ (Leaf <$> external_captures ex_body_graph))
    ex_cond_graph (with_passthrough ex_body_graph).

(** The same loop with an external constant [c] of the default graph read by
    both closures ([i < c], [i + c]): each graph has a placeholder for it. *)
Definition ex_c : Tensor := mkTensor 0 7 0 DT_INT32 scalar.

Definition ex_cond_graph_c : FuncGraph :=
  let c_ph := mkTensor 1 0 0 DT_FLOAT scalar in
  let i_ph := mkTensor 1 1 0 DT_INT32 scalar in
  let cap := mkTensor 1 2 0 DT_INT32 scalar in
  let lt := mkTensor 1 3 0 DT_BOOL scalar in
  mkFuncGraph 1 0
    [mkOp 0 "Placeholder" [] [c_ph] None; mkOp 1 "Placeholder" [] [i_ph] None;
     mkOp 2 "Placeholder" [] [cap] None; mkOp 3 "Less" [i_ph; cap] [lt] None]
    [c_ph; i_ph; cap] [lt] [(ex_c, cap)] 4.

Definition ex_body_graph_c : FuncGraph :=
  let c_ph := mkTensor 2 0 0 DT_FLOAT scalar in
  let i_ph := mkTensor 2 1 0 DT_INT32 scalar in
  let cond_cap := mkTensor 2 2 0 DT_INT32 scalar in
  let cap := mkTensor 2 3 0 DT_INT32 scalar in
  let i1 := mkTensor 2 4 0 DT_INT32 scalar in
  let onef := mkTensor 2 5 0 DT_FLOAT scalar in
  let c1 := mkTensor 2 6 0 DT_FLOAT scalar in
  mkFuncGraph 2 0
    [mkOp 0 "Placeholder" [] [c_ph] None; mkOp 1 "Placeholder" [] [i_ph] None;
     mkOp 2 "Placeholder" [] [cond_cap] None; mkOp 3 "Placeholder" [] [cap] None;
     mkOp 4 "Add" [i_ph; cap] [i1] None;
     mkOp 5 "Const" [] [onef] (Some 1%N); mkOp 6 "Add" [c_ph; onef] [c1] None]
    [c_ph; i_ph; cond_cap; cap] [c1; i1; cond_cap] [(ex_c, cap)] 7.

(** The assembly of the worked loop at the point of validation. *)
Definition ex_assembly : Assembly :=
  Eval vm_compute in
    accumulate
      (mkAssembly (constant ex_outer 0%N).2
         (body_loop_vars ex_outer [Leaf (LV_Tensor ex_i)] ex_cond_graph
            ++ (Leaf <$> external_captures ex_body_graph))
         ex_cond_graph (with_passthrough ex_body_graph))
      [mkTensor 2 1 0 DT_INT32 scalar; mkTensor 2 2 0 DT_INT32 scalar;
       mkTensor 2 3 0 DT_INT32 scalar; mkTensor 2 4 0 DT_FLOAT scalar;
       mkTensor 2 5 0 DT_FLOAT scalar].

(** A loop whose body grows its variable: [x] enters with shape [(1)] and
    leaves the body with shape [(2)]. *)
Definition ex_x : Tensor := mkTensor 0 0 0 DT_FLOAT (Some [Some 1%N]).

Definition ex_outer_x : FuncGraph :=
  mkFuncGraph 0 0 [mkOp 0 "Const" [] [ex_x] None] [] [] [] 1.

Definition ex_cond_graph_x : FuncGraph :=
  let c_ph := mkTensor 1 0 0 DT_FLOAT scalar in
  let x_ph := mkTensor 1 1 0 DT_FLOAT (Some [Some 1%N]) in
  let t := mkTensor 1 2 0 DT_BOOL scalar in
  mkFuncGraph 1 0
    [mkOp 0 "Placeholder" [] [c_ph] None; mkOp 1 "Placeholder" [] [x_ph] None;
     mkOp 2 "Const" [] [t] None]
    [c_ph; x_ph] [t] [] 3.

Definition ex_body_graph_x : FuncGraph :=
  let c_ph := mkTensor 2 0 0 DT_FLOAT scalar in
  let x_ph := mkTensor 2 1 0 DT_FLOAT (Some [Some 1%N]) in
  let xx := mkTensor 2 2 0 DT_FLOAT (Some [Some 2%N]) in
  let onef := mkTensor 2 3 0 DT_FLOAT scalar in
  let c1 := mkTensor 2 4 0 DT_FLOAT scalar in
  mkFuncGraph 2 0
    [mkOp 0 "Placeholder" [] [c_ph] None; mkOp 1 "Placeholder" [] [x_ph] None;
     mkOp 2 "ConcatV2" [x_ph; x_ph] [xx] None;
     mkOp 3 "Const" [] [onef] (Some 1%N); mkOp 4 "Add" [c_ph; onef] [c1] None]
    [c_ph; x_ph] [c1; xx] [] 5.

(** A loop over two variables, [i] and a nested TensorArray: the body writes
    to the array (capturing its resource handle from the default graph) and
    increments [i]. *)
Definition ex2_handle : Tensor := mkTensor 0 1 0 DT_RESOURCE (Some [Some 2%N]).
Definition ex2_flow : Tensor := mkTensor 0 1 1 DT_FLOAT scalar.

Definition ex2_ta : TensorArray :=
  mkTensorArray DT_FLOAT ex2_handle ex2_flow true false [] None.

Definition ex2_outer : FuncGraph :=
  mkFuncGraph 0 0
    [mkOp 0 "Const" [] [ex_i] None;
     mkOp 1 "TensorArrayV3" [] [ex2_handle; ex2_flow] None] [] [] [] 2.

Definition ex2_loop_vars : list (nest LoopVar) :=
  [Leaf (LV_Tensor ex_i); Seq [Leaf (LV_TensorArray ex2_ta)]].

Definition ex2_cond_graph : FuncGraph :=
  let c_ph := mkTensor 1 0 0 DT_FLOAT scalar in
  let i_ph := mkTensor 1 1 0 DT_INT32 scalar in
  let f_ph := mkTensor 1 2 0 DT_FLOAT scalar in
  let three := mkTensor 1 3 0 DT_INT32 scalar in
  let lt := mkTensor 1 4 0 DT_BOOL scalar in
  mkFuncGraph 1 0
    [mkOp 0 "Placeholder" [] [c_ph] None; mkOp 1 "Placeholder" [] [i_ph] None;
     mkOp 2 "Placeholder" [] [f_ph] None;
     mkOp 3 "Const" [] [three] None; mkOp 4 "Less" [i_ph; three] [lt] None]
    [c_ph; i_ph; f_ph] [lt] [] 5.

Definition ex2_body_graph : FuncGraph :=
  let c_ph := mkTensor 2 0 0 DT_FLOAT scalar in
  let i_ph := mkTensor 2 1 0 DT_INT32 scalar in
  let f_ph := mkTensor 2 2 0 DT_FLOAT scalar in
  let h_ph := mkTensor 2 3 0 DT_RESOURCE (Some [Some 2%N]) in
  let v := mkTensor 2 4 0 DT_FLOAT scalar in
  let f1 := mkTensor 2 5 0 DT_FLOAT scalar in
  let one := mkTensor 2 6 0 DT_INT32 scalar in
  let i1 := mkTensor 2 7 0 DT_INT32 scalar in
  let onef := mkTensor 2 8 0 DT_FLOAT scalar in
  let c1 := mkTensor 2 9 0 DT_FLOAT scalar in
  mkFuncGraph 2 0
    [mkOp 0 "Placeholder" [] [c_ph] None; mkOp 1 "Placeholder" [] [i_ph] None;
     mkOp 2 "Placeholder" [] [f_ph] None; mkOp 3 "Placeholder" [] [h_ph] None;
     mkOp 4 "Const" [] [v] None;
     mkOp 5 "TensorArrayWriteV3" [h_ph; i_ph; v; f_ph] [f1] None;
     mkOp 6 "Const" [] [one] None; mkOp 7 "Add" [i_ph; one] [i1] None;
     mkOp 8 "Const" [] [onef] (Some 1%N); mkOp 9 "Add" [c_ph; onef] [c1] None]
    [c_ph; i_ph; f_ph; h_ph] [c1; i1; f1] [(ex2_handle, h_ph)] 10.

Definition ex2_returned : nest LoopVar * FuncGraph :=
  Eval vm_compute in
    match while_loop (ex_trace ex2_cond_graph) (ex_trace ex2_body_graph) ex2_outer
            ex2_loop_vars None with
    | Ok p => p
    | Raise _ => (Seq [], ex2_outer)
    end.

(** The gradient of the two-variable loop.  The closure builder is played by
    [ex_trace_grad_fn], a differentiator that passes the incoming gradients
    through and reads one intermediate and the TensorArray handle of the
    forward body, and by [ex_trace_grad_cond], which applies [grad_cond] to
    fresh placeholders. *)
Definition ex2_assembly : Assembly :=
  Eval vm_compute in
    match while_loop_assemble (ex_trace ex2_cond_graph) (ex_trace ex2_body_graph) ex2_outer
            ex2_loop_vars None with
    | Ok a => a
    | Raise _ => mkAssembly ex2_outer [] ex2_cond_graph ex2_body_graph
    end.

Definition ex2_while_op : Operation :=
  Eval vm_compute in
    default (mkOp 0 "" [] [] None)
      (snd <$> list_find (fun op => op_type op = "While") (fg_operations ex2_returned.2)).

Fixpoint placeholders (g : FuncGraph) (args : list Tensor) : list Tensor * FuncGraph :=
  match args with
  | [] => ([], g)
  | t :: args =>
      let '(ph, g) := add_op1 g "Placeholder" [] (t_dtype t) (t_shape t) in
      let g := mkFuncGraph (fg_name g) (fg_outer_graph g) (fg_operations g)
                 (fg_inputs g ++ [ph]) (fg_outputs g) (fg_captures g) (fg_next_name g) in
      let '(phs, g) := placeholders g args in
      (ph :: phs, g)
  end.

Definition ex_trace_grad_fn (ys xs args : list Tensor) (func_graph : FuncGraph)
    (while_op : Operation) : option (result WhileBodyGradFuncGraph) :=
  let '(phs, g) := placeholders (mkFuncGraph 3 0 [] [] [] [] 0) args in
  match phs with
  | counter :: total_iters :: grad_ys =>
      let '(one, g) := constant g 1%N in
      let '(counter1, g) := add_op1 g "Add" [counter; one] DT_FLOAT scalar in
      let self := new_grad_func_graph g func_graph while_op in
      match _capture_helper 8 self (mkTensor 2 4 0 DT_FLOAT scalar) with
      | Some (Ok (v, self)) =>
          match _capture_helper 8 self (mkTensor 2 3 0 DT_RESOURCE (Some [Some 2%N])) with
          | Some (Ok (h, self)) =>
              Some (Ok (gg_with_graph self
                          (set_outputs (gg_graph self) ([counter1; total_iters] ++ grad_ys))))
          | Some (Raise e) => Some (Raise e)
          | None => None
          end
      | Some (Raise e) => Some (Raise e)
      | None => None
      end
  | _ => Some (Raise (ValueError "_grad_fn needs the counter and the number of iterations" []))
  end.

Definition ex_trace_grad_cond (loop_vars : list Tensor) : result FuncGraph :=
  let '(phs, g) := placeholders (mkFuncGraph 4 0 [] [] [] [] 0) loop_vars in
  match phs with
  | counter :: max_iters :: _ =>
      let '(lt, g) := add_op1 g "Less" [counter; max_iters] DT_BOOL scalar in
      Ok (set_outputs g [lt])
  | _ => Raise (ValueError "grad_cond needs the counter and the number of iterations" [])
  end.

Definition ex_graph_of (g : gid) : FuncGraph :=
  match g with
  | 0 => ex2_returned.2
  | _ => as_body_graph ex2_assembly
  end.

Definition ex_IsTrainable (t : Tensor) : bool := bool_decide (t_dtype t = DT_FLOAT).

Definition ex_grad (n : nat) (d : DType) : Tensor := mkTensor 0 (100 + n) 0 d scalar.

Definition ex_grads : list (option Tensor) :=
  [Some (ex_grad 0 DT_FLOAT); None; Some (ex_grad 2 DT_FLOAT); Some (ex_grad 3 DT_FLOAT)]
    ++ replicate 8 None.

Definition ex_WhileGrad :=
  _WhileGrad ex_graph_of id ex_IsTrainable (fun _ => as_body_graph ex2_assembly)
    ex_trace_grad_fn ex_trace_grad_cond 8.

Definition ex_grad_returned : list (option Tensor) * FuncGraph :=
  Eval vm_compute in
    match ex_WhileGrad ex2_returned.2 ex2_while_op ex_grads with
    | Some (Ok p) => p
    | _ => ([], ex2_outer)
    end.

(** A backward graph under construction for the two-variable loop, and two
    tensors of its forward body: the constant [v] written to the array (an
    accumulated intermediate) and the placeholder [h] of the array's
    handle (a loop-invariant resource). *)
Definition ex_self : WhileBodyGradFuncGraph :=
  new_grad_func_graph (mkFuncGraph 3 0 [] [] [] [] 0) (as_body_graph ex2_assembly)
    ex2_while_op.

Definition ex_v : Tensor := mkTensor 2 4 0 DT_FLOAT scalar.
Definition ex_h : Tensor := mkTensor 2 3 0 DT_RESOURCE (Some [Some 2%N]).

Definition ex_first_capture : Tensor * WhileBodyGradFuncGraph :=
  match _capture_helper 1 ex_self ex_v with
  | Some (Ok p) => p
  | _ => (ex_v, ex_self)
  end.

(** A body that creates a resource: a variable handle that is not an input. *)
Definition ex_creating_body : FuncGraph :=
  let c_ph := mkTensor 2 0 0 DT_FLOAT scalar in
  let r := mkTensor 2 1 0 DT_RESOURCE scalar in
  mkFuncGraph 2 0
    [mkOp 0 "Placeholder" [] [c_ph] None; mkOp 1 "VarHandleOp" [] [r] None]
    [c_ph] [c_ph] [] 2.

(** ** Element shapes and signatures *)

(** [TensorShape.is_fully_defined]: the rank and every dimension are known. *)
Definition is_fully_defined (shape : TensorShape) : bool :=
  match shape with
  | Some dims => forallb (fun d : Dimension => bool_decide (d <> None)) dims
  | None => false
  end.

(** What [_get_tensor_convertible_shape] hands to [empty_tensor_list]: the
    shape itself, the integer -1, or a tensor of integers (written as the
    list it holds). *)
Inductive ConvertibleShape : Type :=
  | CS_Shape (shape : TensorShape)
  | CS_Int (z : Z)
  | CS_Tensor (shape_list : list Z).

(** [_get_tensor_convertible_shape].  [not shape] holds of a shape of unknown
    rank. *)
Definition _get_tensor_convertible_shape (shape : TensorShape) : ConvertibleShape :=
  if is_fully_defined shape then CS_Shape shape
  else
    match shape with
    | None => CS_Int (-1)
    | Some shape_list =>
        CS_Tensor ((fun s : Dimension =>
                      match s with
                      | Some n => Z.of_N n
                      | None => (-1)%Z
                      end) <$> shape_list)
    end.

(** [tensor_spec.TensorSpec(shape, dtype, name)] *)
Record TensorSpec : Type := mkTensorSpec {
  ts_shape : TensorShape;
  ts_dtype : DType;
  ts_name : nat;
}.

(** [_build_signature] *)
Definition _build_signature (loop_vars : nest Tensor) (shape_invariants : nest TensorShape)
  : result (nest TensorSpec) :=
  pack_sequence_as loop_vars
    ((fun z : TensorShape * Tensor => mkTensorSpec z.1 (t_dtype z.2) (t_op_name z.2))
       <$> zip (flatten shape_invariants) (flatten loop_vars)).

(** The backward body of the two-variable loop as [_create_grad_func]
    returns it when no gradient is propagated, with its arguments and the
    default graph. *)
Definition ex_grad_func : WhileBodyGradFuncGraph * list Tensor * FuncGraph :=
  Eval vm_compute in
    match _create_grad_func ex_trace_grad_fn ex2_returned.2 [] [] []
            (as_body_graph ex2_assembly) ex2_while_op with
    | Some (Ok p) => p
    | _ => (ex_self, [], ex2_outer)
    end.

(** [g'] is [g] with the operations [ops] added after its own, under the
    next names, and nothing else changed. *)
Definition appends (g g' : FuncGraph) (ops : list Operation) : Prop :=
  fg_operations g' = fg_operations g ++ ops /\
  fg_name g' = fg_name g /\ fg_outer_graph g' = fg_outer_graph g /\
  fg_inputs g' = fg_inputs g /\ fg_outputs g' = fg_outputs g /\
  fg_captures g' = fg_captures g /\
  fg_next_name g' = fg_next_name g + length ops.

(** The two facts the docstring of [_WhileBodyGradFuncGraph] states about a
    backward graph under construction: [captures] holds no tensor of the
    forward graph (a forward tensor is captured indirectly), and
    [popped_tensor_lists] maps the placeholder of a captured accumulator to
    the list a TensorListPopBack on that placeholder leaves. *)
Definition captures_outside_forward_graph (self : WhileBodyGradFuncGraph) : Prop :=
  Forall (fun k => t_graph k <> fg_name (_forward_graph self))
    (external_captures (gg_graph self)).

Definition popped_lists_are_pops (self : WhileBodyGradFuncGraph) : Prop :=
  forall ph tl,
    popped_tensor_lists self !! ph = Some tl ->
    ph ∈ internal_captures (gg_graph self) /\
    exists name captured,
      mkOp name "TensorListPopBack" [ph] [tl; captured] None
        ∈ fg_operations (gg_graph self).

(** The two-variable loop just before its intermediates are accumulated:
    the cond graph has captured the TensorArray handle the body captures. *)
Definition ex2_reconciled_cond : FuncGraph :=
  Eval vm_compute in
    match reconcile_captures ex2_cond_graph (external_captures ex2_body_graph) with
    | Ok g => g
    | Raise _ => ex2_cond_graph
    end.

Definition ex2_before_accumulation : Assembly :=
  mkAssembly (constant ex2_outer 0%N).2
    (body_loop_vars ex2_outer ex2_loop_vars ex2_cond_graph
       ++ (Leaf <$> external_captures ex2_body_graph))
    ex2_reconciled_cond (with_passthrough ex2_body_graph).

(** A forward body that returns its input through an Identity: [v] is a
    constant, [w] its Identity. *)
Definition ex_identity_body : FuncGraph :=
  let c_ph := mkTensor 2 0 0 DT_FLOAT scalar in
  let v := mkTensor 2 1 0 DT_FLOAT scalar in
  let w := mkTensor 2 2 0 DT_FLOAT scalar in
  mkFuncGraph 2 0
    [mkOp 0 "Placeholder" [] [c_ph] None; mkOp 1 "Const" [] [v] None;
     mkOp 2 "Identity" [v] [w] None]
    [c_ph] [w] [] 3.

(** A body that appends a value to a list it receives and drops the
    result: the TensorListPushBack is neither returned nor consumed. *)
Definition ex_dangling_body : FuncGraph :=
  let c_ph := mkTensor 2 0 0 DT_FLOAT scalar in
  let l_ph := mkTensor 2 1 0 DT_VARIANT scalar in
  let v := mkTensor 2 2 0 DT_FLOAT scalar in
  let pushed := mkTensor 2 3 0 DT_VARIANT scalar in
  mkFuncGraph 2 0
    [mkOp 0 "Placeholder" [] [c_ph] None; mkOp 1 "Placeholder" [] [l_ph] None;
     mkOp 2 "Const" [] [v] None; mkOp 3 "TensorListPushBack" [l_ph; v] [pushed] None]
    [c_ph; l_ph] [c_ph; l_ph] [] 4.






(** The steps of [_WhileGrad], named for the statements.  Lines 258-261:
    the incoming gradients once the gradient of every TensorArray handle is
    set to [None]. *)
Definition overridden_grads (graph_of : gid -> FuncGraph) (maybe_captured : Tensor -> Tensor)
    (grads : list (option Tensor)) (outputs : list Tensor) : result (list (option Tensor)) :=
  mapM_result
    (fun z : option Tensor * Tensor =>
       b ← _is_tensor_array_handle graph_of maybe_captured z.2;
       Ok (if b : bool then None else z.1))
    (zip grads outputs).

(** Lines 271-272: the triples [(y, x, grad)] of a body output, the body
    input at the same index and the gradient there, where there is one. *)
Definition grad_triples (body_graph : FuncGraph) (grads : list (option Tensor))
  : list (Tensor * Tensor * Tensor) :=
  omap (fun z : Tensor * Tensor * option Tensor =>
          match z.2 with
          | Some grad => Some (z.1.1, z.1.2, grad)
          | None => None
          end)
    (zip3 (fg_outputs body_graph) (fg_inputs body_graph) grads).

(* ===================================================================== *)
(** * Properties *)

(** ** The exception monad *)

Lemma bind_Ok {A B} (m : result A) (f : A -> result B) (b : B) :
  m ≫= f = Ok b <-> exists a, m = Ok a /\ f a = Ok b.
Proof.
  destruct m as [a|e]; simpl; split.
  - intros H. exists a. split; [reflexivity | exact H].
  - intros (a' & Ha & H). inversion Ha; subst. exact H.
  - discriminate.
  - intros (a' & Ha & _). discriminate.
Qed.

Lemma bind_Raise {A B} (m : result A) (f : A -> result B) (e : exn) :
  m ≫= f = Raise e <-> m = Raise e \/ exists a, m = Ok a /\ f a = Raise e.
Proof.
  destruct m as [a|e']; simpl; split.
  - intros H. right. exists a. split; [reflexivity | exact H].
  - intros [H | (a' & Ha & H)]; [discriminate | inversion Ha; subst; exact H].
  - intros H. left. congruence.
  - intros [H | (a' & Ha & _)]; [congruence | discriminate].
Qed.

Lemma py_assert_Ok c msg args u : py_assert c msg args = Ok u <-> c = true.
Proof. destruct c, u; simpl; split; intros; congruence. Qed.

Lemma py_getitem_Ok {A} (l : list A) i a : py_getitem l i = Ok a <-> l !! i = Some a.
Proof. unfold py_getitem. destruct (l !! i); split; intros; congruence. Qed.

Ltac inv_bind H :=
  lazymatch type of H with
  | _ ≫= _ = Ok _ =>
      let a := fresh "a" in
      let Ha := fresh "Ha" in
      apply bind_Ok in H; destruct H as (a & Ha & H)
  end.

(** ** Shape validation *)

Lemma dims_less_than_or_equal_spec dims1 dims2 :
  dims_less_than_or_equal dims1 dims2 = true <->
  length dims1 = length dims2 /\
  forall i n, dims2 !! i = Some (Some n) -> dims1 !! i = Some (Some n).
Proof.
  revert dims2. induction dims1 as [|d1 dims1 IH]; intros [|d2 dims2]; simpl.
  - split; [intros _; split; [reflexivity | intros i n H; destruct i; discriminate] | reflexivity].
  - split; [discriminate | intros [H _]; discriminate].
  - split; [discriminate | intros [H _]; discriminate].
  - destruct d2 as [n2|].
    + rewrite andb_true_iff, bool_decide_eq_true, IH. split.
      * intros (-> & Hlen & Hdims). split; [congruence|].
        intros [|i] n H; simpl in *; [exact H | eauto].
      * intros (Hlen & Hdims). split; [|split].
        -- specialize (Hdims 0 n2 eq_refl). simpl in Hdims. congruence.
        -- congruence.
        -- intros i n H. exact (Hdims (S i) n H).
    + rewrite IH. split.
      * intros (Hlen & Hdims). split; [congruence|].
        intros [|i] n H; simpl in *; [discriminate | eauto].
      * intros (Hlen & Hdims). split; [congruence|].
        intros i n H. exact (Hdims (S i) n H).
Qed.

Lemma check_shapes_compat_loop_Ok zipped :
  check_shapes_compat_loop zipped = Ok tt <->
  Forall (fun z : Tensor * TensorShape * Tensor =>
            _ShapeLessThanOrEqual (t_shape z.1.1) z.1.2 = true) zipped.
Proof.
  induction zipped as [|[[t shape] input_t] zipped IH]; simpl.
  - split; [constructor | reflexivity].
  - destruct (_ShapeLessThanOrEqual (t_shape t) shape) eqn:E; simpl.
    + rewrite IH. split; [intros H; constructor; [exact E | exact H] | intros H; inversion H; assumption].
    + split; [discriminate | intros H; inversion H; simpl in *; congruence].
Qed.

Lemma check_shapes_compat_loop_Raise zipped e :
  check_shapes_compat_loop zipped = Raise e ->
  exists i t shape input_t,
    zipped !! i = Some (t, shape, input_t) /\
    _ShapeLessThanOrEqual (t_shape t) shape = false /\
    (forall j z, j < i -> zipped !! j = Some z ->
                 _ShapeLessThanOrEqual (t_shape z.1.1) z.1.2 = true) /\
    e = ValueError shape_error_msg
          [str_tensor input_t; str_shape shape; str_shape (t_shape t)].
Proof.
  induction zipped as [|[[t shape] input_t] zipped IH]; simpl; [discriminate|].
  destruct (_ShapeLessThanOrEqual (t_shape t) shape) eqn:E; simpl.
  - intros H. destruct (IH H) as (i & t' & shape' & input' & Hi & Hbad & Hbefore & He).
    exists (S i), t', shape', input'. repeat split; try assumption.
    intros [|j] z Hj Hz; simpl in Hz.
    + inversion Hz; subst. exact E.
    + apply (Hbefore j z); [lia | exact Hz].
  - intros H. inversion H; subst. exists 0, t, shape, input_t.
    repeat split; try assumption; try reflexivity.
    intros j z Hj. lia.
Qed.

(** ** The stages of the forward assembler *)

Lemma external_captures_set_outputs g outs :
  external_captures (set_outputs g outs) = external_captures g.
Proof. reflexivity. Qed.

Lemma internal_captures_set_outputs g outs :
  internal_captures (set_outputs g outs) = internal_captures g.
Proof. reflexivity. Qed.

(** ** Capture reconciliation *)

Lemma captures_get_None c t : captures_get c t = None <-> t ∉ c.*1.
Proof.
  induction c as [|[k v] c IH]; simpl.
  - split; [intros _; apply not_elem_of_nil | reflexivity].
  - destruct (decide (k = t)) as [->|Hne].
    + split; [discriminate | intros H; exfalso; apply H; left].
    + rewrite IH. rewrite not_elem_of_cons. intuition congruence.
Qed.

Lemma py_in_true t l : py_in t l = true <-> t ∈ l.
Proof. unfold py_in. apply bool_decide_eq_true. Qed.

Lemma py_in_false t l : py_in t l = false <-> t ∉ l.
Proof. unfold py_in. apply bool_decide_eq_false. Qed.

Lemma capture_external_captures g t :
  external_captures (capture g t).2 = external_captures g
  \/ external_captures (capture g t).2 = external_captures g ++ [t].
Proof.
  unfold capture. destruct (decide (t_graph t = fg_name g)); [left; reflexivity|].
  unfold base_capture_helper. destruct (captures_get (fg_captures g) t); [left; reflexivity|].
  right. unfold external_captures. simpl. rewrite fmap_app. reflexivity.
Qed.

Lemma reconcile_captures_shared body_external :
  forall cond_graph t,
    NoDup body_external ->
    t ∈ body_external -> t ∈ external_captures cond_graph ->
    exists t',
      t' ∈ body_external /\ t' ∈ external_captures cond_graph /\
      reconcile_captures cond_graph body_external
      = Raise (AssertionError shared_capture_msg [str_tensor t']).
Proof.
  induction body_external as [|e rest IH]; intros cond_graph t Hnd Ht Hc.
  - apply elem_of_nil in Ht. contradiction.
  - simpl. destruct (py_in e (external_captures cond_graph)) eqn:E; simpl.
    + exists e. split; [left | split; [apply py_in_true; exact E | reflexivity]].
    + apply py_in_false in E. inversion Hnd as [|? ? Hnotin Hnd']; subst.
      assert (Htrest : t ∈ rest).
      { apply elem_of_cons in Ht as [->|Ht]; [contradiction | exact Ht]. }
      assert (Hc' : t ∈ external_captures (capture cond_graph e).2).
      { destruct (capture_external_captures cond_graph e) as [-> | ->];
          [exact Hc | apply elem_of_app; left; exact Hc]. }
      destruct (IH _ t Hnd' Htrest Hc') as (t' & Ht' & Hin & Hr).
      exists t'. split; [right; exact Ht' | split; [|exact Hr]].
      destruct (capture_external_captures cond_graph e) as [Heq | Heq];
        rewrite Heq in Hin; [exact Hin|].
      apply elem_of_app in Hin as [Hin | Hin]; [exact Hin|].
      apply list_elem_of_singleton in Hin. subst t'. contradiction.
Qed.

(** ** Nested structures *)

Lemma same_structure_Seq_length {A B} (l : list (nest A)) (l' : list (nest B)) :
  same_structure (Seq l) (Seq l') = true -> length l = length l'.
Proof.
  simpl. revert l'. induction l as [|x l IH]; intros [|y l']; simpl; try discriminate.
  - reflexivity.
  - intros H. apply andb_true_iff in H as [_ H]. f_equal. apply IH. exact H.
Qed.

Lemma same_structure_flatten_length {A B} (s : nest A) :
  forall s' : nest B, same_structure s s' = true -> length (flatten s) = length (flatten s').
Proof.
  induction s as [a|l IH] using nest_ind'; intros [b|l']; simpl; try discriminate.
  - reflexivity.
  - revert l'. induction IH as [|x l Hx _ IHl]; intros [|y l']; simpl; try discriminate.
    + reflexivity.
    + intros H. apply andb_true_iff in H as [H1 H2].
      rewrite !length_app. f_equal; [apply Hx; exact H1 | apply IHl; exact H2].
Qed.

Lemma flatten_map_structure {A B} (f : A -> B) (s : nest A) :
  flatten (map_structure f s) = f <$> flatten s.
Proof.
  induction s as [a|l IH] using nest_ind'; simpl; [reflexivity|].
  induction IH as [|x l Hx _ IHl]; simpl; [reflexivity|].
  rewrite fmap_app, Hx. f_equal. exact IHl.
Qed.

Lemma same_structure_map_structure {A B} (f : A -> B) (s : nest A) :
  same_structure s (map_structure f s) = true.
Proof.
  induction s as [a|l IH] using nest_ind'; simpl; [reflexivity|].
  induction IH as [|x l Hx _ IHl]; simpl; [reflexivity|].
  rewrite Hx. exact IHl.
Qed.

(** ** The stages of the forward assembler *)

Lemma capture_outputs g t : fg_outputs (capture g t).2 = fg_outputs g.
Proof.
  unfold capture. destruct (decide _); [reflexivity|].
  unfold base_capture_helper. destruct (captures_get _ _); reflexivity.
Qed.

Lemma capture_name g t : fg_name (capture g t).2 = fg_name g.
Proof.
  unfold capture. destruct (decide _); [reflexivity|].
  unfold base_capture_helper. destruct (captures_get _ _); reflexivity.
Qed.

Lemma capture_all_outputs ts : forall g, fg_outputs (capture_all g ts).2 = fg_outputs g.
Proof.
  induction ts as [|t ts IH]; intros g; simpl; [reflexivity|].
  destruct (capture g t) as [t' g1] eqn:E1.
  destruct (capture_all g1 ts) as [ts' g2] eqn:E2. simpl.
  specialize (IH g1). rewrite E2 in IH. simpl in IH. rewrite IH.
  pose proof (capture_outputs g t) as H. rewrite E1 in H. exact H.
Qed.

Lemma accumulate_one_outputs a t :
  exists appended,
    fg_outputs (as_body_graph (accumulate_one a t))
    = fg_outputs (as_body_graph a) ++ [appended].
Proof.
  unfold accumulate_one, create_op1, add_op1, add_op, add_op_with_value.
  cbv beta iota zeta.
  pose proof (capture_all_outputs
                [mkTensor (fg_name (as_outer a)) (fg_next_name (as_outer a)) 0 DT_VARIANT scalar; t]
                (as_body_graph a)) as H.
  destruct (capture_all (as_body_graph a) _) as [ins g1]. cbn in *.
  eexists. f_equal. exact H.
Qed.

Lemma accumulate_one_loop_vars a t :
  exists tensor_list,
    as_loop_vars (accumulate_one a t) = as_loop_vars a ++ [Leaf tensor_list].
Proof.
  unfold accumulate_one, create_op1, add_op1, add_op, add_op_with_value.
  cbv beta iota zeta.
  destruct (capture_all (as_body_graph a) _) as [ins g1]. cbn.
  eexists. reflexivity.
Qed.

Lemma accumulate_outputs ts :
  forall a, exists appended,
    length appended = length ts /\
    fg_outputs (as_body_graph (accumulate a ts)) = fg_outputs (as_body_graph a) ++ appended.
Proof.
  unfold accumulate. induction ts as [|t ts IH]; intros a; simpl.
  - exists []. rewrite app_nil_r. split; reflexivity.
  - destruct (IH (accumulate_one a t)) as (app & Hlen & Hout).
    destruct (accumulate_one_outputs a t) as (x & Hx).
    exists (x :: app). split; [simpl; congruence|].
    rewrite Hout, Hx, <- app_assoc. reflexivity.
Qed.

Lemma accumulate_loop_vars ts :
  forall a, exists tensor_lists,
    length tensor_lists = length ts /\
    as_loop_vars (accumulate a ts) = as_loop_vars a ++ (Leaf <$> tensor_lists).
Proof.
  unfold accumulate. induction ts as [|t ts IH]; intros a; simpl.
  - exists []. rewrite app_nil_r. split; reflexivity.
  - destruct (IH (accumulate_one a t)) as (tls & Hlen & Hout).
    destruct (accumulate_one_loop_vars a t) as (x & Hx).
    exists (x :: tls). split; [simpl; congruence|].
    rewrite Hout, Hx, <- app_assoc. reflexivity.
Qed.

Lemma effective_invariants_length orig_loop_vars shape_invariants :
  match shape_invariants with
  | Some si => same_structure (Seq orig_loop_vars) (Seq si) = true
  | None => True
  end ->
  length (effective_invariants orig_loop_vars shape_invariants) = length orig_loop_vars.
Proof.
  unfold effective_invariants. destruct shape_invariants as [si|].
  - intros H. symmetry. apply same_structure_Seq_length. exact H.
  - intros _. rewrite !length_fmap. reflexivity.
Qed.

Lemma py_slice_1_cons_app {A} (x : A) (l rest : list A) :
  py_slice (x :: l ++ rest) 1 (length l) = l.
Proof. unfold py_slice. simpl. rewrite drop_0. apply take_app_length. Qed.

(** Once a run has reached the validation, what remains of
    [while_loop_assemble] is the two checks. *)
Lemma while_loop_assemble_assembled
    trace_cond trace_body outer orig_loop_vars shape_invariants a :
  assembled trace_cond trace_body outer orig_loop_vars shape_invariants a ->
  while_loop_assemble trace_cond trace_body outer orig_loop_vars shape_invariants
  = (_ ← _check_shapes_compat (validated_outputs orig_loop_vars a)
           (validated_invariants orig_loop_vars shape_invariants)
           (validated_inputs orig_loop_vars);
     _ ← _check_num_inputs_outputs (as_cond_graph a) (as_body_graph a)
           (length (flatten (Seq (as_loop_vars a))));
     Ok a).
Proof.
  intros [cg bg cg' ints Hs Hc Hb Hr Hi Ha].
  pose proof (effective_invariants_length _ _ Hs) as Hlen.
  unfold while_loop_assemble.
  assert (Hsi : (match shape_invariants with
                 | Some si => _ ← assert_same_structure (Seq orig_loop_vars) (Seq si); Ok si
                 | None => Ok (map_structure t_shape <$> (_tensor_array_to_flow <$> orig_loop_vars))
                 end) = Ok (effective_invariants orig_loop_vars shape_invariants)).
  { unfold effective_invariants. destruct shape_invariants as [si|]; [|reflexivity].
    unfold assert_same_structure. rewrite Hs. reflexivity. }
  clear Hs.
  unfold body_loop_vars, body_invariants, cond_loop_vars, cond_invariants, with_passthrough in *.
  destruct (constant outer 0%N) as [lc o1] eqn:Ec. simpl in Hc, Hb, Ha.
  rewrite Hsi. simpl. rewrite Hc. simpl. rewrite Hb. simpl.
  rewrite external_captures_set_outputs, Hr. simpl. rewrite Hi. simpl. rewrite <- Ha.
  assert (E1 : forall X,
             py_slice (Leaf scalar :: effective_invariants orig_loop_vars shape_invariants ++ X)
               1 (length orig_loop_vars)
             = effective_invariants orig_loop_vars shape_invariants).
  { intros X. rewrite <- Hlen. apply py_slice_1_cons_app. }
  rewrite E1.
  assert (E2 : py_slice (as_loop_vars a) 1 (length orig_loop_vars)
               = _tensor_array_to_flow <$> orig_loop_vars).
  { destruct (accumulate_loop_vars ints
                (mkAssembly o1
                   (Leaf lc :: ((_tensor_array_to_flow <$> orig_loop_vars)
                                  ++ (Leaf <$> external_captures cg))
                      ++ (Leaf <$> external_captures bg))
                   cg' (set_outputs bg (fg_outputs bg ++ internal_captures bg))))
      as (tls & _ & Hlv).
    rewrite <- Ha in Hlv. rewrite Hlv. cbn [as_loop_vars].
    rewrite <- app_comm_cons, <- !app_assoc.
    rewrite <- (length_fmap _tensor_array_to_flow orig_loop_vars).
    apply py_slice_1_cons_app. }
  rewrite E2. reflexivity.
Qed.
Lemma while_loop_assemble_reconcile_Raise
    trace_cond trace_body outer orig_loop_vars shape_invariants cond_graph body_graph e :
  match shape_invariants with
  | Some si => same_structure (Seq orig_loop_vars) (Seq si) = true
  | None => True
  end ->
  trace_cond (cond_loop_vars outer orig_loop_vars)
    (cond_invariants orig_loop_vars shape_invariants) = Ok cond_graph ->
  trace_body (body_loop_vars outer orig_loop_vars cond_graph)
    (body_invariants orig_loop_vars shape_invariants cond_graph) = Ok body_graph ->
  reconcile_captures cond_graph (external_captures body_graph) = Raise e ->
  while_loop_assemble trace_cond trace_body outer orig_loop_vars shape_invariants = Raise e.
Proof.
  intros Hs Hc Hb Hr. unfold while_loop_assemble.
  assert (Hsi : (match shape_invariants with
                 | Some si => _ ← assert_same_structure (Seq orig_loop_vars) (Seq si); Ok si
                 | None => Ok (map_structure t_shape <$> (_tensor_array_to_flow <$> orig_loop_vars))
                 end) = Ok (effective_invariants orig_loop_vars shape_invariants)).
  { unfold effective_invariants. destruct shape_invariants as [si|]; [|reflexivity].
    unfold assert_same_structure. rewrite Hs. reflexivity. }
  clear Hs.
  unfold body_loop_vars, body_invariants, cond_loop_vars, cond_invariants in *.
  destruct (constant outer 0%N) as [lc o1] eqn:Ec. simpl in *.
  rewrite Hsi. simpl. rewrite Hc. simpl. rewrite Hb. simpl.
  rewrite external_captures_set_outputs, Hr. reflexivity.
Qed.

(** C4.  When the cond closure and the body closure capture the same external
    tensor, [while_loop] raises the assertion error whose message tells the
    caller to pass that tensor as a loop variable; it never returns a loop
    with the shared capture merged. *)
Theorem shared_capture_is_fatal
    trace_cond trace_body outer orig_loop_vars shape_invariants cond_graph body_graph t :
  match shape_invariants with
  | Some si => same_structure (Seq orig_loop_vars) (Seq si) = true
  | None => True
  end ->
  trace_cond (cond_loop_vars outer orig_loop_vars)
    (cond_invariants orig_loop_vars shape_invariants) = Ok cond_graph ->
  trace_body (body_loop_vars outer orig_loop_vars cond_graph)
    (body_invariants orig_loop_vars shape_invariants cond_graph) = Ok body_graph ->
  NoDup (external_captures body_graph) ->
  t ∈ external_captures cond_graph ->
  t ∈ external_captures body_graph ->
  exists t',
    t' ∈ external_captures cond_graph /\ t' ∈ external_captures body_graph /\
    while_loop trace_cond trace_body outer orig_loop_vars shape_invariants
    = Raise (AssertionError shared_capture_msg [str_tensor t']).
Proof.
  intros Hs Hc Hb Hnd Htc Htb.
  destruct (reconcile_captures_shared _ cond_graph t Hnd Htb Htc) as (t' & Hb' & Hc' & Hr).
  exists t'. split; [exact Hc' | split; [exact Hb'|]].
  unfold while_loop.
  rewrite (while_loop_assemble_reconcile_Raise _ _ _ _ _ _ _ _ Hs Hc Hb Hr).
  reflexivity.
Qed.

Lemma shared_capture_is_fatal_witness :
  exists t',
    t' ∈ external_captures ex_cond_graph_c /\ t' ∈ external_captures ex_body_graph_c /\
    while_loop (ex_trace ex_cond_graph_c) (ex_trace ex_body_graph_c) ex_outer
      [Leaf (LV_Tensor ex_i)] None
    = Raise (AssertionError shared_capture_msg [str_tensor t']).
Proof.
  apply (shared_capture_is_fatal (ex_trace ex_cond_graph_c) (ex_trace ex_body_graph_c)
           ex_outer [Leaf (LV_Tensor ex_i)] None ex_cond_graph_c ex_body_graph_c ex_c).
  - exact I.
  - reflexivity.
  - reflexivity.
  - apply NoDup_singleton.
  - left.
  - left.
Defined.

(** ** Shape validation in the assembler *)

Lemma zip3_lookup {A B C} (la : list A) (lb : list B) (lc : list C) j a b c :
  zip3 la lb lc !! j = Some (a, b, c) <->
  la !! j = Some a /\ lb !! j = Some b /\ lc !! j = Some c.
Proof.
  revert lb lc j. induction la as [|x la IH]; intros [|y lb] [|z lc] j; simpl;
    try (split; [discriminate | intros (H1 & H2 & H3); destruct j; discriminate]).
  destruct j as [|j]; simpl.
  - split; [intros H; inversion H; auto | intros (H1 & H2 & H3); congruence].
  - apply IH.
Qed.

Lemma zip3_length {A B C} (la : list A) (lb : list B) (lc : list C) :
  length (zip3 la lb lc) = (length la `min` length lb) `min` length lc.
Proof.
  revert lb lc. induction la as [|x la IH]; intros [|y lb] [|z lc]; simpl; try lia.
  rewrite IH. lia.
Qed.

Lemma flatten_Seq_app {A} (l1 l2 : list (nest A)) :
  flatten (Seq (l1 ++ l2)) = flatten (Seq l1) ++ flatten (Seq l2).
Proof. simpl. rewrite map_app, concat_app. reflexivity. Qed.

Lemma flatten_Seq_cons {A} (x : nest A) (l : list (nest A)) :
  flatten (Seq (x :: l)) = flatten x ++ flatten (Seq l).
Proof. reflexivity. Qed.

Lemma flatten_Seq_map_structure {A B} (f : A -> B) (l : list (nest A)) :
  flatten (Seq (map_structure f <$> l)) = f <$> flatten (Seq l).
Proof.
  induction l as [|x l IH]; [reflexivity|].
  rewrite fmap_cons, !flatten_Seq_cons, fmap_app, flatten_map_structure, IH. reflexivity.
Qed.

Lemma validated_inputs_length orig_loop_vars :
  length (validated_inputs orig_loop_vars) = length (flatten (Seq orig_loop_vars)).
Proof.
  unfold validated_inputs, _tensor_array_to_flow.
  rewrite flatten_Seq_map_structure, length_fmap. reflexivity.
Qed.

Lemma validated_invariants_length orig_loop_vars shape_invariants :
  match shape_invariants with
  | Some si => same_structure (Seq orig_loop_vars) (Seq si) = true
  | None => True
  end ->
  length (validated_invariants orig_loop_vars shape_invariants)
  = length (flatten (Seq orig_loop_vars)).
Proof.
  unfold validated_invariants, effective_invariants. destruct shape_invariants as [si|].
  - intros H. symmetry. apply same_structure_flatten_length. exact H.
  - intros _. unfold _tensor_array_to_flow.
    rewrite !flatten_Seq_map_structure, !length_fmap. reflexivity.
Qed.

Lemma validated_invariants_default orig_loop_vars :
  validated_invariants orig_loop_vars None = t_shape <$> validated_inputs orig_loop_vars.
Proof.
  unfold validated_invariants, validated_inputs, effective_invariants.
  apply flatten_Seq_map_structure.
Qed.

Lemma assembled_loop_vars_length trace_cond trace_body outer orig_loop_vars shape_invariants a :
  assembled trace_cond trace_body outer orig_loop_vars shape_invariants a ->
  1 + length (flatten (Seq orig_loop_vars)) <= length (flatten (Seq (as_loop_vars a))).
Proof.
  intros [cg bg cg' ints Hs Hc Hb Hr Hi Ha].
  destruct (accumulate_loop_vars ints
              (mkAssembly (constant outer 0%N).2
                 (body_loop_vars outer orig_loop_vars cg ++ (Leaf <$> external_captures bg))
                 cg' (with_passthrough bg))) as (tls & _ & Hlv).
  rewrite <- Ha in Hlv. rewrite Hlv. cbn [as_loop_vars].
  unfold body_loop_vars, cond_loop_vars.
  rewrite !flatten_Seq_app, flatten_Seq_cons, !length_app.
  fold (validated_inputs orig_loop_vars). rewrite validated_inputs_length.
  simpl. lia.
Qed.

Lemma check_num_inputs_outputs_Ok cond_graph body_graph n :
  _check_num_inputs_outputs cond_graph body_graph n = Ok tt <->
  length (fg_inputs cond_graph) = n /\ length (fg_outputs cond_graph) = 1 /\
  length (fg_inputs body_graph) = n /\ length (fg_outputs body_graph) = n.
Proof.
  unfold _check_num_inputs_outputs. split.
  - intros H. inv_bind H. inv_bind H. inv_bind H.
    apply py_assert_Ok, bool_decide_eq_true in Ha, Ha0, Ha1, H. auto.
  - intros (H1 & H2 & H3 & H4).
    rewrite !bool_decide_true by assumption. reflexivity.
Qed.

Lemma _ShapeLessThanOrEqual_spec shape1 shape2 :
  _ShapeLessThanOrEqual shape1 shape2 = true <->
  match shape2 with
  | None => True
  | Some dims2 =>
      exists dims1, shape1 = Some dims1 /\ length dims1 = length dims2 /\
                    forall i n, dims2 !! i = Some (Some n) -> dims1 !! i = Some (Some n)
  end.
Proof.
  unfold _ShapeLessThanOrEqual. destruct shape2 as [dims2|]; [|tauto].
  destruct shape1 as [dims1|].
  - rewrite dims_less_than_or_equal_spec. split.
    + intros H. exists dims1. tauto.
    + intros (d & Hd & H). inversion Hd; subst. exact H.
  - split; [discriminate | intros (d & Hd & _); discriminate].
Qed.

(** The validation of lines 213-217.  For a run that has reached it: if the
    assembler accepts the loop then every loop-carried output has a shape
    compatible with its invariant, the declared one or else the shape of the
    initial value; and if some output is the first incompatible one,
    [while_loop] raises the shape error whose arguments are the name of the
    loop variable, the invariant and the shape after one iteration.
    Compatible means: an invariant of unknown rank accepts any shape,
    otherwise ranks agree and every known dimension of the invariant is
    matched exactly. *)
Theorem loop_output_shapes_validated
    trace_cond trace_body outer orig_loop_vars shape_invariants a :
  assembled trace_cond trace_body outer orig_loop_vars shape_invariants a ->
  (while_loop_assemble trace_cond trace_body outer orig_loop_vars shape_invariants = Ok a ->
   forall j, j < length (flatten (Seq orig_loop_vars)) ->
     exists t shape input_t,
       fg_outputs (as_body_graph a) !! (1 + j) = Some t /\
       validated_invariants orig_loop_vars shape_invariants !! j = Some shape /\
       validated_inputs orig_loop_vars !! j = Some input_t /\
       _ShapeLessThanOrEqual (t_shape t) shape = true) /\
  (forall j t shape input_t,
     fg_outputs (as_body_graph a) !! (1 + j) = Some t ->
     validated_invariants orig_loop_vars shape_invariants !! j = Some shape ->
     validated_inputs orig_loop_vars !! j = Some input_t ->
     _ShapeLessThanOrEqual (t_shape t) shape = false ->
     (forall k t' shape', k < j ->
        fg_outputs (as_body_graph a) !! (1 + k) = Some t' ->
        validated_invariants orig_loop_vars shape_invariants !! k = Some shape' ->
        _ShapeLessThanOrEqual (t_shape t') shape' = true) ->
     while_loop trace_cond trace_body outer orig_loop_vars shape_invariants
     = Raise (ValueError shape_error_msg
                [str_tensor input_t; str_shape shape; str_shape (t_shape t)])) /\
  (forall shape1 shape2,
     _ShapeLessThanOrEqual shape1 shape2 = true <->
     match shape2 with
     | None => True
     | Some dims2 =>
         exists dims1, shape1 = Some dims1 /\ length dims1 = length dims2 /\
                       forall i n, dims2 !! i = Some (Some n) -> dims1 !! i = Some (Some n)
     end) /\
  (shape_invariants = None ->
   validated_invariants orig_loop_vars shape_invariants
   = t_shape <$> validated_inputs orig_loop_vars).
Proof.
  intros Hasm.
  pose proof (while_loop_assemble_assembled _ _ _ _ _ _ Hasm) as Heq.
  pose proof (assembled_loop_vars_length _ _ _ _ _ _ Hasm) as Hlv.
  assert (Hstruct : length (validated_invariants orig_loop_vars shape_invariants)
                    = length (flatten (Seq orig_loop_vars))).
  { destruct Hasm. apply validated_invariants_length. assumption. }
  pose proof (validated_inputs_length orig_loop_vars) as Hins.
  assert (Hout : forall j, j < length (flatten (Seq orig_loop_vars)) ->
                 validated_outputs orig_loop_vars a !! j
                 = fg_outputs (as_body_graph a) !! (1 + j)).
  { intros j Hj. unfold validated_outputs, py_slice.
    rewrite lookup_take_lt by exact Hj. rewrite lookup_drop. reflexivity. }
  split; [|split; [|split]].
  - intros Hok j Hj. rewrite Heq in Hok. inv_bind Hok. inv_bind Hok.
    destruct a0, a1.
    apply check_num_inputs_outputs_Ok in Ha0 as (_ & _ & _ & Hbo).
    unfold _check_shapes_compat in Ha. apply check_shapes_compat_loop_Ok in Ha.
    destruct (lookup_lt_is_Some_2 (fg_outputs (as_body_graph a)) (1 + j)) as [t Ht]; [lia|].
    destruct (lookup_lt_is_Some_2 (validated_invariants orig_loop_vars shape_invariants) j)
      as [shape Hshape]; [lia|].
    destruct (lookup_lt_is_Some_2 (validated_inputs orig_loop_vars) j) as [input_t Hin]; [lia|].
    exists t, shape, input_t. repeat split; try assumption.
    rewrite Forall_lookup in Ha.
    apply (Ha j (t, shape, input_t)). apply zip3_lookup.
    rewrite Hout by exact Hj. auto.
  - intros j t shape input_t Ht Hshape Hin Hbad Hbefore.
    assert (Hj : j < length (flatten (Seq orig_loop_vars))).
    { rewrite <- Hins. apply lookup_lt_Some in Hin. exact Hin. }
    unfold while_loop. rewrite Heq.
    destruct (_check_shapes_compat (validated_outputs orig_loop_vars a)
                (validated_invariants orig_loop_vars shape_invariants)
                (validated_inputs orig_loop_vars)) as [[]|e] eqn:E.
    + exfalso. unfold _check_shapes_compat in E. apply check_shapes_compat_loop_Ok in E.
      rewrite Forall_lookup in E.
      specialize (E j (t, shape, input_t)). simpl in E. rewrite E in Hbad; [discriminate|].
      apply zip3_lookup. rewrite Hout by exact Hj. auto.
    + simpl. f_equal. unfold _check_shapes_compat in E.
      apply check_shapes_compat_loop_Raise in E
        as (i & t0 & shape0 & input0 & Hi & Hbad0 & Hbefore0 & ->).
      apply zip3_lookup in Hi as (Hi1 & Hi2 & Hi3).
      assert (Hi' : i < length (flatten (Seq orig_loop_vars))).
      { rewrite <- Hins. apply lookup_lt_Some in Hi3. exact Hi3. }
      rewrite Hout in Hi1 by exact Hi'.
      destruct (Nat.lt_trichotomy i j) as [Hlt | [-> | Hgt]].
      * rewrite (Hbefore i t0 shape0 Hlt Hi1 Hi2) in Hbad0. discriminate.
      * congruence.
      * specialize (Hbefore0 j (t, shape, input_t) Hgt). simpl in Hbefore0.
        rewrite Hbefore0 in Hbad; [discriminate|].
        apply zip3_lookup. rewrite Hout by exact Hj. auto.
  - apply _ShapeLessThanOrEqual_spec.
  - intros ->. apply validated_invariants_default.
Qed.

Lemma ex_assembled :
  assembled (ex_trace ex_cond_graph) (ex_trace ex_body_graph) ex_outer
    [Leaf (LV_Tensor ex_i)] None ex_assembly.
Proof.
  eapply (Assembled _ _ _ _ _ _ ex_cond_graph ex_body_graph ex_cond_graph).
  - exact I.
  - reflexivity.
  - reflexivity.
  - reflexivity.
  - vm_compute. reflexivity.
  - vm_compute. reflexivity.
Defined.

Lemma loop_output_shapes_validated_witness :
  (while_loop_assemble (ex_trace ex_cond_graph) (ex_trace ex_body_graph) ex_outer
     [Leaf (LV_Tensor ex_i)] None = Ok ex_assembly ->
   forall j, j < length (flatten (Seq [Leaf (LV_Tensor ex_i)])) ->
     exists t shape input_t,
       fg_outputs (as_body_graph ex_assembly) !! (1 + j) = Some t /\
       validated_invariants [Leaf (LV_Tensor ex_i)] None !! j = Some shape /\
       validated_inputs [Leaf (LV_Tensor ex_i)] !! j = Some input_t /\
       _ShapeLessThanOrEqual (t_shape t) shape = true) /\
  (forall j t shape input_t,
     fg_outputs (as_body_graph ex_assembly) !! (1 + j) = Some t ->
     validated_invariants [Leaf (LV_Tensor ex_i)] None !! j = Some shape ->
     validated_inputs [Leaf (LV_Tensor ex_i)] !! j = Some input_t ->
     _ShapeLessThanOrEqual (t_shape t) shape = false ->
     (forall k t' shape', k < j ->
        fg_outputs (as_body_graph ex_assembly) !! (1 + k) = Some t' ->
        validated_invariants [Leaf (LV_Tensor ex_i)] None !! k = Some shape' ->
        _ShapeLessThanOrEqual (t_shape t') shape' = true) ->
     while_loop (ex_trace ex_cond_graph) (ex_trace ex_body_graph) ex_outer
       [Leaf (LV_Tensor ex_i)] None
     = Raise (ValueError shape_error_msg
                [str_tensor input_t; str_shape shape; str_shape (t_shape t)])) /\
  (forall shape1 shape2,
     _ShapeLessThanOrEqual shape1 shape2 = true <->
     match shape2 with
     | None => True
     | Some dims2 =>
         exists dims1, shape1 = Some dims1 /\ length dims1 = length dims2 /\
                       forall i n, dims2 !! i = Some (Some n) -> dims1 !! i = Some (Some n)
     end) /\
  (@None (list (nest TensorShape)) = None ->
   validated_invariants [Leaf (LV_Tensor ex_i)] None
   = t_shape <$> validated_inputs [Leaf (LV_Tensor ex_i)]).
Proof.
  exact (loop_output_shapes_validated (ex_trace ex_cond_graph) (ex_trace ex_body_graph)
           ex_outer [Leaf (LV_Tensor ex_i)] None ex_assembly ex_assembled).
Defined.

(** The loop that grows its variable is refused with the shape error. *)
Example growing_loop_is_refused :
  while_loop (ex_trace ex_cond_graph_x) (ex_trace ex_body_graph_x) ex_outer_x
    [Leaf (LV_Tensor ex_x)] None
  = Raise (ValueError shape_error_msg ["0:0"; "(1)"; "(2)"]).
Proof. vm_compute. reflexivity. Qed.

(** With the invariant [(None)] the same loop is accepted. *)
Example growing_loop_with_invariant_is_accepted :
  exists r, while_loop (ex_trace ex_cond_graph_x) (ex_trace ex_body_graph_x) ex_outer_x
              [Leaf (LV_Tensor ex_x)] (Some [Leaf (Some [None])]) = Ok r.
Proof. vm_compute. eexists. reflexivity. Qed.


(** ** Selection of the intermediates *)

Lemma intermediates_of_outputs_Ok g outs :
  forall acc l,
    intermediates_of_outputs g outs acc = Ok l ->
    l = acc ++ filter (is_candidate g) outs.
Proof.
  induction outs as [|o outs IH]; intros acc l H; simpl in H.
  - inversion H. rewrite app_nil_r. reflexivity.
  - inv_bind H. apply py_getitem_Ok in Ha.
    destruct (decide (o = a)) as [->|Hne].
    { rewrite filter_cons_False; [apply IH; exact H|].
      intros (Hc & _). contradiction. }
    destruct (decide (t_dtype o = DT_RESOURCE)) as [Hres|Hres].
    { rewrite filter_cons_False; [apply IH; exact H|].
      intros (_ & Hc & _). contradiction. }
    inv_bind H. destruct a0 as [acc'|].
    + rewrite filter_cons_False; [apply IH; exact H|].
      intros (_ & _ & Hc). congruence.
    + rewrite filter_cons_True.
      * apply IH in H. rewrite H, <- app_assoc. reflexivity.
      * split; [congruence | split; [exact Hres | exact Ha0]].
Qed.

Lemma intermediates_of_ops_Ok g ops :
  forall acc l,
    intermediates_of_ops g ops acc = Ok l ->
    l = acc ++ filter (is_candidate g)
                 (op ← filter (fun op => op_type op <> "Identity") ops; op_outputs op).
Proof.
  induction ops as [|op ops IH]; intros acc l H; simpl in H.
  - inversion H. rewrite app_nil_r. reflexivity.
  - destruct (decide (op_type op = "Identity")) as [Hid|Hid].
    + rewrite filter_cons_False by (intros Hc; contradiction). apply IH. exact H.
    + rewrite filter_cons_True by exact Hid. inv_bind H.
      apply intermediates_of_outputs_Ok in Ha. apply IH in H. subst a.
      rewrite bind_cons, filter_app, H, <- app_assoc. reflexivity.
Qed.

Lemma get_intermediates_Ok g l : _get_intermediates g = Ok l -> l = candidates g.
Proof. intros H. apply intermediates_of_ops_Ok in H. exact H. Qed.

Lemma intermediates_of_outputs_total g outs c :
  fg_inputs g !! 0 = Some c ->
  (forall o, o ∈ outs -> o <> c -> t_dtype o <> DT_RESOURCE ->
             exists r, _get_accumulator g o = Ok r) ->
  forall acc, exists l, intermediates_of_outputs g outs acc = Ok l.
Proof.
  intros Hc. induction outs as [|o outs IH]; intros Hacc acc; simpl.
  - eexists. reflexivity.
  - unfold py_getitem. rewrite Hc. simpl.
    assert (Hrest : forall o', o' ∈ outs -> o' <> c -> t_dtype o' <> DT_RESOURCE ->
                    exists r, _get_accumulator g o' = Ok r).
    { intros o' Ho'. apply Hacc. right. exact Ho'. }
    destruct (decide (o = c)); [apply IH; exact Hrest|].
    destruct (decide (t_dtype o = DT_RESOURCE)); [apply IH; exact Hrest|].
    destruct (Hacc o) as [r Hr]; [left | assumption | assumption |].
    rewrite Hr. simpl. destruct r; apply IH; exact Hrest.
Qed.

Lemma get_intermediates_total g c :
  fg_inputs g !! 0 = Some c ->
  (forall o, o ∈ candidate_outputs g -> o <> c -> t_dtype o <> DT_RESOURCE ->
             exists r, _get_accumulator g o = Ok r) ->
  exists l, _get_intermediates g = Ok l.
Proof.
  intros Hc. unfold _get_intermediates, candidate_outputs.
  generalize (@nil Tensor) as acc.
  induction (fg_operations g) as [|op ops IH]; intros acc Hacc; simpl.
  - eexists. reflexivity.
  - destruct (decide (op_type op = "Identity")) as [Hid|Hid].
    + apply IH. rewrite filter_cons_False in Hacc by (intros Hc'; contradiction). exact Hacc.
    + rewrite filter_cons_True in Hacc by exact Hid. rewrite bind_cons in Hacc.
      destruct (intermediates_of_outputs_total g (op_outputs op) c Hc) with (acc := acc)
        as [l Hl].
      { intros o Ho. apply Hacc. apply elem_of_app. left. exact Ho. }
      rewrite Hl. simpl. apply IH. intros o Ho. apply Hacc. apply elem_of_app. right. exact Ho.
Qed.

(** ** One accumulator per intermediate *)

Lemma base_capture_helper_fresh g t :
  t ∉ external_captures g ->
  base_capture_helper g t
  = (mkTensor (fg_name g) (fg_next_name g) 0 (t_dtype t) (t_shape t),
     mkFuncGraph (fg_name g) (fg_outer_graph g)
       (fg_operations g
          ++ [mkOp (fg_next_name g) "Placeholder" []
                [mkTensor (fg_name g) (fg_next_name g) 0 (t_dtype t) (t_shape t)] None])
       (fg_inputs g ++ [mkTensor (fg_name g) (fg_next_name g) 0 (t_dtype t) (t_shape t)])
       (fg_outputs g)
       (fg_captures g ++ [(t, mkTensor (fg_name g) (fg_next_name g) 0 (t_dtype t) (t_shape t))])
       (S (fg_next_name g))).
Proof.
  intros H. unfold base_capture_helper.
  apply captures_get_None in H. rewrite H. reflexivity.
Qed.

Lemma fresh_for_not_captured outer g d s :
  fresh_for outer g ->
  mkTensor (fg_name outer) (fg_next_name outer) 0 d s ∉ external_captures g.
Proof.
  intros [_ H] Hin. specialize (H _ Hin eq_refl). simpl in H. lia.
Qed.

Lemma capture_fresh outer g d s :
  fresh_for outer g ->
  capture g (mkTensor (fg_name outer) (fg_next_name outer) 0 d s)
  = (mkTensor (fg_name g) (fg_next_name g) 0 d s,
     mkFuncGraph (fg_name g) (fg_outer_graph g)
       (fg_operations g
          ++ [mkOp (fg_next_name g) "Placeholder" []
                [mkTensor (fg_name g) (fg_next_name g) 0 d s] None])
       (fg_inputs g ++ [mkTensor (fg_name g) (fg_next_name g) 0 d s])
       (fg_outputs g)
       (fg_captures g
          ++ [(mkTensor (fg_name outer) (fg_next_name outer) 0 d s,
               mkTensor (fg_name g) (fg_next_name g) 0 d s)])
       (S (fg_next_name g))).
Proof.
  intros Hf. unfold capture. simpl.
  destruct (decide (fg_name outer = fg_name g)) as [E|_]; [destruct Hf; contradiction|].
  rewrite base_capture_helper_fresh by (apply fresh_for_not_captured; exact Hf).
  reflexivity.
Qed.

(** The explicit form of one accumulation step. *)
Lemma accumulate_one_eq a it :
  wf_assembly a -> t_graph it = fg_name (as_body_graph a) ->
  let outer := as_outer a in
  let cond := as_cond_graph a in
  let body := as_body_graph a in
  let tensor_list := mkTensor (fg_name outer) (fg_next_name outer) 0 DT_VARIANT scalar in
  let cond_ph := mkTensor (fg_name cond) (fg_next_name cond) 0 DT_VARIANT scalar in
  let ph := mkTensor (fg_name body) (fg_next_name body) 0 DT_VARIANT scalar in
  let appended := mkTensor (fg_name body) (S (fg_next_name body)) 0 DT_VARIANT scalar in
  accumulate_one a it
  = mkAssembly
      (mkFuncGraph (fg_name outer) (fg_outer_graph outer)
         (fg_operations outer
            ++ [mkOp (fg_next_name outer) "EmptyTensorList" [] [tensor_list] None])
         (fg_inputs outer) (fg_outputs outer) (fg_captures outer) (S (fg_next_name outer)))
      (as_loop_vars a ++ [Leaf tensor_list])
      (mkFuncGraph (fg_name cond) (fg_outer_graph cond)
         (fg_operations cond ++ [mkOp (fg_next_name cond) "Placeholder" [] [cond_ph] None])
         (fg_inputs cond ++ [cond_ph]) (fg_outputs cond)
         (fg_captures cond ++ [(tensor_list, cond_ph)]) (S (fg_next_name cond)))
      (mkFuncGraph (fg_name body) (fg_outer_graph body)
         ((fg_operations body ++ [mkOp (fg_next_name body) "Placeholder" [] [ph] None])
            ++ [mkOp (S (fg_next_name body)) "TensorListPushBack" [ph; it] [appended] None])
         (fg_inputs body ++ [ph]) (fg_outputs body ++ [appended])
         (fg_captures body ++ [(tensor_list, ph)]) (S (S (fg_next_name body)))).
Proof.
  intros [Hc Hb] Hit. cbv zeta.
  unfold accumulate_one, create_op1, add_op1, add_op, add_op_with_value.
  cbv beta iota zeta. cbn [capture_all].
  rewrite (capture_fresh _ _ DT_VARIANT scalar Hc).
  rewrite (capture_fresh _ _ DT_VARIANT scalar Hb).
  unfold capture at 1. cbn [fg_name t_graph].
  destruct (decide (t_graph it = fg_name (as_body_graph a))) as [_|Hne]; [|contradiction].
  reflexivity.
Qed.

Lemma accumulate_one_wf a it :
  wf_assembly a -> t_graph it = fg_name (as_body_graph a) ->
  wf_assembly (accumulate_one a it) /\
  fg_name (as_body_graph (accumulate_one a it)) = fg_name (as_body_graph a).
Proof.
  intros Hwf Hit. rewrite (accumulate_one_eq a it Hwf Hit). cbv zeta.
  destruct Hwf as [[Hc1 Hc2] [Hb1 Hb2]].
  split; [|reflexivity].
  split; (split; [assumption|]); cbn; unfold external_captures; cbn;
    rewrite fmap_app; intros k Hk Hg;
    (apply elem_of_app in Hk as [Hk | Hk];
     [ first [specialize (Hc2 k Hk Hg) | specialize (Hb2 k Hk Hg)]; lia
     | apply list_elem_of_singleton in Hk; subst k; cbn; lia ]).
Qed.

Lemma accumulator_for_mono_one a it it' tensor_list appended :
  wf_assembly a -> t_graph it' = fg_name (as_body_graph a) ->
  accumulator_for a it tensor_list appended ->
  accumulator_for (accumulate_one a it') it tensor_list appended.
Proof.
  intros Hwf Hit ((n & Hn) & ph & m & Hcap & Hin & Hop).
  rewrite (accumulate_one_eq a it' Hwf Hit). cbv zeta. split.
  - exists n. cbn. apply elem_of_app. left. exact Hn.
  - exists ph, m. cbn. split; [|split].
    + apply elem_of_app. left. exact Hcap.
    + apply elem_of_app. left. exact Hin.
    + apply elem_of_app. left. apply elem_of_app. left. exact Hop.
Qed.

Lemma accumulate_wf its :
  forall a,
    wf_assembly a -> Forall (fun it => t_graph it = fg_name (as_body_graph a)) its ->
    wf_assembly (accumulate a its) /\
    fg_name (as_body_graph (accumulate a its)) = fg_name (as_body_graph a).
Proof.
  unfold accumulate. induction its as [|it its IH]; intros a Hwf Hits; simpl.
  - split; [exact Hwf | reflexivity].
  - inversion Hits as [|? ? Hit Hits']; subst.
    destruct (accumulate_one_wf a it Hwf Hit) as [Hwf1 Hn1].
    destruct (IH (accumulate_one a it) Hwf1) as [Hwf2 Hn2].
    { rewrite Hn1. exact Hits'. }
    split; [exact Hwf2 | congruence].
Qed.

Lemma accumulator_for_mono its :
  forall a it tensor_list appended,
    wf_assembly a -> Forall (fun it => t_graph it = fg_name (as_body_graph a)) its ->
    accumulator_for a it tensor_list appended ->
    accumulator_for (accumulate a its) it tensor_list appended.
Proof.
  unfold accumulate. induction its as [|it' its IH]; intros a it tl app Hwf Hits H; simpl.
  - exact H.
  - inversion Hits as [|? ? Hit Hits']; subst.
    destruct (accumulate_one_wf a it' Hwf Hit) as [Hwf1 Hn1].
    apply IH; [exact Hwf1 | rewrite Hn1; exact Hits' |].
    apply accumulator_for_mono_one; assumption.
Qed.

Lemma accumulate_one_fields a it :
  wf_assembly a -> t_graph it = fg_name (as_body_graph a) ->
  let a1 := accumulate_one a it in
  let tensor_list :=
    mkTensor (fg_name (as_outer a)) (fg_next_name (as_outer a)) 0 DT_VARIANT scalar in
  let appended :=
    mkTensor (fg_name (as_body_graph a)) (S (fg_next_name (as_body_graph a))) 0
      DT_VARIANT scalar in
  (fg_name (as_outer a1) = fg_name (as_outer a) /\
   fg_next_name (as_outer a1) = S (fg_next_name (as_outer a))) /\
  (fg_name (as_cond_graph a1) = fg_name (as_cond_graph a) /\
   fg_next_name (as_cond_graph a1) = S (fg_next_name (as_cond_graph a))) /\
  (fg_name (as_body_graph a1) = fg_name (as_body_graph a) /\
   fg_next_name (as_body_graph a1) = S (S (fg_next_name (as_body_graph a)))) /\
  as_loop_vars a1 = as_loop_vars a ++ [Leaf tensor_list] /\
  fg_inputs (as_cond_graph a1)
  = fg_inputs (as_cond_graph a)
      ++ [mkTensor (fg_name (as_cond_graph a)) (fg_next_name (as_cond_graph a)) 0
            DT_VARIANT scalar] /\
  fg_outputs (as_cond_graph a1) = fg_outputs (as_cond_graph a) /\
  fg_inputs (as_body_graph a1)
  = fg_inputs (as_body_graph a)
      ++ [mkTensor (fg_name (as_body_graph a)) (fg_next_name (as_body_graph a)) 0
            DT_VARIANT scalar] /\
  fg_outputs (as_body_graph a1) = fg_outputs (as_body_graph a) ++ [appended] /\
  accumulator_for a1 it tensor_list appended.
Proof.
  intros Hwf Hit. cbv zeta. rewrite (accumulate_one_eq a it Hwf Hit). cbv zeta. cbn.
  repeat split.
  - eexists. cbn. apply elem_of_app. right. left.
  - eexists _, _. cbn. split; [|split].
    + apply elem_of_app. right. left.
    + apply elem_of_app. right. left.
    + apply elem_of_app. right. left.
Qed.

(** What [accumulate] adds, for intermediates of the body graph. *)
Lemma accumulate_spec its :
  forall a,
    wf_assembly a -> Forall (fun it => t_graph it = fg_name (as_body_graph a)) its ->
    let n := length its in
    let a' := accumulate a its in
    let tensor_lists :=
      fresh_tensors (fg_name (as_outer a)) (fg_next_name (as_outer a)) 1 n in
    let appended :=
      fresh_tensors (fg_name (as_body_graph a)) (S (fg_next_name (as_body_graph a))) 2 n in
    as_loop_vars a' = as_loop_vars a ++ (Leaf <$> tensor_lists) /\
    fg_inputs (as_cond_graph a')
    = fg_inputs (as_cond_graph a)
        ++ fresh_tensors (fg_name (as_cond_graph a)) (fg_next_name (as_cond_graph a)) 1 n /\
    fg_outputs (as_cond_graph a') = fg_outputs (as_cond_graph a) /\
    fg_inputs (as_body_graph a')
    = fg_inputs (as_body_graph a)
        ++ fresh_tensors (fg_name (as_body_graph a)) (fg_next_name (as_body_graph a)) 2 n /\
    fg_outputs (as_body_graph a') = fg_outputs (as_body_graph a) ++ appended /\
    Forall3 (accumulator_for a') its tensor_lists appended.
Proof.
  induction its as [|it its IH]; intros a Hwf Hits; cbv zeta.
  - cbn. rewrite !app_nil_r. repeat split; constructor.
  - inversion Hits as [|? ? Hit Hits']; subst.
    destruct (accumulate_one_wf a it Hwf Hit) as [Hwf1 Hn1].
    assert (Hits1 : Forall (fun it0 => t_graph it0 = fg_name (as_body_graph (accumulate_one a it))) its).
    { rewrite Hn1. exact Hits'. }
    specialize (IH (accumulate_one a it) Hwf1 Hits1). cbv zeta in IH.
    destruct IH as (Hlv & Hci & Hco & Hbi & Hbo & Hall).
    destruct (accumulate_one_fields a it Hwf Hit)
      as ((Eon & Eox) & (Ecn & Ecx) & (Ebn & Ebx) & Elv & Eci & Eco & Ebi & Ebo & Hone).
    apply (accumulator_for_mono its _ _ _ _ Hwf1 Hits1) in Hone.
    change (accumulate a (it :: its)) with (accumulate (accumulate_one a it) its).
    rewrite Eon, Eox, Ecn, Ecx, Ebn, Ebx in *.
    rewrite Hlv, Hci, Hco, Hbi, Hbo, Elv, Eci, Eco, Ebi, Ebo, <- !app_assoc.
    cbn [length fresh_tensors fmap list_fmap app Nat.add].
    repeat split. constructor; assumption.
Qed.

Lemma intermediates_of_outputs_evaluated g outs :
  forall acc l,
    intermediates_of_outputs g outs acc = Ok l ->
    forall o, o ∈ outs -> fg_inputs g !! 0 <> Some o -> t_dtype o <> DT_RESOURCE ->
              exists r, _get_accumulator g o = Ok r.
Proof.
  induction outs as [|o' outs IH]; intros acc l H o Ho Hc Hres; simpl in H.
  - apply elem_of_nil in Ho. contradiction.
  - inv_bind H. apply py_getitem_Ok in Ha.
    apply elem_of_cons in Ho as [-> | Ho].
    + destruct (decide (o' = a)) as [->|Hne]; [contradiction|].
      destruct (decide (t_dtype o' = DT_RESOURCE)); [contradiction|].
      inv_bind H. eauto.
    + destruct (decide (o' = a)); [eapply IH; eauto|].
      destruct (decide (t_dtype o' = DT_RESOURCE)); [eapply IH; eauto|].
      inv_bind H. destruct a0; eapply IH; eauto.
Qed.

Lemma get_intermediates_evaluated g l :
  _get_intermediates g = Ok l ->
  forall o, o ∈ candidate_outputs g -> fg_inputs g !! 0 <> Some o ->
            t_dtype o <> DT_RESOURCE -> exists r, _get_accumulator g o = Ok r.
Proof.
  unfold _get_intermediates, candidate_outputs. generalize (@nil Tensor) as acc.
  revert l. induction (fg_operations g) as [|op ops IH]; intros l acc H o Ho Hc Hres;
    simpl in H.
  - apply elem_of_nil in Ho. contradiction.
  - destruct (decide (op_type op = "Identity")) as [Hid|Hid].
    + rewrite filter_cons_False in Ho by (intros Hc'; contradiction). eapply IH; eauto.
    + rewrite filter_cons_True in Ho by exact Hid. rewrite bind_cons in Ho.
      inv_bind H. apply elem_of_app in Ho as [Ho | Ho].
      * eapply intermediates_of_outputs_evaluated; eauto.
      * eapply IH; eauto.
Qed.

Lemma candidates_in_graph g :
  wf_outputs g -> Forall (fun it => t_graph it = fg_name g) (candidates g).
Proof.
  intros Hwf. apply Forall_forall. intros o Ho.
  unfold candidates in Ho. apply list_elem_of_filter in Ho as [_ Ho].
  unfold candidate_outputs in Ho. apply list_elem_of_bind in Ho as (op & Ho & Hop).
  apply list_elem_of_filter in Hop as [_ Hop].
  unfold wf_outputs in Hwf. rewrite Forall_forall in Hwf.
  specialize (Hwf op Hop). rewrite Forall_forall in Hwf. apply Hwf. exact Ho.
Qed.

Lemma fresh_tensors_length g from step n : length (fresh_tensors g from step n) = n.
Proof. revert from. induction n as [|n IH]; intros from; simpl; [reflexivity | rewrite IH; reflexivity]. Qed.

(** C6.  [_get_intermediates] selects exactly the outputs of the operations
    of the body other than outputs of Identity operations, the loop counter
    input, resource tensors and tensors with a detectable accumulator (and it
    returns whenever the accumulator search does); [while_loop] then gives
    each selected tensor, and nothing else, its own new empty tensor list:
    the lists extend the loop variables, their placeholders the inputs of the
    cond and body graphs, and the lists after the append the body outputs. *)
Theorem accumulation_policy (a : Assembly) :
  wf_assembly a -> wf_outputs (as_body_graph a) ->
  let g := as_body_graph a in
  (forall c,
     fg_inputs g !! 0 = Some c ->
     (forall o, o ∈ candidate_outputs g -> o <> c -> t_dtype o <> DT_RESOURCE ->
                exists r, _get_accumulator g o = Ok r) ->
     exists l, _get_intermediates g = Ok l) /\
  (forall l,
     _get_intermediates g = Ok l ->
     l = candidates g /\
     (forall o, o ∈ l <-> o ∈ candidate_outputs g /\ ~ excluded g o) /\
     let a' := accumulate a l in
     exists tensor_lists cond_phs body_phs appended,
       length tensor_lists = length l /\ length cond_phs = length l /\
       length body_phs = length l /\ length appended = length l /\
       as_loop_vars a' = as_loop_vars a ++ (Leaf <$> tensor_lists) /\
       fg_inputs (as_cond_graph a') = fg_inputs (as_cond_graph a) ++ cond_phs /\
       fg_inputs (as_body_graph a') = fg_inputs g ++ body_phs /\
       fg_outputs (as_body_graph a') = fg_outputs g ++ appended /\
       Forall3 (accumulator_for a') l tensor_lists appended).
Proof.
  intros Hwf Hout g. split.
  - intros c Hc Hacc. apply (get_intermediates_total g c Hc Hacc).
  - intros l Hl. pose proof (get_intermediates_Ok g l Hl) as Hcand.
    split; [exact Hcand | split].
    + intros o. subst l. unfold candidates. rewrite list_elem_of_filter. split.
      * intros [(Hc & Hres & Hacc) Ho]. split; [exact Ho|].
        intros [H | [H | (acc & H)]]; [contradiction | contradiction | congruence].
      * intros [Ho Hex]. split; [|exact Ho].
        assert (Hc : fg_inputs g !! 0 <> Some o) by (intros H; apply Hex; left; exact H).
        assert (Hres : t_dtype o <> DT_RESOURCE) by (intros H; apply Hex; right; left; exact H).
        split; [exact Hc | split; [exact Hres|]].
        destruct (get_intermediates_evaluated g _ Hl o Ho Hc Hres) as [[acc|] Hr];
          [|exact Hr].
        exfalso. apply Hex. right. right. exists acc. exact Hr.
    + cbv zeta.
      assert (Hin : Forall (fun it => t_graph it = fg_name (as_body_graph a)) l).
      { subst l. apply candidates_in_graph. exact Hout. }
      destruct (accumulate_spec l a Hwf Hin) as (Hlv & Hci & _ & Hbi & Hbo & Hall).
      eexists _, _, _, _.
      split; [|split; [|split; [|split; [|split; [exact Hlv|split; [exact Hci|
        split; [exact Hbi|split; [exact Hbo|exact Hall]]]]]]]];
        apply fresh_tensors_length.
Qed.

Lemma accumulation_policy_witness :
  let a := ex_before_accumulation in
  let g := as_body_graph a in
  (forall c,
     fg_inputs g !! 0 = Some c ->
     (forall o, o ∈ candidate_outputs g -> o <> c -> t_dtype o <> DT_RESOURCE ->
                exists r, _get_accumulator g o = Ok r) ->
     exists l, _get_intermediates g = Ok l) /\
  (forall l,
     _get_intermediates g = Ok l ->
     l = candidates g /\
     (forall o, o ∈ l <-> o ∈ candidate_outputs g /\ ~ excluded g o) /\
     let a' := accumulate a l in
     exists tensor_lists cond_phs body_phs appended,
       length tensor_lists = length l /\ length cond_phs = length l /\
       length body_phs = length l /\ length appended = length l /\
       as_loop_vars a' = as_loop_vars a ++ (Leaf <$> tensor_lists) /\
       fg_inputs (as_cond_graph a') = fg_inputs (as_cond_graph a) ++ cond_phs /\
       fg_inputs (as_body_graph a') = fg_inputs g ++ body_phs /\
       fg_outputs (as_body_graph a') = fg_outputs g ++ appended /\
       Forall3 (accumulator_for a') l tensor_lists appended).
Proof.
  apply (accumulation_policy ex_before_accumulation).
  - split; (split; [simpl; lia | intros k Hk; apply elem_of_nil in Hk; contradiction]).
  - unfold wf_outputs. simpl. repeat constructor.
Defined.

(** The worked loop: five tensors are selected (everything but the counter
    placeholder), so the loop ends up with seven variables. *)
Example worked_loop_intermediates :
  _get_intermediates (with_passthrough ex_body_graph)
  = Ok [mkTensor 2 1 0 DT_INT32 scalar; mkTensor 2 2 0 DT_INT32 scalar;
        mkTensor 2 3 0 DT_INT32 scalar; mkTensor 2 4 0 DT_FLOAT scalar;
        mkTensor 2 5 0 DT_FLOAT scalar]
  /\ length (as_loop_vars ex_assembly) = 7
  /\ length (fg_inputs (as_body_graph ex_assembly)) = 7
  /\ length (fg_outputs (as_body_graph ex_assembly)) = 7.
Proof. vm_compute. repeat split. Qed.

(** ** Detection of an existing accumulator *)

Lemma index_from_spec t l :
  forall k i, index_from t l k = Some i <-> k <= i /\ first_index l t (i - k).
Proof.
  unfold first_index. induction l as [|x l IH]; intros k i; simpl.
  - split; [discriminate | intros (_ & H & _); rewrite lookup_nil in H; discriminate].
  - destruct (decide (x = t)) as [->|Hne].
    + split.
      * intros H. inversion H; subst. rewrite Nat.sub_diag. simpl.
        split; [lia | split; [reflexivity | intros j Hj; lia]].
      * intros (Hk & Hi & Hfirst). destruct (i - k) as [|d] eqn:E.
        -- f_equal. lia.
        -- exfalso. apply (Hfirst 0); [lia | reflexivity].
    + rewrite IH. split.
      * intros (Hk & Hi & Hfirst). split; [lia|].
        replace (i - k) with (S (i - S k)) by lia. simpl. split; [exact Hi|].
        intros [|j] Hj; simpl; [congruence | apply Hfirst; lia].
      * intros (Hk & Hi & Hfirst). destruct (i - k) as [|d] eqn:E.
        -- simpl in Hi. congruence.
        -- simpl in Hi. split; [lia|]. replace (i - S k) with d by lia.
           split; [exact Hi|]. intros j Hj. apply (Hfirst (S j)). lia.
Qed.

Lemma py_index_Ok l t i : py_index l t = Ok i <-> first_index l t i.
Proof.
  unfold py_index. destruct (index_from t l 0) as [j|] eqn:E.
  - apply index_from_spec in E as [_ E]. rewrite Nat.sub_0_r in E. split.
    + intros H. inversion H; subst. exact E.
    + intros H. f_equal. destruct E as [E1 E2], H as [H1 H2].
      destruct (Nat.lt_trichotomy i j) as [Hlt | [-> | Hgt]]; [|reflexivity|].
      * exfalso. apply (E2 i Hlt H1).
      * exfalso. apply (H2 j Hgt E1).
  - split; [discriminate|]. intros H.
    assert (Hs : index_from t l 0 = Some i).
    { apply index_from_spec. rewrite Nat.sub_0_r. split; [lia | exact H]. }
    congruence.
Qed.

Lemma get_func_graph_output_Some g t out :
  get_func_graph_output g t = Ok (Some out) <-> func_graph_output g t out.
Proof.
  unfold get_func_graph_output, func_graph_output.
  destruct (py_in t (fg_outputs g)) eqn:E.
  - apply py_in_true in E. split.
    + intros H. inversion H; subst. left. auto.
    + intros [[_ ->] | [Hn _]]; [reflexivity | contradiction].
  - apply py_in_false in E. split.
    + intros H. inv_bind H. apply py_getitem_Ok in Ha.
      destruct (decide (op_type a = "Identity")) as [Hid|]; [|discriminate].
      inv_bind H. apply py_getitem_Ok in Ha0.
      destruct (py_in a0 (fg_outputs g)) eqn:E2; [|discriminate].
      inversion H; subst. apply py_in_true in E2.
      right. split; [exact E|]. exists a. auto.
    + intros [[Hin _] | (_ & op & Hc & Hid & Ho & Hin)]; [contradiction|].
      unfold py_getitem. rewrite Hc. simpl.
      destruct (decide (op_type op = "Identity")); [|contradiction].
      rewrite Ho. simpl. apply py_in_true in Hin. rewrite Hin. reflexivity.
Qed.

Lemma get_accumulator_loop_Some g tensor cs out :
  (forall c, c ∈ cs -> c ∈ consumers g tensor) ->
  get_accumulator_loop g cs = Ok (Some out) ->
  exists consumer, consumer ∈ cs /\ accumulates g tensor consumer out.
Proof.
  induction cs as [|c cs IH]; intros Hsub H; simpl in H; [discriminate|].
  assert (Hrest : forall c', c' ∈ cs -> c' ∈ consumers g tensor)
    by (intros c' Hc'; apply Hsub; right; exact Hc').
  assert (Hnext : get_accumulator_loop g cs = Ok (Some out) ->
                  exists consumer, consumer ∈ c :: cs /\ accumulates g tensor consumer out).
  { intros H'. destruct (IH Hrest H') as (c' & Hc' & Hacc).
    exists c'. split; [right; exact Hc' | exact Hacc]. }
  destruct (decide (op_type c = "TensorListPushBack")) as [Hty|]; [|auto].
  inv_bind H. apply py_getitem_Ok in Ha.
  destruct (py_in a (fg_inputs g)) eqn:Ein; [|auto].
  inv_bind H. apply py_getitem_Ok in Ha0. inv_bind H.
  destruct a1 as [output|]; [|auto].
  inv_bind H. inv_bind H.
  destruct (decide (a1 = a2)) as [->|]; [|auto].
  inversion H; subst output.
  exists c. split; [left|].
  split; [apply Hsub; left | split; [exact Hty|]].
  exists a, a0, a2. repeat split; try assumption.
  - apply get_func_graph_output_Some. exact Ha1.
  - apply py_index_Ok in Ha2. apply Ha2.
  - apply py_index_Ok in Ha2. apply Ha2.
  - apply py_index_Ok in Ha3. apply Ha3.
  - apply py_index_Ok in Ha3. apply Ha3.
Qed.

Lemma get_accumulator_loop_None g tensor cs :
  get_accumulator_loop g cs = Ok None ->
  forall consumer out, consumer ∈ cs -> ~ accumulates g tensor consumer out.
Proof.
  induction cs as [|c cs IH]; intros H consumer out Hin Hacc; simpl in H.
  - apply elem_of_nil in Hin. contradiction.
  - apply elem_of_cons in Hin as [-> | Hin].
    + destruct Hacc as (_ & Hty & input_tl & output_tl & i & Hi & Ho & Hfo & Hfi & Hfj).
      destruct (decide (op_type c = "TensorListPushBack")); [|contradiction].
      unfold py_getitem in H. rewrite Hi in H. simpl in H.
      assert (Ein : py_in input_tl (fg_inputs g) = true).
      { apply py_in_true. apply list_elem_of_lookup. exists i. apply Hfi. }
      rewrite Ein, Ho in H. simpl in H.
      apply get_func_graph_output_Some in Hfo. rewrite Hfo in H. simpl in H.
      apply py_index_Ok in Hfi, Hfj. rewrite Hfi, Hfj in H. simpl in H.
      destruct (decide (i = i)); [discriminate | contradiction].
    + assert (Hcs : get_accumulator_loop g cs = Ok None).
      { destruct (decide (op_type c = "TensorListPushBack")); [|exact H].
        inv_bind H. destruct (py_in a (fg_inputs g)); [|exact H].
        inv_bind H. inv_bind H. destruct a1 as [output|]; [|exact H].
        inv_bind H. inv_bind H. destruct (decide (a1 = a2)); [discriminate | exact H]. }
      exact (IH Hcs consumer out Hin Hacc).
Qed.

(** ** Accumulated tensors are detected *)

Lemma index_from_app t l l' :
  forall k i, index_from t l k = Some i -> index_from t (l ++ l') k = Some i.
Proof.
  induction l as [|x l IH]; intros k i H; simpl in *; [discriminate|].
  destruct (decide (x = t)); [exact H | apply IH; exact H].
Qed.

Lemma py_index_app l l' t i : py_index l t = Ok i -> py_index (l ++ l') t = Ok i.
Proof.
  unfold py_index. destruct (index_from t l 0) as [j|] eqn:E; [|discriminate].
  rewrite (index_from_app _ _ l' _ _ E). trivial.
Qed.

Lemma index_from_end t l :
  forall k, t ∉ l -> index_from t (l ++ [t]) k = Some (k + length l).
Proof.
  induction l as [|x l IH]; intros k Hn; simpl.
  - destruct (decide (t = t)); [f_equal; lia | contradiction].
  - destruct (decide (x = t)) as [->|Hne].
    + exfalso. apply Hn. left.
    + rewrite IH by (intros H; apply Hn; right; exact H). f_equal. lia.
Qed.

Lemma py_index_end l t : t ∉ l -> py_index (l ++ [t]) t = Ok (length l).
Proof. intros Hn. unfold py_index. rewrite index_from_end by exact Hn. reflexivity. Qed.

Lemma op_inputs_tensors_of g op t :
  op ∈ fg_operations g -> t ∈ op_inputs op -> t ∈ tensors_of g.
Proof.
  intros Hop Ht. unfold tensors_of. rewrite !elem_of_app. right. right.
  apply list_elem_of_bind. exists op. split; [|exact Hop].
  apply elem_of_app. left. exact Ht.
Qed.

Lemma op_outputs_tensors_of g op t :
  op ∈ fg_operations g -> t ∈ op_outputs op -> t ∈ tensors_of g.
Proof.
  intros Hop Ht. unfold tensors_of. rewrite !elem_of_app. right. right.
  apply list_elem_of_bind. exists op. split; [|exact Hop].
  apply elem_of_app. right. exact Ht.
Qed.

Lemma get_accumulator_loop_app g cs cs' :
  get_accumulator_loop g (cs ++ cs')
  = match get_accumulator_loop g cs with
    | Ok None => get_accumulator_loop g cs'
    | r => r
    end.
Proof.
  induction cs as [|c cs IH]; simpl; [reflexivity|].
  destruct (decide (op_type c = "TensorListPushBack")); [|exact IH].
  destruct (py_getitem (op_inputs c) 0) as [input_tl|?]; simpl; [|reflexivity].
  destruct (py_in input_tl (fg_inputs g)); [|exact IH].
  destruct (py_getitem (op_outputs c) 0) as [output_tl|?]; simpl; [|reflexivity].
  destruct (get_func_graph_output g output_tl) as [[output|]|?]; simpl;
    [|exact IH|reflexivity].
  destruct (py_index (fg_inputs g) input_tl) as [i|?]; simpl; [|reflexivity].
  destruct (py_index (fg_outputs g) output) as [j|?]; simpl; [|reflexivity].
  destruct (decide (i = j)); [reflexivity | exact IH].
Qed.

Section Extension.

(** [g'] is [g] with further operations, inputs and outputs, the new inputs
    and outputs being tensors [g] does not mention. *)
Variables (g g' : FuncGraph) (ops : list Operation) (ins outs : list Tensor).
Hypothesis Hops : fg_operations g' = fg_operations g ++ ops.
Hypothesis Hins : fg_inputs g' = fg_inputs g ++ ins.
Hypothesis Houts : fg_outputs g' = fg_outputs g ++ outs.
Hypothesis Hnew : forall t, t ∈ ins ++ outs -> t ∉ tensors_of g.

Lemma py_in_inputs_ext t :
  t ∈ tensors_of g -> py_in t (fg_inputs g') = py_in t (fg_inputs g).
Proof.
  intros Ht. unfold py_in. apply bool_decide_ext. rewrite Hins, elem_of_app.
  split; [|auto]. intros [H|H]; [exact H|].
  exfalso. apply (Hnew t); [apply elem_of_app; left; exact H | exact Ht].
Qed.

Lemma py_in_outputs_ext t :
  t ∈ tensors_of g -> py_in t (fg_outputs g') = py_in t (fg_outputs g).
Proof.
  intros Ht. unfold py_in. apply bool_decide_ext. rewrite Houts, elem_of_app.
  split; [|auto]. intros [H|H]; [exact H|].
  exfalso. apply (Hnew t); [apply elem_of_app; right; exact H | exact Ht].
Qed.

Lemma consumers_ext t :
  consumers g' t = consumers g t ++ filter (fun op => t ∈ op_inputs op) ops.
Proof. unfold consumers. rewrite Hops. apply filter_app. Qed.

Lemma consumers_in g0 t c : c ∈ consumers g0 t -> c ∈ fg_operations g0 /\ t ∈ op_inputs c.
Proof. unfold consumers. intros H. apply list_elem_of_filter in H. tauto. Qed.

Lemma get_func_graph_output_ext t r :
  t ∈ tensors_of g ->
  get_func_graph_output g t = Ok r -> get_func_graph_output g' t = Ok r.
Proof.
  intros Ht. unfold get_func_graph_output.
  rewrite (py_in_outputs_ext t Ht).
  destruct (py_in t (fg_outputs g)); [trivial|].
  intros H. inv_bind H. apply py_getitem_Ok in Ha.
  assert (Hc : consumers g' t !! 0 = Some a).
  { rewrite consumers_ext. apply lookup_app_l_Some. exact Ha. }
  apply py_getitem_Ok in Hc. rewrite Hc. simpl.
  destruct (decide (op_type a = "Identity")); [|exact H].
  inv_bind H. rewrite Ha0. simpl.
  apply py_getitem_Ok in Ha0.
  rewrite py_in_outputs_ext; [exact H|].
  apply (op_outputs_tensors_of g a).
  - apply (consumers_in g t). eapply list_elem_of_lookup_2. exact Ha.
  - eapply list_elem_of_lookup_2. exact Ha0.
Qed.

Lemma get_accumulator_loop_ext cs r :
  (forall c, c ∈ cs -> c ∈ fg_operations g) ->
  get_accumulator_loop g cs = Ok r -> get_accumulator_loop g' cs = Ok r.
Proof.
  induction cs as [|c cs IH]; intros Hcs H; simpl in *; [exact H|].
  assert (Hc : c ∈ fg_operations g) by (apply Hcs; left).
  assert (Hcs' : forall c', c' ∈ cs -> c' ∈ fg_operations g)
    by (intros c' Hc'; apply Hcs; right; exact Hc').
  destruct (decide (op_type c = "TensorListPushBack")); [|apply IH; assumption].
  inv_bind H. rewrite Ha. simpl. apply py_getitem_Ok in Ha.
  rewrite py_in_inputs_ext
    by (apply (op_inputs_tensors_of g c); [exact Hc | eapply list_elem_of_lookup_2; exact Ha]).
  destruct (py_in a (fg_inputs g)) eqn:Ein; [|apply IH; assumption].
  inv_bind H. rewrite Ha0. simpl. apply py_getitem_Ok in Ha0.
  inv_bind H.
  rewrite (get_func_graph_output_ext a0 a1)
    by (first [ apply (op_outputs_tensors_of g c);
                [exact Hc | eapply list_elem_of_lookup_2; exact Ha0]
              | exact Ha1 ]).
  simpl. destruct a1 as [output|]; [|apply IH; assumption].
  inv_bind H. inv_bind H.
  rewrite Hins, Houts.
  rewrite (py_index_app _ ins _ _ Ha2), (py_index_app _ outs _ _ Ha3). simpl.
  destruct (decide (a1 = a2)); [exact H | apply IH; assumption].
Qed.

End Extension.

Lemma pushback_detected g1 (ins outs : list Tensor) ph appended it name :
  fg_inputs g1 = ins ++ [ph] -> fg_outputs g1 = outs ++ [appended] ->
  ph ∉ ins -> appended ∉ outs -> length ins = length outs ->
  get_accumulator_loop g1 [mkOp name "TensorListPushBack" [ph; it] [appended] None]
  = Ok (Some appended).
Proof.
  intros Hi Ho Hph Happ Hlen. cbn [get_accumulator_loop op_type op_inputs op_outputs].
  destruct (decide ("TensorListPushBack" = "TensorListPushBack")) as [_|Hne];
    [|contradiction].
  cbn [py_getitem lookup list_lookup mbind result_bind].
  assert (E1 : py_in ph (fg_inputs g1) = true).
  { apply py_in_true. rewrite Hi. apply elem_of_app. right. left. }
  rewrite E1. unfold get_func_graph_output.
  assert (E2 : py_in appended (fg_outputs g1) = true).
  { apply py_in_true. rewrite Ho. apply elem_of_app. right. left. }
  rewrite E2, Hi, Ho. cbn [mbind result_bind].
  rewrite (py_index_end _ _ Hph), (py_index_end _ _ Happ). cbn [mbind result_bind].
  destruct (decide (length ins = length outs)); [reflexivity | contradiction].
Qed.

Lemma wf_names_fresh g t :
  wf_names g -> t_graph t = fg_name g -> fg_next_name g <= t_op_name t ->
  t ∉ tensors_of g.
Proof.
  intros Hwf Hg Hn Hin. unfold wf_names in Hwf. rewrite Forall_forall in Hwf.
  specialize (Hwf t Hin Hg). lia.
Qed.

Section AccumulateOne.

Variables (a : Assembly) (it : Tensor).
Hypothesis Hwf : wf_assembly a.
Hypothesis Hnames : wf_names (as_body_graph a).
Hypothesis Hit : t_graph it = fg_name (as_body_graph a).
Hypothesis Hused : it ∈ tensors_of (as_body_graph a).
Hypothesis Hlen :
  length (fg_inputs (as_body_graph a)) = length (fg_outputs (as_body_graph a)).

Lemma accumulate_one_tensors_of t :
  t ∈ tensors_of (as_body_graph (accumulate_one a it)) <->
  t ∈ tensors_of (as_body_graph a)
  \/ t = mkTensor (fg_name (as_body_graph a)) (fg_next_name (as_body_graph a)) 0
           DT_VARIANT scalar
  \/ t = mkTensor (fg_name (as_body_graph a)) (S (fg_next_name (as_body_graph a))) 0
           DT_VARIANT scalar.
Proof.
  clear Hnames Hlen. rewrite (accumulate_one_eq a it Hwf Hit). cbv zeta.
  pose proof Hused as Hused'. revert Hused'. unfold tensors_of.
  cbn [as_body_graph fg_inputs fg_outputs fg_operations].
  rewrite !bind_app. cbn [mbind list_bind op_inputs op_outputs app].
  rewrite !elem_of_app, !elem_of_cons, !elem_of_nil.
  intros Hused'. split; intros H; intuition (subst; tauto).
Qed.

Lemma accumulate_one_wf_names : wf_names (as_body_graph (accumulate_one a it)).
Proof.
  clear Hlen. unfold wf_names. apply Forall_forall. intros t Ht Hg.
  destruct (accumulate_one_wf a it Hwf Hit) as [_ Hn].
  destruct (accumulate_one_fields a it Hwf Hit) as (_ & _ & (_ & Hx) & _).
  rewrite Hx. apply accumulate_one_tensors_of in Ht as [Ht | [-> | ->]]; cbn; try lia.
  unfold wf_names in Hnames. rewrite Forall_forall in Hnames.
  rewrite Hn in Hg. specialize (Hnames t Ht Hg). lia.
Qed.

Lemma accumulate_one_lengths :
  length (fg_inputs (as_body_graph (accumulate_one a it)))
  = length (fg_outputs (as_body_graph (accumulate_one a it))).
Proof.
  destruct (accumulate_one_fields a it Hwf Hit) as (_ & _ & _ & _ & _ & _ & Hi & Ho & _).
  rewrite Hi, Ho, !length_app. simpl. lia.
Qed.

(** One accumulation step keeps every accumulator that was found before it
    and makes the accumulator of the tensor it serves findable. *)
Lemma accumulate_one_get_accumulator it' r :
  _get_accumulator (as_body_graph a) it' = Ok r ->
  exists r',
    _get_accumulator (as_body_graph (accumulate_one a it)) it' = Ok r' /\
    (forall out, r = Some out -> r' = Some out) /\
    (it' = it -> exists out, r' = Some out).
Proof.
  intros H. rewrite (accumulate_one_eq a it Hwf Hit). cbv zeta.
  set (body := as_body_graph a) in *.
  set (ph := mkTensor (fg_name body) (fg_next_name body) 0 DT_VARIANT scalar).
  set (appended := mkTensor (fg_name body) (S (fg_next_name body)) 0 DT_VARIANT scalar).
  set (pl := mkOp (fg_next_name body) "Placeholder" [] [ph] None).
  set (pb := mkOp (S (fg_next_name body)) "TensorListPushBack" [ph; it] [appended] None).
  cbn [as_body_graph].
  set (body1 := mkFuncGraph _ _ _ _ _ _ _).
  assert (Hph : ph ∉ tensors_of body) by (apply wf_names_fresh; [exact Hnames | reflexivity | cbn; lia]).
  assert (Happ : appended ∉ tensors_of body)
    by (apply wf_names_fresh; [exact Hnames | reflexivity | cbn; lia]).
  assert (Hops : fg_operations body1 = fg_operations body ++ [pl; pb])
    by (cbn; rewrite <- app_assoc; reflexivity).
  assert (Hins : fg_inputs body1 = fg_inputs body ++ [ph]) by reflexivity.
  assert (Houts : fg_outputs body1 = fg_outputs body ++ [appended]) by reflexivity.
  assert (Hnew : forall t, t ∈ [ph] ++ [appended] -> t ∉ tensors_of body).
  { intros t Ht. cbn in Ht. rewrite !elem_of_cons, elem_of_nil in Ht.
    destruct Ht as [-> | [-> | []]]; assumption. }
  unfold _get_accumulator in *.
  rewrite (consumers_ext body body1 [pl; pb] Hops), get_accumulator_loop_app.
  rewrite (get_accumulator_loop_ext body body1 [pl; pb] [ph] [appended] Hops Hins Houts Hnew
             _ r (fun c Hc => proj1 (consumers_in body it' c Hc)) H).
  destruct r as [out|].
  - exists (Some out). split; [reflexivity | split; [auto | eauto]].
  - rewrite filter_cons_False by (cbn; apply not_elem_of_nil).
    rewrite filter_cons. cbn [op_inputs pb].
    destruct (decide (it' ∈ [ph; it])) as [Hin|Hnin].
    + rewrite filter_nil.
      unfold pb.
      rewrite (pushback_detected body1 (fg_inputs body) (fg_outputs body) ph appended it
                 (S (fg_next_name body)) Hins Houts).
      * exists (Some appended). split; [reflexivity | split; [discriminate | eauto]].
      * intros Hc. apply Hph. unfold tensors_of. apply elem_of_app. left. exact Hc.
      * intros Hc. apply Happ. unfold tensors_of. rewrite !elem_of_app. right. left. exact Hc.
      * exact Hlen.
    + rewrite filter_nil. exists None. split; [reflexivity | split; [discriminate|]].
      intros ->. exfalso. apply Hnin. right. left.
Qed.

End AccumulateOne.

(** Accumulating a list of tensors keeps every accumulator found before and
    makes the accumulator of each tensor of the list findable. *)
Lemma accumulate_get_accumulator its :
  forall a,
    wf_assembly a -> wf_names (as_body_graph a) ->
    length (fg_inputs (as_body_graph a)) = length (fg_outputs (as_body_graph a)) ->
    Forall (fun it => t_graph it = fg_name (as_body_graph a)
                      /\ it ∈ tensors_of (as_body_graph a)) its ->
    forall it' r,
      _get_accumulator (as_body_graph a) it' = Ok r ->
      exists r',
        _get_accumulator (as_body_graph (accumulate a its)) it' = Ok r' /\
        (forall out, r = Some out -> r' = Some out) /\
        (it' ∈ its -> exists out, r' = Some out).
Proof.
  unfold accumulate. induction its as [|it its IH]; intros a Hwf Hnames Hlen Hits it' r H.
  - exists r. split; [exact H | split; [auto|]]. intros Hin. apply elem_of_nil in Hin. contradiction.
  - inversion Hits as [|? ? [Hit Hused] Hits']; subst. cbn [foldl].
    destruct (accumulate_one_wf a it Hwf Hit) as [Hwf1 Hn1].
    destruct (accumulate_one_get_accumulator a it Hwf Hnames Hit Hlen it' r H)
      as (r1 & H1 & Hkeep1 & Hnew1).
    destruct (IH (accumulate_one a it) Hwf1
                (accumulate_one_wf_names a it Hwf Hnames Hit Hused)
                (accumulate_one_lengths a it Hwf Hit Hlen)) with (it' := it') (r := r1)
      as (r' & H' & Hkeep & Hnew); [|exact H1|].
    { apply Forall_forall. intros x Hx. rewrite Forall_forall in Hits'.
      destruct (Hits' x Hx) as [Hg Hu]. split; [congruence|].
      apply (accumulate_one_tensors_of a it Hwf Hit Hused). left. exact Hu. }
    exists r'. split; [exact H' | split].
    + intros out Hout. apply Hkeep, Hkeep1, Hout.
    + intros Hin. apply elem_of_cons in Hin as [-> | Hin]; [|exact (Hnew Hin)].
      destruct (Hnew1 eq_refl) as (out & ->). exists out. apply Hkeep. reflexivity.
Qed.

Lemma candidate_outputs_tensors_of g o : o ∈ candidate_outputs g -> o ∈ tensors_of g.
Proof.
  unfold candidate_outputs. intros Ho.
  apply list_elem_of_bind in Ho as (op & Ho & Hop).
  apply list_elem_of_filter in Hop as [_ Hop].
  exact (op_outputs_tensors_of g op o Hop Ho).
Qed.

Lemma accumulate_one_wf_outputs a it :
  wf_assembly a -> t_graph it = fg_name (as_body_graph a) ->
  wf_outputs (as_body_graph a) -> wf_outputs (as_body_graph (accumulate_one a it)).
Proof.
  intros Hwf Hit Hout. rewrite (accumulate_one_eq a it Hwf Hit). cbv zeta.
  unfold wf_outputs in *. cbn [as_body_graph fg_operations fg_name].
  repeat (apply Forall_app; split); [exact Hout | |];
    repeat constructor.
Qed.

Lemma accumulate_wf_outputs its :
  forall a,
    wf_assembly a -> Forall (fun it => t_graph it = fg_name (as_body_graph a)) its ->
    wf_outputs (as_body_graph a) -> wf_outputs (as_body_graph (accumulate a its)).
Proof.
  unfold accumulate. induction its as [|it its IH]; intros a Hwf Hits Hout; simpl.
  - exact Hout.
  - inversion Hits as [|? ? Hit Hits']; subst.
    destruct (accumulate_one_wf a it Hwf Hit) as [Hwf1 Hn1].
    apply (IH (accumulate_one a it) Hwf1).
    + rewrite Hn1. exact Hits'.
    + apply accumulate_one_wf_outputs; assumption.
Qed.

(** One new output per selected tensor: the accumulation over the tensors
    [_get_intermediates] selects adds that many outputs to the body. *)
Lemma accumulate_outputs_length a l :
  wf_assembly a -> wf_outputs (as_body_graph a) ->
  _get_intermediates (as_body_graph a) = Ok l ->
  length (fg_outputs (as_body_graph (accumulate a l)))
  = length (fg_outputs (as_body_graph a)) + length l.
Proof.
  intros Hwf Hout Hl. apply get_intermediates_Ok in Hl.
  assert (Hgraph : Forall (fun it => t_graph it = fg_name (as_body_graph a)) l).
  { rewrite Hl. apply candidates_in_graph. exact Hout. }
  destruct (accumulate_spec l a Hwf Hgraph) as (_ & _ & _ & _ & Hbo & _).
  rewrite Hbo, length_app, fresh_tensors_length. reflexivity.
Qed.

(** C7, as amended.  An existing accumulator of a tensor is found exactly by
    a TensorListPushBack consumer whose list argument is an input of the
    graph and whose result (or its Identity) is an output of the graph at the
    same index.  A tensor for which one is found is not selected again, so it
    is given no second accumulator: the accumulation adds one body output per
    selected tensor, each of which had no accumulator, and nothing when
    nothing is selected.  After the accumulation over a body with as many
    inputs as outputs, each tensor that was given an accumulator is found to
    have one; a second run over the accumulated body selects none of them
    and adds one output per tensor it does select. *)
Theorem accumulation_is_idempotent (a : Assembly) :
  let g := as_body_graph a in
  (forall tensor out,
     _get_accumulator g tensor = Ok (Some out) ->
     exists consumer, accumulates g tensor consumer out) /\
  (forall tensor,
     _get_accumulator g tensor = Ok None ->
     forall consumer out, ~ accumulates g tensor consumer out) /\
  (forall tensor out l,
     _get_accumulator g tensor = Ok (Some out) ->
     _get_intermediates g = Ok l -> tensor ∉ l) /\
  (forall l,
     (forall o, o ∈ candidate_outputs g -> excluded g o) ->
     _get_intermediates g = Ok l ->
     l = [] /\ accumulate a l = a) /\
  (forall l,
     wf_assembly a -> wf_outputs g ->
     _get_intermediates g = Ok l ->
     Forall (fun it => _get_accumulator g it = Ok None) l /\
     length (fg_outputs (as_body_graph (accumulate a l))) = length (fg_outputs g) + length l) /\
  (forall l,
     wf_assembly a -> wf_outputs g -> wf_names g ->
     length (fg_inputs g) = length (fg_outputs g) ->
     _get_intermediates g = Ok l ->
     let a' := accumulate a l in
     let g' := as_body_graph a' in
     Forall (fun it => exists out, _get_accumulator g' it = Ok (Some out)) l /\
     forall l',
       _get_intermediates g' = Ok l' ->
       Forall (fun it => it ∉ l') l /\
       length (fg_outputs (as_body_graph (accumulate a' l')))
       = length (fg_outputs g') + length l').
Proof.
  cbv zeta. split; [|split; [|split; [|split; [|split]]]].
  - intros tensor out H.
    destruct (get_accumulator_loop_Some _ tensor _ out (fun c Hc => Hc) H) as (c & _ & Hc).
    exists c. exact Hc.
  - intros tensor H consumer out Hacc.
    apply (get_accumulator_loop_None _ tensor _ H consumer out); [apply Hacc | exact Hacc].
  - intros tensor out l Hacc Hl Hin.
    apply get_intermediates_Ok in Hl. subst l.
    apply list_elem_of_filter in Hin as [(_ & _ & Hnone) _]. congruence.
  - intros l Hex Hl. apply get_intermediates_Ok in Hl.
    assert (El : l = []).
    { apply elem_of_nil_inv. intros o Ho. subst l.
      apply list_elem_of_filter in Ho as [(Hc & Hres & Hnone) Ho].
      destruct (Hex o Ho) as [H | [H | (acc & H)]]; [contradiction | contradiction | congruence]. }
    subst l. rewrite El. split; reflexivity.
  - intros l Hwf Hout Hl. split.
    + apply get_intermediates_Ok in Hl. subst l. apply Forall_forall. intros it Hit.
      apply list_elem_of_filter in Hit as [(_ & _ & Hnone) _]. exact Hnone.
    + apply accumulate_outputs_length; assumption.
  - intros l Hwf Hout Hnames Hlen Hl. pose proof Hl as Hl0. apply get_intermediates_Ok in Hl.
    assert (Hgraph : Forall (fun it => t_graph it = fg_name (as_body_graph a)) l).
    { rewrite Hl. apply candidates_in_graph. exact Hout. }
    assert (Hits : Forall (fun it => t_graph it = fg_name (as_body_graph a)
                                     /\ it ∈ tensors_of (as_body_graph a)) l).
    { apply Forall_forall. intros it Hit. split.
      - rewrite Forall_forall in Hgraph. apply Hgraph. exact Hit.
      - subst l. apply list_elem_of_filter in Hit as [_ Hit].
        apply candidate_outputs_tensors_of. exact Hit. }
    assert (Hfound : Forall (fun it => exists out,
                               _get_accumulator (as_body_graph (accumulate a l)) it
                               = Ok (Some out)) l).
    { apply Forall_forall. intros it Hit.
      assert (Hnone : _get_accumulator (as_body_graph a) it = Ok None).
      { rewrite Hl in Hit. apply list_elem_of_filter in Hit as [(_ & _ & Hnone) _].
        exact Hnone. }
      destruct (accumulate_get_accumulator l a Hwf Hnames Hlen Hits it None Hnone)
        as (r' & Hr' & _ & Hnew).
      destruct (Hnew Hit) as (out & ->). exists out. exact Hr'. }
    split; [exact Hfound|].
    intros l' Hl'. split.
    + apply get_intermediates_Ok in Hl'.
      apply Forall_forall. intros it Hit Hin.
      rewrite Forall_forall in Hfound. destruct (Hfound it Hit) as (out & Hacc).
      rewrite Hl' in Hin. apply list_elem_of_filter in Hin as [(_ & _ & Hnone) _]. congruence.
    + apply accumulate_outputs_length; [| |exact Hl'].
      * apply (accumulate_wf l a Hwf Hgraph).
      * apply accumulate_wf_outputs; assumption.
Qed.

(** The worked loop: each of its five intermediates had no accumulator and
    adds one output; after the accumulation they are found to be
    accumulated, and a second run skips them and adds one output per tensor
    it selects. *)
Lemma accumulation_is_idempotent_witness :
  let a := ex_before_accumulation in
  exists l,
    _get_intermediates (as_body_graph a) = Ok l /\ l <> [] /\
    (Forall (fun it => _get_accumulator (as_body_graph a) it = Ok None) l /\
     length (fg_outputs (as_body_graph (accumulate a l)))
     = length (fg_outputs (as_body_graph a)) + length l) /\
    Forall (fun it => exists out,
              _get_accumulator (as_body_graph (accumulate a l)) it = Ok (Some out)) l /\
    forall l', _get_intermediates (as_body_graph (accumulate a l)) = Ok l' ->
               Forall (fun it => it ∉ l') l /\
               length (fg_outputs (as_body_graph (accumulate (accumulate a l) l')))
               = length (fg_outputs (as_body_graph (accumulate a l))) + length l'.
Proof.
  cbv zeta.
  destruct (accumulation_is_idempotent ex_before_accumulation) as (_ & _ & _ & _ & H4 & H5).
  assert (Hwf : wf_assembly ex_before_accumulation).
  { split; (split; [simpl; lia | intros k Hk; apply elem_of_nil in Hk; contradiction]). }
  assert (Hout : wf_outputs (as_body_graph ex_before_accumulation)).
  { unfold wf_outputs. simpl. repeat constructor. }
  eexists. split; [vm_compute; reflexivity|]. split; [discriminate|]. split.
  - apply H4; [exact Hwf | exact Hout | vm_compute; reflexivity].
  - apply H5.
    + exact Hwf.
    + exact Hout.
    + unfold wf_names. vm_compute. repeat constructor; lia.
    + reflexivity.
    + vm_compute. reflexivity.
Defined.

(** C7 as stated fails: the output count is not unchanged.  In the assembled
    body of the worked loop each of the five accumulated tensors has an
    accumulator, and running the selection and the accumulation over that
    body again takes it from 7 outputs to 12: the five lists the first run
    appended are themselves selected. *)
Lemma accumulating_twice_adds_outputs :
  let g := as_body_graph ex_assembly in
  Forall (fun it => exists out, _get_accumulator g it = Ok (Some out))
    [mkTensor 2 1 0 DT_INT32 scalar; mkTensor 2 2 0 DT_INT32 scalar;
     mkTensor 2 3 0 DT_INT32 scalar; mkTensor 2 4 0 DT_FLOAT scalar;
     mkTensor 2 5 0 DT_FLOAT scalar] /\
  exists l,
    _get_intermediates g = Ok l /\
    length (fg_outputs g) = 7 /\
    length (fg_outputs (as_body_graph (accumulate ex_assembly l))) = 12.
Proof.
  cbv zeta. split.
  - repeat constructor; eexists; vm_compute; reflexivity.
  - eexists. split; [vm_compute; reflexivity|]. split; vm_compute; reflexivity.
Qed.

(** The five tensors accumulated by the worked loop are found to have an
    accumulator in the assembled body, and a second selection over that body
    returns none of them. *)
Example worked_loop_second_selection :
  let g := as_body_graph ex_assembly in
  Forall (fun it => exists out, _get_accumulator g it = Ok (Some out))
    [mkTensor 2 1 0 DT_INT32 scalar; mkTensor 2 2 0 DT_INT32 scalar;
     mkTensor 2 3 0 DT_INT32 scalar; mkTensor 2 4 0 DT_FLOAT scalar;
     mkTensor 2 5 0 DT_FLOAT scalar]
  /\ exists l, _get_intermediates g = Ok l /\
               Forall (fun it => t_dtype it = DT_VARIANT) l.
Proof.
  cbv zeta. split.
  - repeat constructor; eexists; vm_compute; reflexivity.
  - eexists. split; [vm_compute; reflexivity|]. repeat constructor.
Qed.

(** ** The value returned by [while_loop] *)

Lemma packed_nest_spec {A B} (s : nest A) :
  forall (l rest : list B),
    length l = length (flatten s) ->
    exists p, packed_nest s (l ++ rest) = Some (p, rest) /\
              same_structure s p = true /\ flatten p = l.
Proof.
  induction s as [a|ss IH] using nest_ind'; intros l rest Hlen.
  - destruct l as [|b [|b' l]]; simpl in Hlen; try discriminate.
    exists (Leaf b). simpl. auto.
  - cbn [packed_nest same_structure flatten] in *.
    assert (Hgo : forall l rest,
               length l = length (concat (map flatten ss)) ->
               exists ps,
                 (fix go (l0 : list (nest A)) (flat : list B) {struct l0}
                    : option (list (nest B) * list B) :=
                    match l0 with
                    | [] => Some ([], flat)
                    | x :: l1 =>
                        match packed_nest x flat with
                        | Some (y, flat') =>
                            match go l1 flat' with
                            | Some (ys, rest0) => Some (y :: ys, rest0)
                            | None => None
                            end
                        | None => None
                        end
                    end) ss (l ++ rest) = Some (ps, rest) /\
                 (fix go (l0 : list (nest A)) (l' : list (nest B)) {struct l0} : bool :=
                    match l0 with
                    | [] => match l' with [] => true | _ :: _ => false end
                    | x :: l1 =>
                        match l' with
                        | [] => false
                        | y :: l'0 => same_structure x y && go l1 l'0
                        end
                    end) ss ps = true /\
                 concat (map flatten ps) = l).
    { clear l rest Hlen. induction IH as [|x ss Hx _ IHss]; intros l rest Hlen.
      - destruct l; simpl in Hlen; [|discriminate]. exists []. simpl. auto.
      - simpl in Hlen. rewrite length_app in Hlen.
        assert (Hsplit : l = take (length (flatten x)) l ++ drop (length (flatten x)) l)
          by (symmetry; apply take_drop).
        assert (Hl1 : length (take (length (flatten x)) l) = length (flatten x))
          by (rewrite length_take; lia).
        assert (Hl2 : length (drop (length (flatten x)) l) = length (concat (map flatten ss)))
          by (rewrite length_drop; lia).
        destruct (Hx _ (drop (length (flatten x)) l ++ rest) Hl1) as (p & Hp & Hsp & Hfp).
        destruct (IHss _ rest Hl2) as (ps & Hps & Hsps & Hfps).
        exists (p :: ps). rewrite Hsplit at 1. rewrite <- app_assoc, Hp, Hps.
        simpl. rewrite Hsp, Hsps, Hfp, Hfps. repeat split. symmetry. exact Hsplit. }
    destruct (Hgo l rest Hlen) as (ps & Hps & Hsps & Hfps).
    exists (Seq ps). rewrite Hps. simpl. auto.
Qed.

Lemma pack_sequence_as_spec {A B} (s : nest A) (flat : list B) :
  length (flatten s) = length flat ->
  exists p, pack_sequence_as s flat = Ok p /\
            same_structure s p = true /\ flatten p = flat.
Proof.
  intros Hlen. unfold pack_sequence_as.
  destruct (decide (length (flatten s) = length flat)); [|contradiction].
  destruct (packed_nest_spec s flat [] (eq_sym Hlen)) as (p & Hp & Hs & Hf).
  rewrite app_nil_r in Hp. rewrite Hp. exists p. auto.
Qed.

Lemma same_structure_flatten_eq {A} (s : nest A) :
  forall p, same_structure s p = true -> flatten s = flatten p -> s = p.
Proof.
  induction s as [a|ss IH] using nest_ind'; intros [b|ps]; simpl; try discriminate.
  - intros _ H. inversion H. reflexivity.
  - intros Hs Hf. f_equal. revert ps Hs Hf.
    induction IH as [|x ss Hx _ IHss]; intros [|y ps]; simpl; try discriminate.
    + reflexivity.
    + intros Hs Hf. apply andb_true_iff in Hs as [Hs1 Hs2].
      apply app_inj_1 in Hf as [Hf1 Hf2];
        [|apply same_structure_flatten_length; exact Hs1].
      f_equal; [apply Hx; assumption | apply IHss; assumption].
Qed.

Lemma pack_sequence_as_flatten {A} (s : nest A) : pack_sequence_as s (flatten s) = Ok s.
Proof.
  destruct (pack_sequence_as_spec s (flatten s) eq_refl) as (p & Hp & Hs & Hf).
  rewrite Hp. f_equal. symmetry. apply same_structure_flatten_eq; [exact Hs | congruence].
Qed.

Lemma flow_to_tensor_array_flow (v : LoopVar) :
  flow_to_tensor_array
    (match v with LV_TensorArray ta => ta_flow ta | LV_Tensor t => t end) v = v.
Proof. destruct v as [t|[]]; reflexivity. Qed.

Lemma _pack_sequence_as_roundtrip (s : nest LoopVar) :
  _pack_sequence_as s (flatten (_tensor_array_to_flow s)) = Ok s.
Proof.
  unfold _pack_sequence_as, _tensor_array_to_flow.
  rewrite flatten_map_structure.
  replace ((fun z : Tensor * LoopVar => flow_to_tensor_array z.1 z.2) <$> zip _ (flatten s))
    with (flatten s); [apply pack_sequence_as_flatten|].
  induction (flatten s) as [|v l IH]; [reflexivity|].
  cbn [fmap list_fmap zip zip_with fst snd]. rewrite flow_to_tensor_array_flow.
  f_equal. exact IH.
Qed.

Lemma _pack_sequence_as_spec (s : nest LoopVar) (loop_vars : list Tensor) :
  length loop_vars = length (flatten s) ->
  exists r, _pack_sequence_as s loop_vars = Ok r /\
            same_structure s r = true /\
            flatten r = (fun z : Tensor * LoopVar => flow_to_tensor_array z.1 z.2)
                          <$> zip loop_vars (flatten s).
Proof.
  intros Hlen. unfold _pack_sequence_as. apply pack_sequence_as_spec.
  rewrite length_fmap, length_zip_with. lia.
Qed.

Lemma new_outputs_length g name outs : length (new_outputs g name outs) = length outs.
Proof. unfold new_outputs. apply length_imap. Qed.

Lemma identities_length outputs :
  forall outer, length (identities outer outputs).1 = length outputs.
Proof.
  induction outputs as [|t outputs IH]; intros outer; simpl; [reflexivity|].
  unfold add_op1, add_op, add_op_with_value. cbv beta iota zeta.
  match goal with |- context [identities ?o outputs] =>
    specialize (IH o); destruct (identities o outputs) as [ts o'] end.
  simpl in *. congruence.
Qed.

Lemma while_loop_assemble_arity
    trace_cond trace_body outer orig_loop_vars shape_invariants a :
  while_loop_assemble trace_cond trace_body outer orig_loop_vars shape_invariants = Ok a ->
  _check_num_inputs_outputs (as_cond_graph a) (as_body_graph a)
    (length (flatten (Seq (as_loop_vars a)))) = Ok tt.
Proof.
  intros H. unfold while_loop_assemble in H.
  apply bind_Ok in H as (si & _ & H). destruct (constant outer 0%N) as [lc o1].
  apply bind_Ok in H as (cg & _ & H). apply bind_Ok in H as (bg & _ & H).
  apply bind_Ok in H as (cg' & _ & H). apply bind_Ok in H as (ints & _ & H).
  apply bind_Ok in H as ([] & _ & H). apply bind_Ok in H as ([] & Har & H).
  inversion H; subst. exact Har.
Qed.

Lemma while_loop_Ok trace_cond trace_body outer orig_loop_vars shape_invariants r outer' :
  while_loop trace_cond trace_body outer orig_loop_vars shape_invariants = Ok (r, outer') ->
  exists a outputs,
    while_loop_assemble trace_cond trace_body outer orig_loop_vars shape_invariants = Ok a /\
    length outputs = length (flatten (Seq (as_loop_vars a))) /\
    length (fg_outputs (as_body_graph a)) = length (flatten (Seq (as_loop_vars a))) /\
    while_loop_return orig_loop_vars outputs = Ok r.
Proof.
  unfold while_loop. intros H. inv_bind H.
  unfold add_op, add_op_with_value in H. cbv beta iota zeta in H.
  match type of H with context [identities ?o ?outs] =>
    pose proof (identities_length outs o) as Hlen;
    destruct (identities o outs) as [outputs o'] end.
  inv_bind H. inversion H; subst. simpl in Hlen.
  exists a, outputs.
  assert (Harity : length (fg_outputs (as_body_graph a))
                   = length (flatten (Seq (as_loop_vars a)))).
  { pose proof (while_loop_assemble_arity _ _ _ _ _ _ Ha) as Har.
    apply check_num_inputs_outputs_Ok in Har. apply Har. }
  repeat split; try assumption.
  rewrite Hlen, new_outputs_length, length_fmap, length_zip_with. simpl in *. lia.
Qed.

Lemma while_loop_assemble_Ok_assembled
    trace_cond trace_body outer orig_loop_vars shape_invariants a :
  while_loop_assemble trace_cond trace_body outer orig_loop_vars shape_invariants = Ok a ->
  assembled trace_cond trace_body outer orig_loop_vars shape_invariants a.
Proof.
  intros H. unfold while_loop_assemble in H.
  apply bind_Ok in H as (si & Hsi & H).
  assert (Hs : si = effective_invariants orig_loop_vars shape_invariants /\
               match shape_invariants with
               | Some si => same_structure (Seq orig_loop_vars) (Seq si) = true
               | None => True
               end).
  { unfold effective_invariants. destruct shape_invariants as [si'|].
    - apply bind_Ok in Hsi as ([] & Hsame & Hsi). inversion Hsi; subst.
      split; [reflexivity|]. unfold assert_same_structure in Hsame.
      destruct (same_structure (Seq orig_loop_vars) (Seq si)); [reflexivity | discriminate].
    - inversion Hsi; subst. split; [reflexivity | exact I]. }
  destruct Hs as [-> Hstruct]. clear Hsi.
  destruct (constant outer 0%N) as [lc o1] eqn:Ec.
  apply bind_Ok in H as (cg & Hc & H). apply bind_Ok in H as (bg & Hb & H).
  apply bind_Ok in H as (cg' & Hr & H). apply bind_Ok in H as (ints & Hi & H).
  apply bind_Ok in H as ([] & _ & H). apply bind_Ok in H as ([] & _ & H).
  inversion H; subst a. clear H.
  eapply (Assembled _ _ _ _ _ _ cg bg cg' ints);
    unfold body_loop_vars, body_invariants, cond_loop_vars, cond_invariants, with_passthrough;
    rewrite ?Ec; simpl in *; eauto.
Qed.

Lemma add_op1_operations g type inputs d s :
  fg_operations (add_op1 g type inputs d s).2
  = fg_operations g
      ++ [mkOp (fg_next_name g) type inputs [(add_op1 g type inputs d s).1] None].
Proof. reflexivity. Qed.

Lemma identities_spec ws :
  forall outer,
    (forall op, op ∈ fg_operations outer -> op ∈ fg_operations (identities outer ws).2) /\
    Forall2 (fun w o =>
               exists name,
                 mkOp name "Identity" [w] [o] None ∈ fg_operations (identities outer ws).2)
      ws (identities outer ws).1.
Proof.
  induction ws as [|w ws IH]; intros outer.
  - simpl. split; [auto | constructor].
  - cbn [identities].
    destruct (add_op1 outer "Identity" [w] (t_dtype w) (t_shape w)) as [o outer1] eqn:E1.
    destruct (IH outer1) as [Hmono Hall].
    destruct (identities outer1 ws) as [os outer2] eqn:E2. cbn [fst snd] in *.
    pose proof (add_op1_operations outer "Identity" [w] (t_dtype w) (t_shape w)) as Hops.
    rewrite E1 in Hops. cbn [fst snd] in Hops.
    split.
    + intros op Hop. apply Hmono. rewrite Hops. apply elem_of_app. left. exact Hop.
    + constructor; [|exact Hall].
      eexists. apply Hmono. rewrite Hops. apply elem_of_app. right. left.
Qed.

(** C1, as amended.  The value [while_loop] returns is built from the
    identities of outputs [1 .. n] of the single While operation (output 0,
    the loop counter, is left out).  When the loop variables flatten to a
    number [n] of values other than one, the returned value has exactly the
    nesting of the input loop variables, with a TensorArray rebuilt around
    its flow wherever the input has a TensorArray; when they flatten to
    exactly one value, the single output tensor is returned bare.  Feeding
    the loop variables back unchanged (zero iterations) returns the input
    loop variables themselves in the first case. *)
Theorem while_loop_returns_loop_vars
    trace_cond trace_body outer orig_loop_vars shape_invariants r outer' :
  while_loop trace_cond trace_body outer orig_loop_vars shape_invariants = Ok (r, outer') ->
  let n := length (flatten (Seq orig_loop_vars)) in
  (exists a while_op outputs,
     while_loop_assemble trace_cond trace_body outer orig_loop_vars shape_invariants = Ok a /\
     while_op ∈ fg_operations outer' /\ op_type while_op = "While" /\
     op_inputs while_op = flatten (Seq (as_loop_vars a)) /\
     length (op_outputs while_op) = length (op_inputs while_op) /\
     1 + n <= length (op_outputs while_op) /\
     Forall2 (fun w o => exists name,
                mkOp name "Identity" [w] [o] None ∈ fg_operations outer')
       (op_outputs while_op) outputs /\
     (n <> 1 ->
      same_structure (Seq orig_loop_vars) r = true /\
      flatten r = (fun z : Tensor * LoopVar => flow_to_tensor_array z.1 z.2)
                    <$> zip (py_slice outputs 1 n) (flatten (Seq orig_loop_vars))) /\
     (n = 1 -> exists o, outputs !! 1 = Some o /\ r = Leaf (LV_Tensor o))) /\
  (n <> 1 ->
   forall counter rest,
     while_loop_return orig_loop_vars (counter :: validated_inputs orig_loop_vars ++ rest)
     = Ok (Seq orig_loop_vars)).
Proof.
  intros H n. split.
  - unfold while_loop in H. apply bind_Ok in H as (a & Ha & H).
    pose proof (while_loop_assemble_arity _ _ _ _ _ _ Ha) as Har.
    apply check_num_inputs_outputs_Ok in Har as (_ & _ & _ & Hbo).
    pose proof (assembled_loop_vars_length _ _ _ _ _ _
                  (while_loop_assemble_Ok_assembled _ _ _ _ _ _ Ha)) as Hn.
    unfold add_op, add_op_with_value in H. cbv beta iota zeta in H.
    match type of H with context [identities ?o ?outs] =>
      pose proof (identities_spec outs o) as [Hmono Hids];
      pose proof (identities_length outs o) as Hlen;
      destruct (identities o outs) as [outputs o'] eqn:Eid end.
    cbn [fst snd] in *.
    apply bind_Ok in H as (r' & Hret & H). inversion H; subst r' o'. clear H.
    match type of Hids with Forall2 _ ?ws _ => set (while_outputs := ws) in * end.
    assert (Hwl : length while_outputs = length (flatten (Seq (as_loop_vars a)))).
    { subst while_outputs. cbn [op_outputs].
      rewrite new_outputs_length, length_fmap, length_zip_with. lia. }
    eexists a, (mkOp _ "While" (flatten (Seq (as_loop_vars a))) while_outputs None), outputs.
    split; [exact Ha|]. split.
    { apply Hmono. cbn [fg_operations]. apply elem_of_app. right. left. }
    split; [reflexivity|]. split; [reflexivity|]. cbn [op_outputs op_inputs].
    split; [exact Hwl|]. split; [fold n in Hn; lia|]. split; [exact Hids|].
    unfold while_loop_return in Hret. fold n in Hret. split.
    + intros Hne. destruct (decide (n = 1)); [contradiction|].
      destruct (_pack_sequence_as_spec (Seq orig_loop_vars) (py_slice outputs 1 n))
        as (r' & Hr' & Hs & Hf).
      { unfold py_slice. rewrite length_take, length_drop. fold n in Hn. lia. }
      rewrite Hr' in Hret. inversion Hret; subst r'. split; assumption.
    + intros He. destruct (decide (n = 1)); [|contradiction].
      apply bind_Ok in Hret as (o & Ho & Hret). apply py_getitem_Ok in Ho.
      inversion Hret. exists o. split; [exact Ho | reflexivity].
  - intros Hne counter rest. unfold while_loop_return. fold n.
    destruct (decide (n = 1)); [contradiction|].
    replace (py_slice (counter :: validated_inputs orig_loop_vars ++ rest) 1 n)
      with (flatten (_tensor_array_to_flow (Seq orig_loop_vars))).
    + apply _pack_sequence_as_roundtrip.
    + unfold py_slice. cbn [drop]. rewrite drop_0.
      subst n. rewrite <- validated_inputs_length, take_app_length.
      unfold validated_inputs, _tensor_array_to_flow.
      rewrite flatten_Seq_map_structure, flatten_map_structure. reflexivity.
Qed.

Lemma while_loop_returns_loop_vars_witness :
  let n := length (flatten (Seq ex2_loop_vars)) in
  (exists a while_op outputs,
     while_loop_assemble (ex_trace ex2_cond_graph) (ex_trace ex2_body_graph) ex2_outer
       ex2_loop_vars None = Ok a /\
     while_op ∈ fg_operations ex2_returned.2 /\ op_type while_op = "While" /\
     op_inputs while_op = flatten (Seq (as_loop_vars a)) /\
     length (op_outputs while_op) = length (op_inputs while_op) /\
     1 + n <= length (op_outputs while_op) /\
     Forall2 (fun w o => exists name,
                mkOp name "Identity" [w] [o] None ∈ fg_operations ex2_returned.2)
       (op_outputs while_op) outputs /\
     (n <> 1 ->
      same_structure (Seq ex2_loop_vars) ex2_returned.1 = true /\
      flatten ex2_returned.1
      = (fun z : Tensor * LoopVar => flow_to_tensor_array z.1 z.2)
          <$> zip (py_slice outputs 1 n) (flatten (Seq ex2_loop_vars))) /\
     (n = 1 -> exists o, outputs !! 1 = Some o /\ ex2_returned.1 = Leaf (LV_Tensor o))) /\
  (n <> 1 ->
   forall counter rest,
     while_loop_return ex2_loop_vars (counter :: validated_inputs ex2_loop_vars ++ rest)
     = Ok (Seq ex2_loop_vars)).
Proof.
  apply (while_loop_returns_loop_vars (ex_trace ex2_cond_graph) (ex_trace ex2_body_graph)
           ex2_outer ex2_loop_vars None ex2_returned.1 ex2_returned.2).
  vm_compute. reflexivity.
Defined.

(** The two-variable loop returns [[i', [ta']]]: the nesting of its input,
    the TensorArray rebuilt around the new flow. *)
Example two_variable_loop_returns_structure :
  ex2_returned.1
  = Seq [Leaf (LV_Tensor (mkTensor 0 13 0 DT_INT32 scalar));
         Seq [Leaf (LV_TensorArray
                      (mkTensorArray DT_FLOAT ex2_handle (mkTensor 0 14 0 DT_FLOAT scalar)
                         true false [] None))]].
Proof. vm_compute. reflexivity. Qed.

(** C1 as stated fails for a single loop variable: [while_loop] over the
    list [[i]] returns a bare tensor, not a list of one tensor; and feeding
    the loop variables back unchanged (zero iterations) returns the bare
    [i], not [[i]]. *)
Lemma single_loop_var_is_returned_bare :
  (exists o outer',
     while_loop (ex_trace ex_cond_graph) (ex_trace ex_body_graph) ex_outer
       [Leaf (LV_Tensor ex_i)] None = Ok (Leaf (LV_Tensor o), outer') /\
     same_structure (Seq [Leaf (LV_Tensor ex_i)]) (Leaf (LV_Tensor o)) = false) /\
  (while_loop_return [Leaf (LV_Tensor ex_i)]
     (mkTensor 0 1 0 DT_FLOAT scalar :: validated_inputs [Leaf (LV_Tensor ex_i)])
   = Ok (Leaf (LV_Tensor ex_i)) /\
   same_structure (Seq [Leaf (LV_Tensor ex_i)]) (Leaf (LV_Tensor ex_i)) = false).
Proof.
  split.
  - eexists _, _. split; [vm_compute; reflexivity | reflexivity].
  - split; reflexivity.
Qed.

(** ** The gradient entry point *)

Lemma none_pad_spec grads outputs :
  forall index r,
    none_pad grads outputs index = Ok r ->
    length r = length grads /\
    (forall i, r !! i = Some None <-> grads !! i = Some None) /\
    omap id r = take (length (omap id r)) (drop index outputs).
Proof.
  induction grads as [|[g|] grads IH]; intros index r H; simpl in H.
  - inversion H; subst. simpl. repeat split; intros; try assumption.
  - inv_bind H. inv_bind H. inversion H; subst. clear H.
    apply py_getitem_Ok in Ha.
    destruct (IH _ _ Ha0) as (Hlen & Hnone & Hdense).
    split; [simpl; congruence|]. split.
    + intros [|i]; simpl; [split; discriminate | apply Hnone].
    + cbn [omap list_omap id length]. 
      rewrite (drop_S _ _ _ Ha). cbn [take]. f_equal. exact Hdense.
  - inv_bind H. inversion H; subst. clear H.
    destruct (IH _ _ Ha) as (Hlen & Hnone & Hdense).
    split; [simpl; congruence|]. split.
    + intros [|i]; simpl; [split; reflexivity | apply Hnone].
    + cbn [omap list_omap id]. exact Hdense.
Qed.

Lemma mapM_result_Ok {A B} (f : A -> result B) (l : list A) (r : list B) :
  mapM_result f l = Ok r <-> Forall2 (fun a b => f a = Ok b) l r.
Proof.
  revert r. induction l as [|a l IH]; intros r; simpl.
  - split; [intros H; inversion H; constructor | intros H; inversion H; reflexivity].
  - split.
    + intros H. inv_bind H. inv_bind H. inversion H; subst.
      constructor; [exact Ha | apply IH; exact Ha0].
    + intros H. inversion H as [|? b ? bs Hab Hrest]; subst.
      rewrite Hab. simpl. apply IH in Hrest. rewrite Hrest. reflexivity.
Qed.

Lemma none_pad_Ok grads outputs :
  forall index,
    index + length (omap id grads) <= length outputs ->
    exists r, none_pad grads outputs index = Ok r.
Proof.
  induction grads as [|[g|] grads IH]; intros index H; cbn [none_pad].
  - eexists. reflexivity.
  - cbn [omap list_omap id length] in H.
    destruct (lookup_lt_is_Some_2 outputs index) as [o Ho]; [lia|].
    apply py_getitem_Ok in Ho. rewrite Ho. cbn [mbind result_bind].
    destruct (IH (S index)) as (r & ->); [lia|]. eexists. reflexivity.
  - cbn [omap list_omap id] in H.
    destruct (IH index H) as (r & ->). eexists. reflexivity.
Qed.

Lemma grad_triples_length body_graph grads :
  length grads <= length (fg_outputs body_graph) ->
  length grads <= length (fg_inputs body_graph) ->
  length (grad_triples body_graph grads) = length (omap id grads).
Proof.
  unfold grad_triples. generalize (fg_outputs body_graph) (fg_inputs body_graph).
  induction grads as [|g grads IH]; intros outs ins Ho Hi.
  - destruct outs, ins; reflexivity.
  - destruct outs as [|o outs]; [simpl in Ho; lia|].
    destruct ins as [|x ins]; [simpl in Hi; lia|].
    simpl in Ho, Hi. cbn [zip3 omap list_omap snd id].
    destruct g as [g|]; cbn [length]; rewrite IH by lia; reflexivity.
Qed.

Lemma grad_triples_nonempty body_graph grads i g :
  grads !! i = Some (Some g) ->
  i < length (fg_outputs body_graph) -> i < length (fg_inputs body_graph) ->
  grad_triples body_graph grads <> [].
Proof.
  unfold grad_triples. generalize (fg_outputs body_graph) (fg_inputs body_graph).
  revert i. induction grads as [|g' grads IH]; intros i outs ins Hg Ho Hi.
  - discriminate.
  - destruct outs as [|o outs]; [simpl in Ho; lia|].
    destruct ins as [|x ins]; [simpl in Hi; lia|].
    cbn [zip3 omap list_omap snd]. destruct g' as [g'|]; [discriminate|].
    destruct i as [|i]; [discriminate|].
    simpl in Hg, Ho, Hi. apply (IH i outs ins Hg); lia.
Qed.

Section WhileGradFacts.

Variable graph_of : gid -> FuncGraph.
Variable maybe_captured : Tensor -> Tensor.
Variable IsTrainable : Tensor -> bool.
Variable _get_body_graph : Operation -> FuncGraph.
Variable trace_grad_fn :
  list Tensor -> list Tensor -> list Tensor -> FuncGraph -> Operation ->
  option (result WhileBodyGradFuncGraph).
Variable trace_grad_cond : list Tensor -> result FuncGraph.
Variable recursion_limit : nat.

Let is_handle := _is_tensor_array_handle graph_of maybe_captured.
Let WhileGrad :=
  _WhileGrad graph_of maybe_captured IsTrainable _get_body_graph trace_grad_fn
    trace_grad_cond recursion_limit.

(** Lines 258-261: the incoming gradients after the TensorArray override. *)
Let override (grads : list (option Tensor)) (outputs : list Tensor) :=
  mapM_result
    (fun z : option Tensor * Tensor =>
       b ← is_handle z.2; Ok (if b : bool then None else z.1))
    (zip grads outputs).

Lemma override_lookup grads outputs grads' :
  override grads outputs = Ok grads' ->
  length grads' = length grads `min` length outputs /\
  forall i g output,
    grads !! i = Some g -> outputs !! i = Some output ->
    exists b, is_handle output = Ok b /\ grads' !! i = Some (if b then None else g).
Proof.
  unfold override. rewrite mapM_result_Ok. intros H. split.
  - apply Forall2_length in H. rewrite <- H, length_zip_with. reflexivity.
  - intros i g output Hg Ho.
    assert (Hz : zip grads outputs !! i = Some (g, output)).
    { rewrite lookup_zip_with, Hg. simpl. rewrite Ho. reflexivity. }
    destruct (Forall2_lookup_l _ _ _ _ _ H Hz) as (g' & Hg' & Hf).
    simpl in Hf. inv_bind Hf. inversion Hf; subst. exists a. auto.
Qed.

Lemma override_insert grads outputs i output g' :
  outputs !! i = Some output -> is_handle output = Ok true ->
  override (<[i:=g']> grads) outputs = override grads outputs.
Proof.
  unfold override. revert outputs i.
  induction grads as [|g grads IH]; intros [|o outputs] [|i] Ho Hh; simpl in *;
    try reflexivity; try discriminate.
  - inversion Ho; subst. rewrite Hh. reflexivity.
  - rewrite (IH outputs i Ho Hh). reflexivity.
Qed.

Lemma WhileGrad_Ok outer op grads r outer' :
  WhileGrad outer op grads = Some (Ok (r, outer')) ->
  exists grads' while_op,
    override grads (op_outputs op) = Ok grads' /\
    last (fg_operations outer') = Some while_op /\ op_type while_op = "While" /\
    none_pad grads' (op_outputs while_op) 2 = Ok r.
Proof.
  unfold WhileGrad, _WhileGrad. fold is_handle. fold (override grads (op_outputs op)).
  destruct (override grads (op_outputs op)) as [grads'|e]; [|discriminate].
  cbn [mbind result_bind].
  destruct (py_assert _ _ _) as [[]|e]; [|discriminate]. cbn [mbind result_bind].
  destruct (decide (_ = [])); [discriminate|].
  destruct (_create_grad_func _ _ _ _ _ _ _) as [[[[bgg args] outer1]|e]|]; try discriminate.
  destruct (_get_intermediates _) as [ints|e]; [|discriminate].
  destruct (grad_accumulate _ _ _ _) as [[[bgg2 outer2]|e]|]; try discriminate.
  intros H. inversion H as [H']. clear H.
  inv_bind H'. inv_bind H'.
  unfold add_op, add_op_with_value in H'. cbv beta iota zeta in H'.
  inv_bind H'. inversion H'; subst. clear H'.
  eexists grads', _. split; [reflexivity|]. split.
  - cbn [fg_operations]. apply last_snoc.
  - split; [reflexivity | exact Ha1].
Qed.

End WhileGradFacts.

Section WhileGradSteps.

Variable graph_of : gid -> FuncGraph.
Variable maybe_captured : Tensor -> Tensor.
Variable IsTrainable : Tensor -> bool.
Variable _get_body_graph : Operation -> FuncGraph.
Variable trace_grad_fn :
  list Tensor -> list Tensor -> list Tensor -> FuncGraph -> Operation ->
  option (result WhileBodyGradFuncGraph).
Variable trace_grad_cond : list Tensor -> result FuncGraph.
Variable recursion_limit : nat.

Lemma is_tensor_array_handle_resource (t : Tensor) :
  _is_tensor_array_handle graph_of maybe_captured t = Ok true -> t_dtype t = DT_RESOURCE.
Proof.
  unfold _is_tensor_array_handle.
  destruct (decide (t_dtype t = DT_RESOURCE)); [auto | discriminate].
Qed.

Lemma create_grad_func_args outer ys xs grads func_graph while_op g args outer' :
  _create_grad_func trace_grad_fn outer ys xs grads func_graph while_op
  = Some (Ok (g, args, outer')) ->
  exists total_iters,
    op_outputs while_op !! 0 = Some total_iters /\
    args = [(constant outer 0%N).1; total_iters] ++ grads /\
    outer' = (constant outer 0%N).2.
Proof.
  unfold _create_grad_func.
  destruct (py_assert _ _ _) as [[]|?]; [|discriminate].
  destruct (constant outer 0%N) as [counter o1] eqn:Ec.
  destruct (py_getitem (op_outputs while_op) 0) as [total_iters|?] eqn:Et; [|discriminate].
  destruct (trace_grad_fn _ _ _ _ _) as [[tr|?]|]; try discriminate.
  intros H. inversion H as [H']. apply bind_Ok in H' as (g' & _ & H'). inversion H'; subst.
  exists total_iters. apply py_getitem_Ok in Et. auto.
Qed.

(** The assertion of lines 264-267 lets a request through when a gradient is
    absent only at outputs that are resources or not trainable. *)
Lemma trainable_outputs_have_gradients grads outputs grads' :
  length grads = length outputs ->
  overridden_grads graph_of maybe_captured grads outputs = Ok grads' ->
  (forall i output, outputs !! i = Some output -> grads !! i = Some None ->
     t_dtype output = DT_RESOURCE \/ IsTrainable output = false) ->
  forallb (fun z : Tensor * option Tensor =>
             bool_decide (z.2 ≠ None)
             || bool_decide (t_dtype z.1 = DT_RESOURCE)
             || negb (IsTrainable z.1))
    (zip outputs grads') = true.
Proof.
  intros Hlen Hov Habsent.
  apply (override_lookup graph_of maybe_captured) in Hov as [_ Hov].
  apply forallb_forall. intros [o g'] Hin.
  apply list_elem_of_In, list_elem_of_lookup_1 in Hin as (i & Hi).
  apply lookup_zip_with_Some in Hi as (o' & g'' & E & Ho & Hg'). inversion E; subst o' g''.
  destruct (lookup_lt_is_Some_2 grads i) as [g Hg].
  { rewrite Hlen. apply lookup_lt_Some in Ho. exact Ho. }
  destruct (Hov i g o Hg Ho) as (b & Hb & Hg''). rewrite Hg' in Hg''. inversion Hg''; subst g'.
  cbn [fst snd]. destruct b.
  - apply is_tensor_array_handle_resource in Hb.
    rewrite (bool_decide_eq_true_2 _ Hb). rewrite orb_true_r. reflexivity.
  - destruct g as [g|]; [reflexivity|].
    destruct (Habsent i o Ho Hg) as [Hr | Ht].
    + rewrite (bool_decide_eq_true_2 _ Hr). rewrite orb_true_r. reflexivity.
    + rewrite Ht. apply orb_true_r.
Qed.

(** [_WhileGrad] returns exactly when each of its steps does. *)
Lemma WhileGrad_returns outer op grads r outer' :
  _WhileGrad graph_of maybe_captured IsTrainable _get_body_graph trace_grad_fn
    trace_grad_cond recursion_limit outer op grads = Some (Ok (r, outer')) <->
  exists grads' body_grad_graph args outer1 intermediate_tensors body_grad_graph' outer2
         cond_grad_graph while_op,
    let body_graph := _get_body_graph op in
    let triples := grad_triples body_graph grads' in
    let loop_vars := args ++ external_captures (gg_graph body_grad_graph') in
    overridden_grads graph_of maybe_captured grads (op_outputs op) = Ok grads' /\
    forallb (fun z : Tensor * option Tensor =>
               bool_decide (z.2 ≠ None)
               || bool_decide (t_dtype z.1 = DT_RESOURCE)
               || negb (IsTrainable z.1))
      (zip (op_outputs op) grads') = true /\
    triples <> [] /\
    _create_grad_func trace_grad_fn outer
      ((fun z : Tensor * Tensor * Tensor => z.1.1) <$> triples)
      ((fun z : Tensor * Tensor * Tensor => z.1.2) <$> triples)
      ((fun z : Tensor * Tensor * Tensor => z.2) <$> triples) body_graph op
    = Some (Ok (body_grad_graph, args, outer1)) /\
    _get_intermediates (gg_graph body_grad_graph) = Ok intermediate_tensors /\
    grad_accumulate recursion_limit outer1 body_grad_graph intermediate_tensors
    = Some (Ok (body_grad_graph', outer2)) /\
    trace_grad_cond loop_vars = Ok cond_grad_graph /\
    _check_num_inputs_outputs cond_grad_graph (gg_graph body_grad_graph') (length loop_vars)
    = Ok tt /\
    add_op outer2 "While" loop_vars
      ((fun z : Tensor * Tensor => (t_dtype z.1, t_shape z.2))
         <$> zip loop_vars (fg_outputs (gg_graph body_grad_graph')))
    = (while_op, outer') /\
    none_pad grads' (op_outputs while_op) 2 = Ok r.
Proof.
  unfold _WhileGrad, overridden_grads, grad_triples. cbv zeta. split.
  - destruct (mapM_result _ _) as [grads'|e]; [|discriminate].
    cbn [mbind result_bind].
    destruct (forallb _ _) eqn:Eassert; [|discriminate]. cbn [py_assert mbind result_bind].
    destruct (decide (_ = [])) as [|Hne]; [discriminate|].
    destruct (_create_grad_func _ _ _ _ _ _ _) as [[[[bgg args] outer1]|e]|] eqn:Ecreate;
      try discriminate.
    destruct (_get_intermediates _) as [ints|e] eqn:Eints; [|discriminate].
    destruct (grad_accumulate _ _ _ _) as [[[bgg2 outer2]|e]|] eqn:Eacc; try discriminate.
    destruct (trace_grad_cond _) as [cond_grad_graph|e] eqn:Hcond; [|discriminate].
    cbn [mbind result_bind].
    destruct (_check_num_inputs_outputs _ _ _) as [[]|e] eqn:Hcheck; [|discriminate].
    cbn [mbind result_bind].
    destruct (add_op outer2 "While" _ _) as [while_op outer3] eqn:Eop.
    destruct (none_pad _ _ _) as [padded|e] eqn:Hpad; [|discriminate].
    cbn [mbind result_bind]. intros H. inversion H; subst. clear H.
    exists grads', bgg, args, outer1, ints, bgg2, outer2, cond_grad_graph, while_op.
    repeat split; assumption.
  - intros (grads' & bgg & args & outer1 & ints & bgg2 & outer2 & cgg & while_op & Hov
            & Hassert & Hne & Hcreate & Hints & Hacc & Hcond & Hcheck & Hop & Hpad).
    rewrite Hov. cbn [mbind result_bind]. rewrite Hassert. cbn [py_assert mbind result_bind].
    destruct (decide (_ = [])) as [E|_]; [contradiction|].
    rewrite Hcreate, Hints, Hacc, Hcond. cbn [mbind result_bind].
    rewrite Hcheck. cbn [mbind result_bind]. rewrite Hop, Hpad. reflexivity.
Qed.

End WhileGradSteps.

Section WhileGradTheorems.

Variable graph_of : gid -> FuncGraph.
Variable maybe_captured : Tensor -> Tensor.
Variable IsTrainable : Tensor -> bool.
Variable _get_body_graph : Operation -> FuncGraph.
Variable trace_grad_fn :
  list Tensor -> list Tensor -> list Tensor -> FuncGraph -> Operation ->
  option (result WhileBodyGradFuncGraph).
Variable trace_grad_cond : list Tensor -> result FuncGraph.
Variable recursion_limit : nat.

(** C3, as amended.  Take a forward While operation with as many inputs as
    outputs, whose body has that many inputs and outputs, and one incoming
    gradient per output.  Let [_is_tensor_array_handle] return for every
    output (the operation producing it is found in its graph), [grads'] being
    the gradients after the override.  Let a gradient be absent only where
    the output is a resource or is not trainable, and let one gradient at
    least be present at an output that is not a TensorArray handle.  Let the
    backward body be built from the gradients that remain, its intermediates
    be accumulated, the backward cond graph be built, and the two pass the
    arity check.  Then [_WhileGrad] returns, with one value per forward
    input; the value at an index is [None] exactly when the incoming gradient
    there is [None] or the forward output there is a TensorArray handle; and
    the values that are present are, in order, outputs 2, 3, ... of the
    backward While operation it emits. *)
Theorem gradients_are_none_padded outer op grads grads' body_grad_graph args outer1
    intermediate_tensors body_grad_graph' outer2 cond_grad_graph :
  let body_graph := _get_body_graph op in
  let triples := grad_triples body_graph grads' in
  let loop_vars := args ++ external_captures (gg_graph body_grad_graph') in
  length grads = length (op_outputs op) ->
  length (op_inputs op) = length (op_outputs op) ->
  length (fg_inputs body_graph) = length (op_outputs op) ->
  length (fg_outputs body_graph) = length (op_outputs op) ->
  overridden_grads graph_of maybe_captured grads (op_outputs op) = Ok grads' ->
  (forall i output,
     op_outputs op !! i = Some output -> grads !! i = Some None ->
     t_dtype output = DT_RESOURCE \/ IsTrainable output = false) ->
  (exists i g output,
     grads !! i = Some (Some g) /\ op_outputs op !! i = Some output /\
     _is_tensor_array_handle graph_of maybe_captured output = Ok false) ->
  _create_grad_func trace_grad_fn outer
    ((fun z : Tensor * Tensor * Tensor => z.1.1) <$> triples)
    ((fun z : Tensor * Tensor * Tensor => z.1.2) <$> triples)
    ((fun z : Tensor * Tensor * Tensor => z.2) <$> triples) body_graph op
  = Some (Ok (body_grad_graph, args, outer1)) ->
  _get_intermediates (gg_graph body_grad_graph) = Ok intermediate_tensors ->
  grad_accumulate recursion_limit outer1 body_grad_graph intermediate_tensors
  = Some (Ok (body_grad_graph', outer2)) ->
  trace_grad_cond loop_vars = Ok cond_grad_graph ->
  _check_num_inputs_outputs cond_grad_graph (gg_graph body_grad_graph') (length loop_vars)
  = Ok tt ->
  exists r outer',
    _WhileGrad graph_of maybe_captured IsTrainable _get_body_graph trace_grad_fn
      trace_grad_cond recursion_limit outer op grads = Some (Ok (r, outer')) /\
    length r = length (op_inputs op) /\
    (forall i output,
       op_outputs op !! i = Some output ->
       (r !! i = Some None <->
        grads !! i = Some None
        \/ _is_tensor_array_handle graph_of maybe_captured output = Ok true)) /\
    exists while_op,
      last (fg_operations outer') = Some while_op /\ op_type while_op = "While" /\
      omap id r = take (length (omap id r)) (drop 2 (op_outputs while_op)).
Proof.
  intros body_graph triples loop_vars Hlen Hio Hbi Hbo Hov Habsent
    (i0 & g0 & o0 & Hg0 & Ho0 & Hh0) Hcreate Hints Hacc Hcond Hcheck.
  pose proof (trainable_outputs_have_gradients graph_of maybe_captured IsTrainable
                grads (op_outputs op) grads' Hlen Hov Habsent) as Hassert.
  pose proof Hov as Hov'.
  apply (override_lookup graph_of maybe_captured) in Hov' as [Hlen' Hlook].
  assert (Hne : triples <> []).
  { destruct (Hlook i0 (Some g0) o0 Hg0 Ho0) as (b & Hb & Hg'). rewrite Hh0 in Hb.
    inversion Hb; subst b. apply lookup_lt_Some in Ho0.
    apply (grad_triples_nonempty body_graph grads' i0 g0 Hg'); fold body_graph; lia. }
  destruct (create_grad_func_args trace_grad_fn _ _ _ _ _ _ _ _ _ Hcreate)
    as (total_iters & _ & Hargs & _).
  destruct (add_op outer2 "While" loop_vars
              ((fun z : Tensor * Tensor => (t_dtype z.1, t_shape z.2))
                 <$> zip loop_vars (fg_outputs (gg_graph body_grad_graph'))))
    as [while_op outer'] eqn:Eop.
  assert (Hwlen : length (op_outputs while_op) = length loop_vars).
  { unfold add_op, add_op_with_value in Eop. inversion Eop. cbn [op_outputs].
    rewrite new_outputs_length, length_fmap, length_zip_with.
    apply check_num_inputs_outputs_Ok in Hcheck as (_ & _ & _ & Hbo'). lia. }
  destruct (none_pad_Ok grads' (op_outputs while_op) 2) as (r & Hpad).
  { rewrite Hwlen. unfold loop_vars. rewrite length_app, Hargs. cbn [length app].
    rewrite length_fmap. unfold triples.
    rewrite grad_triples_length by (fold body_graph; lia). lia. }
  exists r, outer'. split.
  - apply WhileGrad_returns.
    exists grads', body_grad_graph, args, outer1, intermediate_tensors, body_grad_graph',
      outer2, cond_grad_graph, while_op.
    cbv zeta. repeat split; assumption.
  - apply none_pad_spec in Hpad as (Hr & Hnone & Hdense).
    split; [lia | split].
    + intros i output Ho. rewrite Hnone.
      destruct (lookup_lt_is_Some_2 grads i) as [g Hg].
      { rewrite Hlen. apply lookup_lt_Some in Ho. exact Ho. }
      destruct (Hlook i g output Hg Ho) as (b & Hb & Hg'). rewrite Hg', Hb, Hg.
      destruct b, g; simpl; intuition congruence.
    + exists while_op. unfold add_op, add_op_with_value in Eop. inversion Eop.
      cbn [fg_operations op_type op_outputs]. split; [apply last_snoc|].
      split; [reflexivity|]. subst while_op. exact Hdense.
Qed.

(** C10.  Where a forward output is a TensorArray handle the gradient
    returned at that index is [None], and [_WhileGrad] does not depend on the
    gradient supplied there: the override precedes the assertion and
    everything after it. *)
Theorem tensor_array_handle_gradient_is_dropped outer op grads i output :
  op_outputs op !! i = Some output ->
  _is_tensor_array_handle graph_of maybe_captured output = Ok true ->
  i < length grads ->
  (forall r outer',
     _WhileGrad graph_of maybe_captured IsTrainable _get_body_graph trace_grad_fn
       trace_grad_cond recursion_limit outer op grads = Some (Ok (r, outer')) ->
     r !! i = Some None) /\
  (forall g',
     _WhileGrad graph_of maybe_captured IsTrainable _get_body_graph trace_grad_fn
       trace_grad_cond recursion_limit outer op (<[i:=g']> grads)
     = _WhileGrad graph_of maybe_captured IsTrainable _get_body_graph trace_grad_fn
         trace_grad_cond recursion_limit outer op grads).
Proof.
  intros Ho Hh Hi. split.
  - intros r outer' H.
    apply WhileGrad_Ok in H as (grads' & while_op & Hov & _ & _ & Hpad).
    apply override_lookup in Hov as [_ Hov].
    apply none_pad_spec in Hpad as (_ & Hnone & _).
    apply Hnone. destruct (lookup_lt_is_Some_2 grads i Hi) as [g Hg].
    destruct (Hov i g output Hg Ho) as (b & Hb & Hg'). rewrite Hg'.
    rewrite Hh in Hb. inversion Hb; subst. reflexivity.
  - intros g'. unfold _WhileGrad.
    pose proof (override_insert graph_of maybe_captured grads (op_outputs op) i output g' Ho Hh)
      as E.
    cbv beta zeta in E. rewrite E. reflexivity.
Qed.

End WhileGradTheorems.

Lemma ex_WhileGrad_accepts :
  exists r,
    ex_WhileGrad ex2_returned.2 ex2_while_op ex_grads = Some (Ok r) /\
    r.1 = [Some (mkTensor 0 33 2 DT_FLOAT scalar); None;
           Some (mkTensor 0 33 3 DT_FLOAT scalar); None]
            ++ replicate 8 None.
Proof. eexists. split; vm_compute; reflexivity. Qed.

Lemma gradients_are_none_padded_witness :
  exists r outer',
    ex_WhileGrad ex2_returned.2 ex2_while_op ex_grads = Some (Ok (r, outer')) /\
    length r = length (op_inputs ex2_while_op) /\
    (forall i output,
       op_outputs ex2_while_op !! i = Some output ->
       (r !! i = Some None <->
        ex_grads !! i = Some None
        \/ _is_tensor_array_handle ex_graph_of id output = Ok true)) /\
    exists while_op,
      last (fg_operations outer') = Some while_op /\ op_type while_op = "While" /\
      omap id r = take (length (omap id r)) (drop 2 (op_outputs while_op)).
Proof.
  eapply (gradients_are_none_padded ex_graph_of id ex_IsTrainable
            (fun _ => as_body_graph ex2_assembly) ex_trace_grad_fn ex_trace_grad_cond 8
            ex2_returned.2 ex2_while_op ex_grads).
  - reflexivity.
  - reflexivity.
  - reflexivity.
  - reflexivity.
  - vm_compute. reflexivity.
  - intros i output Ho Hg.
    do 12 (destruct i as [|i]; [vm_compute in Ho, Hg; inversion Ho; subst;
                                 first [discriminate | left; reflexivity | right; reflexivity]|]).
    vm_compute in Ho. discriminate.
  - exists 0, (ex_grad 0 DT_FLOAT). eexists. split; [reflexivity|].
    split; vm_compute; reflexivity.
  - vm_compute. reflexivity.
  - vm_compute. reflexivity.
  - vm_compute. reflexivity.
  - vm_compute. reflexivity.
  - vm_compute. reflexivity.
Defined.

(** C3 as stated fails in two ways.  Where a forward output is a TensorArray
    handle a present gradient is not returned: the incoming gradient at index
    3 is present and the gradient returned at index 3 is [None].  And not
    every request is answered: with no incoming gradient for the trainable
    output at index 0, [_WhileGrad] raises the AssertionError of lines
    264-267 and returns nothing. *)
Lemma tensor_array_gradient_is_not_returned :
  (exists r,
     ex_WhileGrad ex2_returned.2 ex2_while_op ex_grads = Some (Ok r) /\
     ex_grads !! 3 = Some (Some (ex_grad 3 DT_FLOAT)) /\
     r.1 !! 3 = Some None) /\
  (length (replicate 12 (@None Tensor)) = length (op_outputs ex2_while_op) /\
   ex_WhileGrad ex2_returned.2 ex2_while_op (replicate 12 None)
   = Some (Raise (AssertionError
                    "All trainable loop vars must receive incoming gradients." []))).
Proof.
  split.
  - eexists. split; [vm_compute; reflexivity | split; reflexivity].
  - split; vm_compute; reflexivity.
Qed.

Lemma tensor_array_handle_gradient_is_dropped_witness :
  (forall r outer',
     ex_WhileGrad ex2_returned.2 ex2_while_op ex_grads = Some (Ok (r, outer')) ->
     r !! 3 = Some None) /\
  (forall g',
     ex_WhileGrad ex2_returned.2 ex2_while_op (<[3:=g']> ex_grads)
     = ex_WhileGrad ex2_returned.2 ex2_while_op ex_grads).
Proof.
  apply (tensor_array_handle_gradient_is_dropped ex_graph_of id ex_IsTrainable
           (fun _ => as_body_graph ex2_assembly) ex_trace_grad_fn ex_trace_grad_cond 8
           ex2_returned.2 ex2_while_op ex_grads 3
           (mkTensor 0 11 3 DT_RESOURCE (Some [Some 2%N]))).
  - reflexivity.
  - vm_compute. reflexivity.
  - vm_compute. lia.
Defined.

(** ** The gradient capture resolver: resources *)

Lemma resource_index_Ok fwd tensor index :
  resource_index fwd tensor = Ok index <->
  first_index (fg_inputs fwd) tensor index \/
  ((tensor ∉ fg_inputs fwd) /\
   exists op inp,
     tensor_op fwd tensor = Ok op /\ op_type op = "While" /\
     op_inputs op !! t_value_index tensor = Some inp /\
     first_index (fg_inputs fwd) inp index).
Proof.
  unfold resource_index. destruct (py_in tensor (fg_inputs fwd)) eqn:E.
  - apply py_in_true in E. rewrite py_index_Ok. split; [auto|].
    intros [H | [Hn _]]; [exact H | contradiction].
  - apply py_in_false in E. split.
    + intros H. inv_bind H.
      destruct (decide (op_type a = "While")) as [Hty|]; [|discriminate].
      inv_bind H. apply py_getitem_Ok in Ha0. apply py_index_Ok in H.
      right. split; [exact E|]. exists a, a0. auto.
    + intros [[H _] | (_ & op & inp & Hop & Hty & Hinp & Hidx)].
      * exfalso. apply E. apply list_elem_of_lookup. eauto.
      * rewrite Hop. simpl. destruct (decide (op_type op = "While")); [|contradiction].
        unfold py_getitem. rewrite Hinp. simpl. apply py_index_Ok. exact Hidx.
Qed.

Lemma resolve_resource_Ok self tensor outer_t :
  resolve_resource self tensor = Ok outer_t <-> loop_invariant_resource self tensor outer_t.
Proof.
  unfold resolve_resource, loop_invariant_resource. cbv zeta. split.
  - intros H. inv_bind H. inv_bind H. inv_bind H.
    apply resource_index_Ok in Ha. apply py_getitem_Ok in Ha0, Ha1.
    destruct (decide (a0 = a1)) as [->|].
    + apply py_getitem_Ok in H. exists a, a1. auto.
    + inv_bind H. discriminate.
  - intros (index & x & Hidx & Hin & Hout & Hw).
    apply resource_index_Ok in Hidx. rewrite Hidx. simpl.
    unfold py_getitem. rewrite Hin, Hout. simpl.
    destruct (decide (x = x)); [|contradiction]. rewrite Hw. reflexivity.
Qed.

Lemma captures_get_Some c t ph : captures_get c t = Some ph -> (t, ph) ∈ c.
Proof.
  induction c as [|[k v] c IH]; simpl; [discriminate|].
  destruct (decide (k = t)) as [->|].
  - intros H. inversion H; subst. left.
  - intros H. right. apply IH. exact H.
Qed.

Lemma base_capture_helper_captured g t :
  (t, (base_capture_helper g t).1) ∈ fg_captures (base_capture_helper g t).2.
Proof.
  unfold base_capture_helper. destruct (captures_get (fg_captures g) t) as [ph|] eqn:E.
  - simpl. apply captures_get_Some. exact E.
  - simpl. apply elem_of_app. right. left.
Qed.

(** C8.  The first time the backward body refers to a resource tensor of the
    forward body (identities skipped): if the tensor is a loop invariant of
    the forward loop it is resolved to the input of the forward While
    operation at the same index, which is captured although it is not a
    tensor of the forward graph (a capture that is refused unless
    whitelisted); in every other case the resolver raises, and in particular
    a resource that the body creates is refused with the message that
    creating a resource in the body is not supported. *)
Theorem resource_must_be_loop_invariant depth self tensor tensor' :
  t_graph tensor = fg_name (_forward_graph self) ->
  skip_identities (length (fg_operations (_forward_graph self))) (_forward_graph self) tensor
  = Some (Ok tensor') ->
  t_dtype tensor' = DT_RESOURCE ->
  _indirect_captures self !! tensor' = None ->
  (forall outer_t,
     loop_invariant_resource self tensor' outer_t ->
     t_graph outer_t <> fg_name (_forward_graph self) ->
     t_graph outer_t <> fg_name (gg_graph self) ->
     exists ph self',
       _capture_helper (S (S depth)) self tensor = Some (Ok (ph, self')) /\
       (outer_t, ph) ∈ fg_captures (gg_graph self') /\
       _inner_to_outer_tensor self' !! tensor' = Some outer_t /\
       _indirect_captures self' !! tensor' = Some ph /\
       grad_capture (S depth) self outer_t false
       = Some (Raise (ValueError capture_error_msg
                        [str_tensor outer_t; pretty (t_graph outer_t)]))) /\
  ((forall outer_t, ~ loop_invariant_resource self tensor' outer_t) ->
   exists e, _capture_helper (S (S depth)) self tensor = Some (Raise e)) /\
  (tensor' ∉ fg_inputs (_forward_graph self) ->
   forall op, tensor_op (_forward_graph self) tensor' = Ok op -> op_type op <> "While" ->
   _capture_helper (S (S depth)) self tensor
   = Some (Raise (ValueError resource_created_msg [str_tensor tensor']))).
Proof.
  intros Hg Hskip Hres Hnew.
  assert (Hunfold :
            _capture_helper (S (S depth)) self tensor
            = match resolve_resource self tensor' with
              | Raise e => Some (Raise e)
              | Ok tensor_in_outer_graph =>
                  match capture_via (_capture_helper (S depth))
                          (gg_set_inner_to_outer self tensor' tensor_in_outer_graph)
                          tensor_in_outer_graph true with
                  | None => None
                  | Some (Raise e) => Some (Raise e)
                  | Some (Ok (ph, self')) => Some (Ok (ph, gg_set_indirect self' tensor' ph))
                  end
              end).
  { cbn [_capture_helper]. cbv zeta.
    destruct (decide (t_graph tensor = fg_name (_forward_graph self))); [|contradiction].
    rewrite Hskip, Hnew.
    destruct (decide (t_dtype tensor' = DT_RESOURCE)); [|contradiction].
    reflexivity. }
  split; [|split].
  - intros outer_t Hinv Hnf Hng. apply resolve_resource_Ok in Hinv.
    rewrite Hunfold, Hinv. unfold grad_capture, capture_via.
    cbn [negb andb gg_set_inner_to_outer gg_graph _forward_graph].
    rewrite !bool_decide_false by assumption. cbn [negb andb].
    destruct (decide (t_graph outer_t = fg_name (gg_graph self))); [contradiction|].
    cbn [_capture_helper]. cbv zeta. cbn [gg_set_inner_to_outer _forward_graph].
    destruct (decide (t_graph outer_t = fg_name (_forward_graph self))); [contradiction|].
    unfold super_capture_helper, gg_set_inner_to_outer. cbn [gg_graph].
    pose proof (base_capture_helper_captured (gg_graph self) outer_t) as Hcap.
    destruct (base_capture_helper (gg_graph self) outer_t) as [ph g'] eqn:E.
    eexists _, _. split; [reflexivity|]. cbn. split; [exact Hcap|]. split; [|split].
    + apply lookup_insert_eq.
    + apply lookup_insert_eq.
    + reflexivity.
  - intros Hnone. rewrite Hunfold.
    destruct (resolve_resource self tensor') as [outer_t|e] eqn:E.
    + apply resolve_resource_Ok in E. exfalso. exact (Hnone outer_t E).
    + eauto.
  - intros Hnin op Hop Hty. rewrite Hunfold.
    unfold resolve_resource, resource_index. cbv zeta.
    apply py_in_false in Hnin. rewrite Hnin, Hop. simpl.
    destruct (decide (op_type op = "While")); [contradiction|]. reflexivity.
Qed.

(** ** The gradient capture resolver: accumulated intermediates *)

Lemma captures_get_elem c t : t ∈ c.*1 -> exists ph, captures_get c t = Some ph.
Proof.
  intros H. destruct (captures_get c t) as [ph|] eqn:E; [eauto|].
  apply captures_get_None in E. contradiction.
Qed.

Lemma base_capture_helper_mono g t k :
  k ∈ external_captures g -> k ∈ external_captures (base_capture_helper g t).2.
Proof.
  intros H. unfold base_capture_helper.
  destruct (captures_get (fg_captures g) t); [exact H|].
  unfold external_captures. cbn. rewrite fmap_app. apply elem_of_app. left. exact H.
Qed.

Lemma base_capture_helper_elem g t : t ∈ external_captures (base_capture_helper g t).2.
Proof.
  pose proof (base_capture_helper_captured g t) as H.
  unfold external_captures. apply list_elem_of_fmap. eexists (_, _). split; [|exact H].
  reflexivity.
Qed.

Lemma base_capture_helper_known g t :
  t ∈ external_captures g -> (base_capture_helper g t).2 = g.
Proof.
  intros H. apply captures_get_elem in H as [ph Hph].
  unfold base_capture_helper. rewrite Hph. reflexivity.
Qed.

Lemma gg_with_graph_id self : gg_with_graph self (gg_graph self) = self.
Proof. destruct self. reflexivity. Qed.

Lemma super_capture_helper_known self t :
  t ∈ external_captures (gg_graph self) -> (super_capture_helper self t).2 = self.
Proof.
  intros H. unfold super_capture_helper.
  pose proof (base_capture_helper_known _ _ H) as E.
  destruct (base_capture_helper (gg_graph self) t) as [ph g]. cbn in *. subst g.
  apply gg_with_graph_id.
Qed.

Lemma super_capture_helper_cached self t tensor captured :
  cached self tensor captured -> cached (super_capture_helper self t).2 tensor captured.
Proof.
  intros (Hi & outer_t & Ho & Hc). unfold super_capture_helper.
  pose proof (base_capture_helper_mono (gg_graph self) t _ Hc) as Hm.
  destruct (base_capture_helper (gg_graph self) t) as [ph g]. cbn in *.
  split; [exact Hi|]. exists outer_t. auto.
Qed.

(** A later reference to a resolved tensor: the cached value, and the graph
    under construction is left as it is. *)
Lemma cached_hit depth self tensor tensor' captured :
  cached self tensor' captured ->
  t_graph tensor = fg_name (_forward_graph self) ->
  skip_identities (length (fg_operations (_forward_graph self))) (_forward_graph self) tensor
  = Some (Ok tensor') ->
  _capture_helper (S depth) self tensor = Some (Ok (captured, self)).
Proof.
  intros (Hi & outer_t & Ho & Hc) Hg Hskip. cbn [_capture_helper]. cbv zeta.
  destruct (decide (t_graph tensor = fg_name (_forward_graph self))); [|contradiction].
  rewrite Hskip, Hi. unfold cached_capture. rewrite Ho.
  apply py_in_true in Hc. rewrite Hc. cbn.
  apply py_in_true in Hc. rewrite (super_capture_helper_known _ _ Hc). reflexivity.
Qed.

(** What the first resolution of an intermediate does. *)
Lemma capture_accumulated_Ok self tensor captured self' :
  capture_accumulated self tensor = Ok (captured, self') ->
  exists accumulator outer_accumulator idx accumulator_ph,
    _get_accumulator (_forward_graph self) tensor = Ok (Some accumulator) /\
    first_index (fg_outputs (_forward_graph self)) accumulator idx /\
    op_outputs (_forward_while self) !! idx = Some outer_accumulator /\
    (outer_accumulator, accumulator_ph) ∈ fg_captures (gg_graph self') /\
    (forall k, k ∈ external_captures (gg_graph self) ->
               k ∈ external_captures (gg_graph self')) /\
    last (fg_operations (gg_graph self'))
    = Some (mkOp (t_op_name captured) "TensorListPopBack" [accumulator_ph]
              [mkTensor (t_graph captured) (t_op_name captured) 0 DT_VARIANT scalar; captured]
              None) /\
    t_value_index captured = 1 /\ t_dtype captured = t_dtype tensor /\
    _forward_graph self' = _forward_graph self /\
    _forward_while self' = _forward_while self /\
    _indirect_captures self' = <[tensor:=captured]> (_indirect_captures self) /\
    _inner_to_outer_tensor self'
    = <[tensor:=outer_accumulator]> (_inner_to_outer_tensor self) /\
    popped_tensor_lists self'
    = <[accumulator_ph:=mkTensor (t_graph captured) (t_op_name captured) 0 DT_VARIANT scalar]>
        (popped_tensor_lists self).
Proof.
  unfold capture_accumulated. cbv zeta. intros H.
  apply bind_Ok in H as ([] & _ & H). apply bind_Ok in H as (acc & Hacc & H).
  destruct acc as [accumulator|]; [|discriminate].
  apply bind_Ok in H as ([] & _ & H). apply bind_Ok in H as (idx & Hidx & H).
  apply bind_Ok in H as (outer_acc & Houter & H). apply bind_Ok in H as ([] & _ & H).
  apply py_index_Ok in Hidx. apply py_getitem_Ok in Houter.
  unfold super_capture_helper, gg_set_inner_to_outer in H. cbn [gg_graph] in H.
  pose proof (base_capture_helper_captured (gg_graph self) outer_acc) as Hcap.
  pose proof (base_capture_helper_mono (gg_graph self) outer_acc) as Hmono.
  destruct (base_capture_helper (gg_graph self) outer_acc) as [ph g]. cbn [fst snd] in *.
  unfold add_op, add_op_with_value in H. cbv beta iota zeta in H.
  inversion H; subst. clear H. cbn.
  exists accumulator, outer_acc, idx, ph.
  split; [exact Hacc|]. split; [exact Hidx|]. split; [exact Houter|]. split; [exact Hcap|].
  split; [exact Hmono|]. split; [apply last_snoc|]. repeat split.
Qed.

Lemma capture_helper_preserves depth :
  forall self t c self',
    _capture_helper depth self t = Some (Ok (c, self')) ->
    _forward_graph self' = _forward_graph self /\
    forall tensor' captured, cached self tensor' captured -> cached self' tensor' captured.
Proof.
  induction depth as [|depth IH]; intros self t c self' H; [discriminate|].
  cbn [_capture_helper] in H. cbv zeta in H.
  assert (Hsuper : forall t0,
             _forward_graph (super_capture_helper self t0).2 = _forward_graph self /\
             forall tensor' captured, cached self tensor' captured ->
                                      cached (super_capture_helper self t0).2 tensor' captured).
  { intros t0. split; [|intros; apply super_capture_helper_cached; assumption].
    unfold super_capture_helper. destruct (base_capture_helper _ _). reflexivity. }
  destruct (decide (t_graph t = fg_name (_forward_graph self))) as [Hg|Hg].
  2:{ inversion H as [H']. rewrite (surjective_pairing (super_capture_helper self t)) in H'.
      inversion H'; subst. apply Hsuper. }
  destruct (skip_identities _ _ t) as [[t2|e]|]; try discriminate.
  destruct (_indirect_captures self !! t2) as [c2|] eqn:Hind.
  { unfold cached_capture in H.
    destruct (_inner_to_outer_tensor self !! t2) as [outer_t|]; [|discriminate].
    inversion H as [H']. apply bind_Ok in H' as ([] & _ & H'). inversion H'; subst.
    apply Hsuper. }
  destruct (decide (t_dtype t2 = DT_RESOURCE)) as [Hres|Hres].
  - destruct (resolve_resource self t2) as [outer_t|e]; [|discriminate].
    set (self_a := gg_set_inner_to_outer self t2 outer_t) in *.
    assert (Ha : _forward_graph self_a = _forward_graph self /\
                 forall tensor' captured, cached self tensor' captured ->
                                          cached self_a tensor' captured).
    { split; [reflexivity|]. intros tensor' captured (Hi & o & Ho & Hc).
      split; [exact Hi|]. exists o. split; [|exact Hc].
      subst self_a. cbn. rewrite lookup_insert_ne; [exact Ho|]. congruence. }
    destruct (capture_via (_capture_helper depth) self_a outer_t true)
      as [[[ph self_b]|e]|] eqn:Hcap; try discriminate.
    inversion H; subst c self'. clear H.
    assert (Hb : _forward_graph self_b = _forward_graph self_a /\
                 forall tensor' captured, cached self_a tensor' captured ->
                                          cached self_b tensor' captured).
    { unfold capture_via in Hcap. cbn [negb andb] in Hcap.
      destruct (decide (t_graph outer_t = fg_name (gg_graph self_a))).
      - inversion Hcap; subst. auto.
      - apply IH in Hcap. exact Hcap. }
    destruct Ha as [Ha1 Ha2], Hb as [Hb1 Hb2].
    split; [cbn; congruence|].
    intros tensor' captured Hc. pose proof Hc as (Hi0 & _).
    destruct (Hb2 _ _ (Ha2 _ _ Hc)) as (Hi & o & Ho & Hk).
    split; [cbn; rewrite lookup_insert_ne; [exact Hi | congruence]|].
    exists o. auto.
  - inversion H as [H']. apply capture_accumulated_Ok in H'
      as (acc & oacc & idx & ph & _ & _ & _ & _ & Hmono & _ & _ & _ & Hf & _ & Hi & Ho & _).
    split; [exact Hf|].
    intros tensor' captured (Hi0 & o & Ho0 & Hk).
    assert (Hne : t2 <> tensor') by congruence.
    split; [rewrite Hi, lookup_insert_ne by exact Hne; exact Hi0|].
    exists o. rewrite Ho, lookup_insert_ne by exact Hne. auto.
Qed.

Lemma resolves_to_preserves self self' :
  resolves_to self self' ->
  _forward_graph self' = _forward_graph self /\
  forall tensor' captured, cached self tensor' captured -> cached self' tensor' captured.
Proof.
  induction 1 as [self | depth self tensor c self1 self2 Hstep _ IH].
  - auto.
  - apply capture_helper_preserves in Hstep as [Hf Hc]. destruct IH as [Hf' Hc'].
    split; [congruence | auto].
Qed.

(** C9.  The first reference to an intermediate of the forward body (one
    that is not a resource) appends exactly one TensorListPopBack to the
    backward graph, on the placeholder of the accumulator's While output, and
    caches the popped value; from then on, whatever else is captured in
    between, every reference that leads to the same forward tensor returns
    that same value and leaves the graph under construction unchanged: no
    second pop. *)
Theorem intermediate_is_popped_once depth self tensor tensor' captured self1 :
  t_graph tensor = fg_name (_forward_graph self) ->
  skip_identities (length (fg_operations (_forward_graph self))) (_forward_graph self) tensor
  = Some (Ok tensor') ->
  t_dtype tensor' <> DT_RESOURCE ->
  _indirect_captures self !! tensor' = None ->
  _capture_helper (S depth) self tensor = Some (Ok (captured, self1)) ->
  (exists accumulator outer_accumulator idx accumulator_ph new_tensor_list,
     _get_accumulator (_forward_graph self) tensor' = Ok (Some accumulator) /\
     first_index (fg_outputs (_forward_graph self)) accumulator idx /\
     op_outputs (_forward_while self) !! idx = Some outer_accumulator /\
     (outer_accumulator, accumulator_ph) ∈ fg_captures (gg_graph self1) /\
     last (fg_operations (gg_graph self1))
     = Some (mkOp (t_op_name captured) "TensorListPopBack" [accumulator_ph]
               [new_tensor_list; captured] None) /\
     popped_tensor_lists self1 !! accumulator_ph = Some new_tensor_list /\
     _indirect_captures self1 !! tensor' = Some captured) /\
  (forall self2 alias depth2,
     resolves_to self1 self2 ->
     t_graph alias = fg_name (_forward_graph self) ->
     skip_identities (length (fg_operations (_forward_graph self))) (_forward_graph self) alias
     = Some (Ok tensor') ->
     _capture_helper (S depth2) self2 alias = Some (Ok (captured, self2))).
Proof.
  intros Hg Hskip Hres Hnew H.
  cbn [_capture_helper] in H. cbv zeta in H.
  destruct (decide (t_graph tensor = fg_name (_forward_graph self))); [|contradiction].
  rewrite Hskip, Hnew in H.
  destruct (decide (t_dtype tensor' = DT_RESOURCE)); [contradiction|].
  inversion H as [H']. clear H.
  apply capture_accumulated_Ok in H'
    as (acc & oacc & idx & ph & Hacc & Hidx & Houter & Hcap & Hmono & Hlast & _ & _
        & Hf & _ & Hi & Ho & Hp).
  assert (Hcached : cached self1 tensor' captured).
  { split; [rewrite Hi; apply lookup_insert_eq|].
    exists oacc. split; [rewrite Ho; apply lookup_insert_eq|].
    unfold external_captures. apply list_elem_of_fmap. exists (oacc, ph). auto. }
  split.
  - exists acc, oacc, idx, ph, (mkTensor (t_graph captured) (t_op_name captured) 0 DT_VARIANT scalar).
    repeat split; try assumption; try apply Hidx.
    + rewrite Hp. apply lookup_insert_eq.
    + apply Hcached.
  - intros self2 alias depth2 Hreach Hga Hsa.
    apply resolves_to_preserves in Hreach as [Hf2 Hc2].
    apply (cached_hit depth2 self2 alias tensor' captured).
    + apply Hc2. exact Hcached.
    + rewrite Hf2, Hf. exact Hga.
    + rewrite Hf2, Hf. exact Hsa.
Qed.

Lemma resource_must_be_loop_invariant_witness :
  exists ph self',
    _capture_helper 2 ex_self ex_h = Some (Ok (ph, self')) /\
    (ex2_handle, ph) ∈ fg_captures (gg_graph self') /\
    _inner_to_outer_tensor self' !! ex_h = Some ex2_handle /\
    _indirect_captures self' !! ex_h = Some ph /\
    grad_capture 1 ex_self ex2_handle false
    = Some (Raise (ValueError capture_error_msg
                     [str_tensor ex2_handle; pretty (t_graph ex2_handle)])).
Proof.
  assert (H1 : t_graph ex_h = fg_name (_forward_graph ex_self)) by reflexivity.
  assert (H2 : skip_identities (length (fg_operations (_forward_graph ex_self)))
                 (_forward_graph ex_self) ex_h = Some (Ok ex_h))
    by (vm_compute; reflexivity).
  assert (H3 : t_dtype ex_h = DT_RESOURCE) by reflexivity.
  assert (H4 : _indirect_captures ex_self !! ex_h = None) by reflexivity.
  destruct (resource_must_be_loop_invariant 0 ex_self ex_h ex_h H1 H2 H3 H4) as [A _].
  apply (A ex2_handle).
  - exists 3, ex_h. split; [left; split|split; [|split]].
    + reflexivity.
    + intros j Hj.
      destruct j as [|[|[|j]]]; [discriminate | discriminate | discriminate | lia].
    + reflexivity.
    + reflexivity.
    + reflexivity.
  - discriminate.
  - discriminate.
Defined.

(** A resource created in the body is refused. *)
Example created_resource_is_refused :
  _capture_helper 2
    (new_grad_func_graph (mkFuncGraph 3 0 [] [] [] [] 0) ex_creating_body ex2_while_op)
    (mkTensor 2 1 0 DT_RESOURCE scalar)
  = Some (Raise (ValueError resource_created_msg ["1:0"])).
Proof. vm_compute. reflexivity. Qed.

Lemma intermediate_is_popped_once_witness :
  (exists accumulator outer_accumulator idx accumulator_ph new_tensor_list,
     _get_accumulator (_forward_graph ex_self) ex_v = Ok (Some accumulator) /\
     first_index (fg_outputs (_forward_graph ex_self)) accumulator idx /\
     op_outputs (_forward_while ex_self) !! idx = Some outer_accumulator /\
     (outer_accumulator, accumulator_ph) ∈ fg_captures (gg_graph ex_first_capture.2) /\
     last (fg_operations (gg_graph ex_first_capture.2))
     = Some (mkOp (t_op_name ex_first_capture.1) "TensorListPopBack" [accumulator_ph]
               [new_tensor_list; ex_first_capture.1] None) /\
     popped_tensor_lists ex_first_capture.2 !! accumulator_ph = Some new_tensor_list /\
     _indirect_captures ex_first_capture.2 !! ex_v = Some ex_first_capture.1) /\
  (forall self2 alias depth2,
     resolves_to ex_first_capture.2 self2 ->
     t_graph alias = fg_name (_forward_graph ex_self) ->
     skip_identities (length (fg_operations (_forward_graph ex_self)))
       (_forward_graph ex_self) alias = Some (Ok ex_v) ->
     _capture_helper (S depth2) self2 alias = Some (Ok (ex_first_capture.1, self2))).
Proof.
  apply (intermediate_is_popped_once 0 ex_self ex_v ex_v ex_first_capture.1
           ex_first_capture.2).
  - reflexivity.
  - vm_compute. reflexivity.
  - discriminate.
  - reflexivity.
  - vm_compute. reflexivity.
Defined.

(** In the worked backward graph the popped value is output 1 of the
    operation named 1, and asking again returns it without a new
    operation. *)
Example popped_once_in_example :
  ex_first_capture.1 = mkTensor 3 1 1 DT_FLOAT None /\
  length (fg_operations (gg_graph ex_first_capture.2)) = 2 /\
  _capture_helper 1 ex_first_capture.2 ex_v
  = Some (Ok (ex_first_capture.1, ex_first_capture.2)).
Proof. vm_compute. repeat split. Qed.

(** ** The resolver returns *)

Lemma skip_identities_enough_fuel g :
  topologically_ordered g ->
  forall fuel tensor,
    (forall j op,
       list_find (fun op => op_name op = t_op_name tensor) (fg_operations g) = Some (j, op) ->
       j < fuel) ->
    exists r, skip_identities fuel g tensor = Some r.
Proof.
  intros Htopo. induction fuel as [|fuel IH]; intros tensor Hpos.
  - cbn [skip_identities]. unfold tensor_op.
    destruct (list_find _ _) as [[j op]|] eqn:E; [|eauto].
    specialize (Hpos j op eq_refl). lia.
  - cbn [skip_identities]. unfold tensor_op.
    destruct (list_find _ _) as [[j op]|] eqn:E; [|eauto].
    destruct (decide (op_type op = "Identity")); [|eauto].
    unfold py_getitem. destruct (op_inputs op !! 0) as [t'|] eqn:Ein; [|eauto].
    apply IH. intros j' op' E'.
    apply list_find_Some in E as (Hj & _ & _).
    specialize (Htopo j op t' j' op' Hj Ein E').
    specialize (Hpos j op eq_refl). lia.
Qed.

Lemma skip_identities_terminates g tensor :
  topologically_ordered g ->
  exists r, skip_identities (length (fg_operations g)) g tensor = Some r.
Proof.
  intros Htopo. apply (skip_identities_enough_fuel g Htopo).
  intros j op E. apply list_find_Some in E as (Hj & _ & _).
  apply lookup_lt_Some in Hj. exact Hj.
Qed.

(** With the forward body in creation order and the inputs of the forward
    While operation outside the forward body, two levels of calls are enough
    for [_capture_helper] to return, with a value or an exception. *)
Lemma capture_helper_returns depth self tensor :
  topologically_ordered (_forward_graph self) ->
  Forall (fun t => t_graph t <> fg_name (_forward_graph self))
    (op_inputs (_forward_while self)) ->
  exists r, _capture_helper (S (S depth)) self tensor = Some r.
Proof.
  intros Htopo Hwhile. cbn [_capture_helper]. cbv zeta.
  destruct (decide (t_graph tensor = fg_name (_forward_graph self))) as [_|_]; [|eauto].
  destruct (skip_identities_terminates (_forward_graph self) tensor Htopo) as [[t2|e1] ->];
    [|eauto].
  destruct (_indirect_captures self !! t2); [eauto|].
  destruct (decide (t_dtype t2 = DT_RESOURCE)) as [_|_]; [|eauto].
  destruct (resolve_resource self t2) as [outer_t|e2] eqn:E; [|eauto].
  assert (Hout : t_graph outer_t <> fg_name (_forward_graph self)).
  { apply resolve_resource_Ok in E as (index & x & _ & _ & _ & Hw).
    rewrite Forall_forall in Hwhile. apply Hwhile.
    apply list_elem_of_lookup. eauto. }
  unfold capture_via. cbn [negb andb].
  destruct (decide (t_graph outer_t = fg_name _)) as [_|_]; [eauto|].
  cbn [_capture_helper _forward_graph gg_set_inner_to_outer]. cbv zeta.
  cbn [_forward_graph gg_set_inner_to_outer].
  destruct (decide (t_graph outer_t = fg_name (_forward_graph self))); [contradiction|].
  destruct (super_capture_helper _ outer_t). eauto.
Qed.

(** ** Loop counters at run time *)

Section Counters.

Local Open Scope N_scope.

Lemma f32_round_small n : (n <= 2 ^ 24) -> f32_round n = n.
Proof.
  intros H. unfold f32_round. destruct (n <? 2 ^ 24) eqn:E; [reflexivity|].
  apply N.ltb_ge in E. assert (n = 16777216) as -> by (change (2 ^ 24) with 16777216 in *; lia).
  vm_compute. reflexivity.
Qed.

Lemma f32_increment c : (c <= 2 ^ 24) -> f32_add c 1 = N.min (c + 1) (2 ^ 24).
Proof.
  intros H. unfold f32_add.
  destruct (N.eq_dec c (2 ^ 24)) as [->|Hne].
  - vm_compute. reflexivity.
  - rewrite f32_round_small by lia. lia.
Qed.

Lemma while_runs_deterministic {S} (cond : S -> bool) (body : S -> S) s n s' :
  while_runs cond body s n s' ->
  forall m s'', while_runs cond body s m s'' -> m = n /\ s'' = s'.
Proof.
  induction 1 as [s Hc | s n s' Hc _ IH]; intros m s'' H'.
  - inversion H'; subst; [auto | congruence].
  - inversion H' as [? Hc' | ? m' ? Hc' Hrest]; subst; [congruence|].
    destruct (IH _ _ Hrest) as [-> ->]. auto.
Qed.

(** The counter output of the forward loop after [n] iterations. *)
Lemma forward_counter {V} (cond : V -> bool) (body : V -> V) s n out :
  while_runs (fun s => wrapped_cond V cond s.1 s.2)
    (fun s => wrapped_body V body s.1 s.2) s n out ->
  (s.1 <= 2 ^ 24) -> out.1 = N.min (s.1 + n) (2 ^ 24).
Proof.
  induction 1 as [s Hc | s n s' Hc _ IH]; intros Hs.
  - lia.
  - cbn [fst snd wrapped_body] in IH. rewrite f32_increment in IH by exact Hs.
    rewrite IH by lia. lia.
Qed.

(** The backward loop counts from its counter up to [total_iters]. *)
Lemma backward_counts {G} (grad_outs : G -> G) total_iters :
  (total_iters <= 2 ^ 24) ->
  forall d counter g,
    (counter + d = total_iters) ->
    exists out,
      while_runs (fun s => grad_cond G s.1.1 s.1.2 s.2)
        (fun s => _grad_fn G grad_outs s.1.1 s.1.2 s.2) (counter, total_iters, g) d out.
Proof.
  intros Ht d. induction d as [|d IH] using N.peano_ind; intros counter g Hd.
  - eexists. apply while_stop. cbn. unfold grad_cond, f32_less. apply N.ltb_ge. lia.
  - destruct (IH (f32_add counter 1) (grad_outs g)) as [out Hout].
    { rewrite f32_increment by lia. lia. }
    exists out. apply while_step; [|exact Hout].
    cbn. unfold grad_cond, f32_less. apply N.ltb_lt. lia.
Qed.

(** The iteration counts of the two loops: the backward loop of a forward
    loop that made [n] iterations makes [min n 2^24] iterations. *)
Lemma backward_iterations {V G} (cond : V -> bool) (body : V -> V) (grad_outs : G -> G)
    v0 g0 n out :
  forward_runs cond body v0 n out ->
  (exists out', backward_runs grad_outs out.1 g0 (N.min n (2 ^ 24)) out') /\
  (forall m out', backward_runs grad_outs out.1 g0 m out' -> m = N.min n (2 ^ 24)).
Proof.
  unfold forward_runs, backward_runs. intros Hf.
  apply forward_counter in Hf; [|cbn; lia]. cbn [fst] in Hf. rewrite N.add_0_l in Hf.
  destruct (backward_counts grad_outs out.1 ltac:(lia) out.1 0 g0 ltac:(lia)) as [out' Hb].
  rewrite <- Hf. split; [eauto|].
  intros m out'' H'. destruct (while_runs_deterministic _ _ _ _ _ Hb _ _ H') as [-> _].
  reflexivity.
Qed.

(** A loop that counts [i] from 0 while [i < m]. *)
Lemma counting_loop_runs m :
  forall d counter i,
    (i + d = m) -> (counter <= 2 ^ 24) ->
    while_runs (fun s => wrapped_cond N (fun i => (i <? m)) s.1 s.2)
      (fun s => wrapped_body N N.succ s.1 s.2) (counter, i) d
      (N.min (counter + d) (2 ^ 24), m).
Proof.
  intros d. induction d as [|d IH] using N.peano_ind; intros counter i Hd Hc.
  - replace (N.min (counter + 0) (2 ^ 24)) with counter by lia.
    replace m with i by lia. apply while_stop. cbn. unfold wrapped_cond.
    apply N.ltb_ge. lia.
  - apply while_step.
    + cbn. unfold wrapped_cond. apply N.ltb_lt. lia.
    + unfold wrapped_body at 2. cbn [fst snd]. rewrite f32_increment by exact Hc.
      replace (N.min (counter + N.succ d) (2 ^ 24))
        with (N.min (N.min (counter + 1) (2 ^ 24) + d) (2 ^ 24)) by lia.
      apply IH; lia.
Qed.

(** The backward condition is the comparison of its first two arguments. *)
Lemma grad_cond_spec {G} counter max_iters (unused_args : G) :
  grad_cond G counter max_iters unused_args = true <-> counter < max_iters.
Proof. unfold grad_cond, f32_less. apply N.ltb_lt. Qed.

(** Up to [2^24] iterations the backward loop makes exactly as many
    iterations as the forward loop did. *)
Lemma backward_matches_forward {V G} (cond : V -> bool) (body : V -> V)
    (grad_outs : G -> G) v0 g0 n out :
  n <= 2 ^ 24 ->
  forward_runs cond body v0 n out ->
  (exists out', backward_runs grad_outs out.1 g0 n out') /\
  (forall m out', backward_runs grad_outs out.1 g0 m out' -> m = n).
Proof.
  intros Hn Hf. destruct (backward_iterations cond body grad_outs v0 g0 n out Hf) as [H1 H2].
  replace (N.min n (2 ^ 24)) with n in * by lia. auto.
Qed.

(** C2, at a forward loop of [2^24 + 1] iterations.  The loop that counts
    [i] from 0 while [i < 16777217] makes 16777217 iterations, but its
    float32 iteration counter stops at 16777216; the backward loop, whose
    condition is [counter < total_iters] with [total_iters] that counter
    output and a counter that starts at 0, makes 16777216 iterations: one
    fewer than the forward loop. *)
Theorem backward_loop_stops_early :
  forward_runs (fun i => i <? 16777217) N.succ 0 16777217 (16777216, 16777217) /\
  (exists out, backward_runs (fun g : unit => g) 16777216 tt 16777216 out) /\
  (forall m out, backward_runs (fun g : unit => g) 16777216 tt m out -> m = 16777216).
Proof.
  assert (Hf : forward_runs (fun i => i <? 16777217) N.succ 0 16777217 (16777216, 16777217)).
  { unfold forward_runs.
    pose proof (counting_loop_runs 16777217 16777217 0 0 eq_refl ltac:(vm_compute; discriminate))
      as H.
    exact H. }
  split; [exact Hf|].
  exact (backward_iterations _ _ (fun g : unit => g) 0 tt 16777217 _ Hf).
Qed.

End Counters.

(** ** The counters of the two While operations *)

Lemma grad_accumulate_outer recursion_limit its :
  forall outer self self' outer',
    grad_accumulate recursion_limit outer self its = Some (Ok (self', outer')) ->
    forall op, op ∈ fg_operations outer -> op ∈ fg_operations outer'.
Proof.
  induction its as [|it its IH]; intros outer self self' outer' H op Hop.
  - inversion H; subst. exact Hop.
  - cbn [grad_accumulate] in H. unfold add_op1, add_op, add_op_with_value in H.
    cbv beta iota zeta in H.
    destruct (grad_capture _ _ _ _) as [[[ph self1]|e]|]; try discriminate.
    eapply IH; [exact H|]. cbn [fg_operations]. apply elem_of_app. left. exact Hop.
Qed.

(** The backward While operation that [_WhileGrad] emits takes as its first
    input a constant 0 created for it and as its second input output 0 of
    the forward While operation. *)
Lemma backward_loop_counter_inputs
    graph_of maybe_captured IsTrainable _get_body_graph trace_grad_fn trace_grad_cond
    recursion_limit outer op grads r outer' :
  _WhileGrad graph_of maybe_captured IsTrainable _get_body_graph trace_grad_fn
    trace_grad_cond recursion_limit outer op grads = Some (Ok (r, outer')) ->
  exists while_op counter total_iters,
    last (fg_operations outer') = Some while_op /\ op_type while_op = "While" /\
    op_inputs while_op !! 0 = Some counter /\
    mkOp (t_op_name counter) "Const" [] [counter] (Some 0%N) ∈ fg_operations outer' /\
    op_inputs while_op !! 1 = Some total_iters /\
    op_outputs op !! 0 = Some total_iters.
Proof.
  unfold _WhileGrad.
  destruct (mapM_result _ _) as [grads'|e]; [|discriminate].
  cbn [mbind result_bind].
  destruct (py_assert _ _ _) as [[]|e]; [|discriminate]. cbn [mbind result_bind].
  destruct (decide (_ = [])); [discriminate|].
  unfold _create_grad_func.
  destruct (py_assert _ _ _) as [[]|e]; [|discriminate].
  unfold constant, add_op_with_value. cbv beta iota zeta.
  destruct (py_getitem (op_outputs op) 0) as [total_iters|e] eqn:Etot; [|discriminate].
  apply py_getitem_Ok in Etot.
  destruct (trace_grad_fn _ _ _ _ _) as [[gfg|e]|]; try discriminate.
  destruct (add_popped_outputs _ _) as [gfg'|e]; [|discriminate].
  cbn [mbind result_bind].
  destruct (_get_intermediates _) as [ints|e]; [|discriminate].
  destruct (grad_accumulate _ _ _ _) as [[[bgg2 outer2]|e]|] eqn:Eacc; try discriminate.
  intros H. inversion H as [H']. clear H.
  apply bind_Ok in H' as (cg & _ & H'). apply bind_Ok in H' as ([] & _ & H').
  unfold add_op, add_op_with_value in H'. cbv beta iota zeta in H'.
  apply bind_Ok in H' as (padded & _ & H'). inversion H'; subst. clear H'.
  eexists _, _, total_iters. cbn [fg_operations op_inputs op_type].
  split; [apply last_snoc|]. split; [reflexivity|]. split; [reflexivity|].
  split; [|split; [reflexivity | exact Etot]].
  apply elem_of_app. left.
  eapply grad_accumulate_outer; [exact Eacc|].
  cbn [fg_operations t_op_name]. apply elem_of_app. right. left.
Qed.

(** The forward While operation that [while_loop] emits takes as its first
    input the constant 0 created as [loop_counter]. *)
Lemma forward_loop_counter_input
    trace_cond trace_body outer orig_loop_vars shape_invariants a :
  while_loop_assemble trace_cond trace_body outer orig_loop_vars shape_invariants = Ok a ->
  flatten (Seq (as_loop_vars a)) !! 0 = Some (constant outer 0%N).1 /\
  mkOp (t_op_name (constant outer 0%N).1) "Const" [] [(constant outer 0%N).1] (Some 0%N)
    ∈ fg_operations (constant outer 0%N).2.
Proof.
  intros H. apply while_loop_assemble_Ok_assembled in H.
  destruct H as [cg bg cg' ints _ _ _ _ _ Ha]. split.
  - destruct (accumulate_loop_vars ints
                (mkAssembly (constant outer 0%N).2
                   (body_loop_vars outer orig_loop_vars cg ++ (Leaf <$> external_captures bg))
                   cg' (with_passthrough bg))) as (tls & _ & Hlv).
    rewrite <- Ha in Hlv. rewrite Hlv. reflexivity.
  - cbn. apply elem_of_app. right. left.
Qed.

(** * Further properties *)

(** ** Element shapes *)

Lemma convertible_dim_inj (d1 d2 : Dimension) :
  match d1 with Some n => Z.of_N n | None => (-1)%Z end
  = match d2 with Some n => Z.of_N n | None => (-1)%Z end -> d1 = d2.
Proof.
  destruct d1 as [n1|], d2 as [n2|]; intros H; try reflexivity; try lia.
  f_equal. lia.
Qed.

Lemma convertible_dims_inj (l1 l2 : list Dimension) :
  (fun s : Dimension => match s with Some n => Z.of_N n | None => (-1)%Z end) <$> l1
  = (fun s : Dimension => match s with Some n => Z.of_N n | None => (-1)%Z end) <$> l2 ->
  l1 = l2.
Proof.
  revert l2. induction l1 as [|d1 l1 IH]; intros [|d2 l2] H; simpl in H;
    try discriminate; [reflexivity|].
  inversion H as [[Hd Hl]]. f_equal; [apply convertible_dim_inj; exact Hd | apply IH; exact Hl].
Qed.

(** X1.  [_get_tensor_convertible_shape] loses nothing of a shape.  A fully
    defined shape is returned as it is, a shape of unknown rank becomes -1,
    and a partially defined shape becomes a list of the same rank that holds
    -1 exactly where a dimension is unknown and the size elsewhere; so two
    different shapes never convert to the same value. *)
Theorem convertible_shape_is_faithful (shape : TensorShape) :
  (is_fully_defined shape = true -> _get_tensor_convertible_shape shape = CS_Shape shape) /\
  (shape = None -> _get_tensor_convertible_shape shape = CS_Int (-1)) /\
  (forall dims,
     shape = Some dims -> is_fully_defined shape = false ->
     exists shape_list,
       _get_tensor_convertible_shape shape = CS_Tensor shape_list /\
       length shape_list = length dims /\
       forall i d, dims !! i = Some d ->
                   (d = None -> shape_list !! i = Some (-1)%Z) /\
                   (forall n, d = Some n -> shape_list !! i = Some (Z.of_N n))) /\
  (forall shape',
     _get_tensor_convertible_shape shape = _get_tensor_convertible_shape shape' ->
     shape = shape').
Proof.
  split; [|split; [|split]].
  - intros H. unfold _get_tensor_convertible_shape. rewrite H. reflexivity.
  - intros ->. reflexivity.
  - intros dims -> Hdef. unfold _get_tensor_convertible_shape. rewrite Hdef.
    eexists. split; [reflexivity|]. split; [apply length_fmap|].
    intros i d Hi.
    split; [intros -> | intros n ->]; apply list_lookup_fmap_Some;
      [exists None | exists (Some n)]; split; first [reflexivity | exact Hi].
  - intros shape'. unfold _get_tensor_convertible_shape.
    destruct (is_fully_defined shape) eqn:E1, (is_fully_defined shape') eqn:E2;
      destruct shape as [dims|], shape' as [dims'|]; try discriminate;
      intros H; try reflexivity; inversion H; subst; try reflexivity.
    f_equal. apply convertible_dims_inj. assumption.
Qed.

(** ** Packing loop variables *)

Lemma zip_with_take_l {A B C} (f : A -> B -> C) (l : list A) (k : list B) :
  zip_with f (take (length k) l) k = zip_with f l k.
Proof.
  revert k. induction l as [|a l IH]; intros [|b k]; simpl; try reflexivity.
  f_equal. apply IH.
Qed.

Lemma pack_sequence_as_Raise {A B} (s : nest A) (flat : list B) :
  length (flatten s) <> length flat ->
  pack_sequence_as s flat = Raise (ValueError "Could not pack sequence." []).
Proof.
  intros H. unfold pack_sequence_as.
  destruct (decide (length (flatten s) = length flat)); [contradiction | reflexivity].
Qed.

Lemma _pack_sequence_as_short (s : nest LoopVar) (loop_vars : list Tensor) :
  length loop_vars < length (flatten s) ->
  _pack_sequence_as s loop_vars = Raise (ValueError "Could not pack sequence." []).
Proof.
  intros Hlt. unfold _pack_sequence_as. apply pack_sequence_as_Raise.
  rewrite length_fmap, length_zip_with. lia.
Qed.

Lemma _pack_sequence_as_front (s : nest LoopVar) (loop_vars : list Tensor) :
  _pack_sequence_as s loop_vars
  = _pack_sequence_as s (take (length (flatten s)) loop_vars).
Proof.
  unfold _pack_sequence_as.
  rewrite (zip_with_take_l pair loop_vars (flatten s)). reflexivity.
Qed.

(** X2.  [_pack_sequence_as] takes the values it packs from the front of
    [loop_vars]: it returns exactly when there are at least as many values as
    the structure has leaves, further values are ignored, and too few values
    are a ValueError. *)
Theorem _pack_sequence_as_accepts (s : nest LoopVar) (loop_vars : list Tensor) :
  ((exists r, _pack_sequence_as s loop_vars = Ok r)
   <-> length (flatten s) <= length loop_vars) /\
  _pack_sequence_as s loop_vars
  = _pack_sequence_as s (take (length (flatten s)) loop_vars) /\
  (length loop_vars < length (flatten s) ->
   _pack_sequence_as s loop_vars = Raise (ValueError "Could not pack sequence." [])).
Proof.
  split; [|split].
  - split.
    + intros (r & Hr).
      destruct (decide (length (flatten s) <= length loop_vars)) as [Hle|Hgt]; [exact Hle|].
      rewrite _pack_sequence_as_short in Hr by lia. discriminate.
    + intros Hle. rewrite _pack_sequence_as_front.
      destruct (_pack_sequence_as_spec s (take (length (flatten s)) loop_vars))
        as (p & Hp & _); [rewrite length_take; lia|].
      exists p. exact Hp.
  - apply _pack_sequence_as_front.
  - apply _pack_sequence_as_short.
Qed.

Lemma flow_of_flow_to_tensor_array flow v :
  match flow_to_tensor_array flow v with
  | LV_TensorArray ta => ta_flow ta
  | LV_Tensor t => t
  end = flow.
Proof. destruct v; reflexivity. Qed.

(** X3.  Packing and lowering are inverse to each other.  The structure
    [_pack_sequence_as] returns has the nesting of the structure it was given
    and lowers ([_tensor_array_to_flow]) to the values that were packed;
    where the given structure has a TensorArray the result has a TensorArray
    with the same handle, element type and shape and the new flow, elsewhere
    it has the packed tensor; and packing the lowered values of a structure
    gives the structure back. *)
Theorem flows_round_trip (s : nest LoopVar) (loop_vars : list Tensor) (r : nest LoopVar) :
  _pack_sequence_as s loop_vars = Ok r ->
  same_structure s r = true /\
  flatten (_tensor_array_to_flow r) = take (length (flatten s)) loop_vars /\
  Forall2 (fun old new =>
             match old with
             | LV_Tensor _ => exists t, new = LV_Tensor t
             | LV_TensorArray ta =>
                 exists flow,
                   new = LV_TensorArray
                           (mkTensorArray (ta_dtype ta) (ta_handle ta) flow
                              (ta_infer_shape ta) (ta_colocate_with_first_write_call ta)
                              (ta_colocate_with ta) (ta_element_shape ta))
             end) (flatten s) (flatten r) /\
  _pack_sequence_as r (flatten (_tensor_array_to_flow r)) = Ok r.
Proof.
  intros H.
  assert (Hle : length (flatten s) <= length loop_vars).
  { destruct (decide (length (flatten s) <= length loop_vars)) as [Hle|Hgt]; [exact Hle|].
    rewrite _pack_sequence_as_short in H by lia. discriminate. }
  rewrite _pack_sequence_as_front in H.
  destruct (_pack_sequence_as_spec s (take (length (flatten s)) loop_vars))
    as (r' & Hr' & Hsame & Hflat); [rewrite length_take; lia|].
  rewrite Hr' in H. inversion H; subst r'. clear H.
  set (front := take (length (flatten s)) loop_vars) in *.
  assert (Hfront : length front = length (flatten s))
    by (unfold front; rewrite length_take; lia).
  split; [exact Hsame|]. split; [|split].
  - unfold _tensor_array_to_flow. rewrite flatten_map_structure, Hflat.
    rewrite <- list_fmap_compose.
    clear Hflat Hr' Hsame. revert Hfront. generalize (flatten s) as k. generalize front as l.
    induction l as [|a l IH]; intros [|b k] Hlen; simpl in Hlen; try discriminate;
      [reflexivity|].
    cbn. rewrite flow_of_flow_to_tensor_array. f_equal. apply IH. lia.
  - rewrite Hflat. clear Hflat Hr' Hsame. revert Hfront.
    generalize (flatten s) as k. generalize front as l.
    induction l as [|a l IH]; intros [|b k] Hlen; simpl in Hlen; try discriminate;
      [constructor|].
    cbn. constructor; [|apply IH; lia].
    destruct b as [t|ta]; cbn; eauto.
  - apply _pack_sequence_as_roundtrip.
Qed.

Lemma flows_round_trip_witness :
  let ta := mkTensorArray DT_FLOAT (mkTensor 0 1 0 DT_RESOURCE scalar)
              (mkTensor 0 2 0 DT_FLOAT scalar) true false [] None in
  let s := Seq [Leaf (LV_Tensor (mkTensor 0 0 0 DT_INT32 scalar)); Seq [Leaf (LV_TensorArray ta)]] in
  let loop_vars := [mkTensor 0 7 0 DT_INT32 scalar; mkTensor 0 8 0 DT_FLOAT scalar;
                    mkTensor 0 9 0 DT_FLOAT scalar] in
  exists r,
    _pack_sequence_as s loop_vars = Ok r /\
    flatten (_tensor_array_to_flow r)
    = [mkTensor 0 7 0 DT_INT32 scalar; mkTensor 0 8 0 DT_FLOAT scalar].
Proof.
  intros ta s loop_vars. eexists. split; [vm_compute; reflexivity|].
  refine (proj1 (proj2 (flows_round_trip s loop_vars _ _))).
  vm_compute. reflexivity.
Defined.

(** ** Signatures *)

(** X4.  [_build_signature] returns exactly when the shape invariants have at
    least as many leaves as the loop variables; the signature then has the
    nesting of the loop variables, and its i-th leaf carries the i-th shape
    invariant with the type and the operation name of the i-th loop variable.
    With fewer invariants it is a ValueError. *)
Theorem _build_signature_spec (loop_vars : nest Tensor) (shape_invariants : nest TensorShape) :
  (length (flatten loop_vars) <= length (flatten shape_invariants) ->
   exists sig,
     _build_signature loop_vars shape_invariants = Ok sig /\
     same_structure loop_vars sig = true /\
     length (flatten sig) = length (flatten loop_vars) /\
     forall i t, flatten loop_vars !! i = Some t ->
                 exists s, flatten shape_invariants !! i = Some s /\
                           flatten sig !! i = Some (mkTensorSpec s (t_dtype t) (t_op_name t))) /\
  (length (flatten shape_invariants) < length (flatten loop_vars) ->
   _build_signature loop_vars shape_invariants
   = Raise (ValueError "Could not pack sequence." [])).
Proof.
  assert (Hlen : length ((fun z : TensorShape * Tensor =>
                            mkTensorSpec z.1 (t_dtype z.2) (t_op_name z.2))
                           <$> zip (flatten shape_invariants) (flatten loop_vars))
                 = length (flatten shape_invariants) `min` length (flatten loop_vars)).
  { rewrite length_fmap. apply length_zip_with. }
  split.
  - intros Hle. unfold _build_signature.
    destruct (pack_sequence_as_spec loop_vars
                ((fun z : TensorShape * Tensor =>
                    mkTensorSpec z.1 (t_dtype z.2) (t_op_name z.2))
                   <$> zip (flatten shape_invariants) (flatten loop_vars)))
      as (p & Hp & Hsame & Hflat); [lia|].
    exists p. split; [exact Hp|]. split; [exact Hsame|]. split.
    + rewrite Hflat, Hlen. lia.
    + intros i t Hi.
      destruct (lookup_lt_is_Some_2 (flatten shape_invariants) i) as (s & Hs).
      { apply lookup_lt_Some in Hi. lia. }
      exists s. split; [exact Hs|].
      assert (Hz : zip (flatten shape_invariants) (flatten loop_vars) !! i = Some (s, t)).
      { apply lookup_zip_with_Some. exists s, t. auto. }
      rewrite Hflat. apply list_lookup_fmap_Some. exists (s, t). split; [reflexivity | exact Hz].
  - intros Hlt. unfold _build_signature. apply pack_sequence_as_Raise. lia.
Qed.

(** ** Arity checks *)

(** X5.  [_check_num_inputs_outputs] returns exactly when the cond graph has
    [n] inputs and one output and the body graph has [n] inputs and [n]
    outputs; it raises nothing but an AssertionError; and when only the
    number of inputs of the body graph is wrong, the message it raises
    reports the number of inputs of the cond graph, not that of the body
    graph. *)
Theorem check_num_inputs_outputs_spec (cond_graph body_graph : FuncGraph) (n : nat) :
  (_check_num_inputs_outputs cond_graph body_graph n = Ok tt <->
   length (fg_inputs cond_graph) = n /\ length (fg_outputs cond_graph) = 1 /\
   length (fg_inputs body_graph) = n /\ length (fg_outputs body_graph) = n) /\
  (forall e,
     _check_num_inputs_outputs cond_graph body_graph n = Raise e ->
     exists msg args, e = AssertionError msg args) /\
  (length (fg_inputs cond_graph) = n -> length (fg_outputs cond_graph) = 1 ->
   length (fg_inputs body_graph) <> n ->
   _check_num_inputs_outputs cond_graph body_graph n
   = Raise (AssertionError "body_graph takes %d inputs; Expected: %d"
              [pretty (length (fg_inputs cond_graph)); pretty n])).
Proof.
  split; [apply check_num_inputs_outputs_Ok|]. split.
  - intros e. unfold _check_num_inputs_outputs, py_assert.
    repeat (case_bool_decide; cbn [mbind result_bind]);
      intros Hraise; inversion Hraise; eauto.
  - intros H1 H2 H3. unfold _check_num_inputs_outputs, py_assert.
    rewrite (bool_decide_eq_true_2 _ H1), (bool_decide_eq_true_2 _ H2).
    cbn [mbind result_bind].
    rewrite (bool_decide_eq_false_2 _ H3). reflexivity.
Qed.

(** ** Gradient requests that are refused *)

Lemma forallb_lookup_false {A} (f : A -> bool) (l : list A) i x :
  l !! i = Some x -> f x = false -> forallb f l = false.
Proof.
  revert i. induction l as [|a l IH]; intros [|i] Hi Hf; simpl in *; try discriminate.
  - inversion Hi; subst. rewrite Hf. reflexivity.
  - rewrite (IH i Hi Hf). apply andb_false_r.
Qed.

Section WhileGradErrors.

Variable graph_of : gid -> FuncGraph.
Variable maybe_captured : Tensor -> Tensor.
Variable IsTrainable : Tensor -> bool.
Variable _get_body_graph : Operation -> FuncGraph.
Variable trace_grad_fn :
  list Tensor -> list Tensor -> list Tensor -> FuncGraph -> Operation ->
  option (result WhileBodyGradFuncGraph).
Variable trace_grad_cond : list Tensor -> result FuncGraph.
Variable recursion_limit : nat.

Lemma override_total (grads : list (option Tensor)) (outputs : list Tensor) :
  Forall (fun o => exists b, _is_tensor_array_handle graph_of maybe_captured o = Ok b)
    outputs ->
  exists grads',
    mapM_result
      (fun z : option Tensor * Tensor =>
         b ← _is_tensor_array_handle graph_of maybe_captured z.2;
         Ok (if b : bool then None else z.1))
      (zip grads outputs) = Ok grads'.
Proof.
  revert outputs. induction grads as [|g grads IH]; intros [|o outputs] H; simpl;
    try (eexists; reflexivity).
  inversion H as [|? ? (b & Hb) H']; subst. rewrite Hb. cbn [mbind result_bind].
  destruct (IH outputs H') as (grads' & ->). eexists. reflexivity.
Qed.

Lemma is_tensor_array_handle_not_resource (t : Tensor) :
  t_dtype t <> DT_RESOURCE ->
  _is_tensor_array_handle graph_of maybe_captured t = Ok false.
Proof.
  intros H. unfold _is_tensor_array_handle.
  destruct (decide (t_dtype t = DT_RESOURCE)); [contradiction | reflexivity].
Qed.

(** X6.  A trainable output of the forward While operation that is not a
    resource must come with an incoming gradient: when one has none,
    [_WhileGrad] raises the AssertionError of lines 264-267 and builds
    nothing. *)
Theorem missing_gradient_is_refused outer op grads i o :
  Forall (fun o => exists b, _is_tensor_array_handle graph_of maybe_captured o = Ok b)
    (op_outputs op) ->
  op_outputs op !! i = Some o -> grads !! i = Some None ->
  t_dtype o <> DT_RESOURCE -> IsTrainable o = true ->
  _WhileGrad graph_of maybe_captured IsTrainable _get_body_graph trace_grad_fn
    trace_grad_cond recursion_limit outer op grads
  = Some (Raise (AssertionError "All trainable loop vars must receive incoming gradients." [])).
Proof.
  intros Hret Ho Hg Hres Htr.
  destruct (override_total grads (op_outputs op) Hret) as (grads' & Hov).
  destruct (override_lookup graph_of maybe_captured grads (op_outputs op) grads' Hov)
    as [_ Hlook].
  destruct (Hlook i None o Hg Ho) as (b & _ & Hg').
  assert (Hnone : grads' !! i = Some None) by (destruct b; exact Hg').
  unfold _WhileGrad. rewrite Hov. cbn [mbind result_bind].
  rewrite (forallb_lookup_false _ (zip (op_outputs op) grads') i (o, None)).
  - reflexivity.
  - apply lookup_zip_with_Some. exists o, None. auto.
  - cbn. rewrite Htr. repeat case_bool_decide; first [reflexivity | contradiction | congruence].
Qed.





End WhileGradErrors.

Lemma missing_gradient_is_refused_witness :
  ex_WhileGrad ex2_returned.2 ex2_while_op (replicate 12 None)
  = Some (Raise (AssertionError "All trainable loop vars must receive incoming gradients." [])).
Proof.
  eapply (missing_gradient_is_refused ex_graph_of id ex_IsTrainable
            (fun _ => as_body_graph ex2_assembly) ex_trace_grad_fn ex_trace_grad_cond 8
            ex2_returned.2 ex2_while_op (replicate 12 None) 0).
  - vm_compute. repeat constructor; eexists; reflexivity.
  - vm_compute. reflexivity.
  - reflexivity.
  - discriminate.
  - reflexivity.
Defined.


(** ** The outputs of the backward body *)

Lemma add_popped_outputs_Ok internal :
  forall self self',
    add_popped_outputs self internal = Ok self' ->
    self' = gg_with_graph self
              (set_outputs (gg_graph self)
                 (fg_outputs (gg_graph self)
                    ++ ((fun c => default c (popped_tensor_lists self !! c)) <$> internal))) /\
    Forall (fun c => is_Some (popped_tensor_lists self !! c) \/ t_dtype c = DT_RESOURCE)
      internal.
Proof.
  induction internal as [|c internal IH]; intros self self' H; simpl in H.
  - injection H as <-. split; [|constructor].
    destruct self as [[] ? ? ? ? ?]. unfold gg_with_graph, set_outputs. cbn.
    rewrite app_nil_r. reflexivity.
  - destruct (popped_tensor_lists self !! c) as [popped|] eqn:E.
    + apply IH in H as [-> Hall]. cbn in *. split.
      * unfold gg_with_graph, set_outputs. cbn. rewrite E. cbn.
        rewrite <- app_assoc. reflexivity.
      * constructor; [left; eauto | exact Hall].
    + destruct (decide (t_dtype c = DT_RESOURCE)) as [Hres|Hres]; [|discriminate].
      apply IH in H as [-> Hall]. cbn in *. split.
      * unfold gg_with_graph, set_outputs. cbn. rewrite E. cbn.
        rewrite <- app_assoc. reflexivity.
      * constructor; [right; exact Hres | exact Hall].
Qed.

Lemma add_popped_outputs_Raise internal :
  forall self e,
    add_popped_outputs self internal = Raise e ->
    exists c,
      c ∈ internal /\ popped_tensor_lists self !! c = None /\ t_dtype c <> DT_RESOURCE /\
      e = ValueError
            "Tensor %s is in list of internal_captures but is neither a resource nor is in popped_tensor_lists."
            [str_tensor c].
Proof.
  induction internal as [|c internal IH]; intros self e H; simpl in H; [discriminate|].
  destruct (popped_tensor_lists self !! c) as [popped|] eqn:E.
  - apply IH in H as (c' & Hin & Hp & Hres & ->). exists c'.
    split; [right; exact Hin | auto].
  - destruct (decide (t_dtype c = DT_RESOURCE)) as [Hres|Hres].
    + apply IH in H as (c' & Hin & Hp & Hres' & ->). exists c'.
      split; [right; exact Hin | auto].
    + inversion H; subst. exists c. split; [left | auto].
Qed.

Section CreateGradFunc.

Variable trace_grad_fn :
  list Tensor -> list Tensor -> list Tensor -> FuncGraph -> Operation ->
  option (result WhileBodyGradFuncGraph).

(** X8.  [_create_grad_func] calls the backward body with the arguments
    [counter, total_iters] followed by the incoming gradients, where
    [counter] is a new constant 0 of the default graph and [total_iters] is
    output 0 of the forward While operation, and gives the traced body one
    more output per captured input, in the order of the captures: the list
    left after the pop where the capture is an accumulator, the captured
    placeholder itself where it is a resource.  Inputs and captures of the
    traced body are left as they are. *)
Theorem create_grad_func_outputs outer ys xs grads func_graph while_op g args outer' :
  _create_grad_func trace_grad_fn outer ys xs grads func_graph while_op
  = Some (Ok (g, args, outer')) ->
  exists traced total_iters,
    length ys = length grads /\
    op_outputs while_op !! 0 = Some total_iters /\
    args = [(constant outer 0%N).1; total_iters] ++ grads /\
    outer' = (constant outer 0%N).2 /\
    trace_grad_fn ys xs args func_graph while_op = Some (Ok traced) /\
    fg_outputs (gg_graph g)
    = fg_outputs (gg_graph traced)
        ++ ((fun c => default c (popped_tensor_lists traced !! c))
              <$> internal_captures (gg_graph traced)) /\
    Forall (fun c => is_Some (popped_tensor_lists traced !! c) \/ t_dtype c = DT_RESOURCE)
      (internal_captures (gg_graph traced)) /\
    fg_inputs (gg_graph g) = fg_inputs (gg_graph traced) /\
    fg_captures (gg_graph g) = fg_captures (gg_graph traced) /\
    fg_operations (gg_graph g) = fg_operations (gg_graph traced).
Proof.
  unfold _create_grad_func. intros H.
  destruct (py_assert _ _ _) as [[]|e] eqn:Ea; [|discriminate].
  apply py_assert_Ok, bool_decide_eq_true in Ea.
  destruct (constant outer 0%N) as [counter outer1] eqn:Ec.
  destruct (py_getitem (op_outputs while_op) 0) as [total_iters|e] eqn:Et; [|discriminate].
  apply py_getitem_Ok in Et.
  destruct (trace_grad_fn ys xs ([counter; total_iters] ++ grads) func_graph while_op)
    as [[traced|e]|] eqn:Etr; try discriminate.
  inversion H as [H']. clear H. inv_bind H'. inversion H'; subst. clear H'.
  apply add_popped_outputs_Ok in Ha as [-> Hall].
  exists traced, total_iters. cbn. repeat split; auto.
Qed.

End CreateGradFunc.

Lemma create_grad_func_outputs_witness :
  exists traced total_iters,
    ex_grad_func.1.2 = [(constant ex2_returned.2 0%N).1; total_iters] /\
    fg_outputs (gg_graph ex_grad_func.1.1)
    = fg_outputs (gg_graph traced)
        ++ ((fun c => default c (popped_tensor_lists traced !! c))
              <$> internal_captures (gg_graph traced)).
Proof.
  assert (H : _create_grad_func ex_trace_grad_fn ex2_returned.2 [] [] []
                (as_body_graph ex2_assembly) ex2_while_op
              = Some (Ok (ex_grad_func.1.1, ex_grad_func.1.2, ex_grad_func.2)))
    by (vm_compute; reflexivity).
  destruct (create_grad_func_outputs _ _ _ _ _ _ _ _ _ _ H)
    as (traced & total_iters & _ & _ & Hargs & _ & _ & Houts & _).
  exists traced, total_iters. split; [exact Hargs | exact Houts].
Defined.

(** ** What [while_loop] adds to the default graph *)

Lemma appends_refl g : appends g g [].
Proof. unfold appends. rewrite app_nil_r. simpl. repeat split; lia. Qed.

Lemma appends_trans g1 g2 g3 ops1 ops2 :
  appends g1 g2 ops1 -> appends g2 g3 ops2 -> appends g1 g3 (ops1 ++ ops2).
Proof.
  intros (H1 & H2 & H3 & H4 & H5 & H6 & H7) (K1 & K2 & K3 & K4 & K5 & K6 & K7).
  unfold appends. rewrite K1, H1, app_assoc, length_app. repeat split; try congruence. lia.
Qed.

Lemma add_op_with_value_appends g type inputs outs value :
  appends g (add_op_with_value g type inputs outs value).2
    [(add_op_with_value g type inputs outs value).1].
Proof. unfold appends, add_op_with_value. cbn. repeat split; lia. Qed.

Lemma add_op1_appends g type inputs d s :
  appends g (add_op1 g type inputs d s).2
    [mkOp (fg_next_name g) type inputs [(add_op1 g type inputs d s).1] None].
Proof. unfold appends, add_op1, add_op, add_op_with_value. cbn. repeat split; lia. Qed.

Lemma constant_appends g value :
  appends g (constant g value).2
    [mkOp (fg_next_name g) "Const" [] [(constant g value).1] (Some value)].
Proof. unfold appends, constant, add_op_with_value. cbn. repeat split; lia. Qed.

Lemma accumulate_one_outer a it :
  as_outer (accumulate_one a it)
  = (add_op1 (as_outer a) "EmptyTensorList" [] DT_VARIANT scalar).2.
Proof.
  unfold accumulate_one.
  destruct (add_op1 (as_outer a) "EmptyTensorList" [] DT_VARIANT scalar) as [tl o].
  destruct (create_op1 _ _ _ _ _) as [app b]. reflexivity.
Qed.

Lemma accumulate_outer its :
  forall a, exists tls,
    appends (as_outer a) (as_outer (accumulate a its)) tls /\
    length tls = length its /\
    Forall (fun op => op_type op = "EmptyTensorList" /\ op_inputs op = []) tls.
Proof.
  unfold accumulate. induction its as [|it its IH]; intros a; simpl.
  - exists []. split; [apply appends_refl | split; [reflexivity | constructor]].
  - destruct (IH (accumulate_one a it)) as (tls & Happ & Hlen & Hall).
    rewrite accumulate_one_outer in Happ.
    eexists (_ :: tls). split; [|split].
    + apply (appends_trans _ _ _ [_] tls (add_op1_appends _ _ _ _ _) Happ).
    + simpl. rewrite Hlen. reflexivity.
    + constructor; [split; reflexivity | exact Hall].
Qed.

Lemma identities_appends ws :
  forall outer, exists ids,
    appends outer (identities outer ws).2 ids /\
    Forall2 (fun w id => op_type id = "Identity" /\ op_inputs id = [w]) ws ids /\
    Forall2 (fun id o => op_outputs id = [o]) ids (identities outer ws).1.
Proof.
  induction ws as [|w ws IH]; intros outer; cbn [identities].
  - exists []. split; [apply appends_refl | split; constructor].
  - pose proof (add_op1_appends outer "Identity" [w] (t_dtype w) (t_shape w)) as H1.
    destruct (add_op1 outer "Identity" [w] (t_dtype w) (t_shape w)) as [t' outer1] eqn:E1.
    destruct (IH outer1) as (ids & Happ & Hall & Hout).
    destruct (identities outer1 ws) as [ts outer2] eqn:E2. cbn [fst snd] in *.
    eexists (_ :: ids). split; [|split].
    + apply (appends_trans _ _ _ [_] ids H1 Happ).
    + constructor; [split; reflexivity | exact Hall].
    + constructor; [reflexivity | exact Hout].
Qed.

(** X9.  [while_loop] emits a single While operation.  To the default graph
    it adds, in this order and after the operations that are there, the
    constant 0 of the loop counter, the operations that create the
    accumulators of the intermediates (none of them a While), the While
    operation and one Identity per output of the While operation; it changes
    nothing else of the default graph.  The While operation has as many
    outputs as inputs and the counter is its first input. *)
Theorem while_loop_emits_a_single_While
    trace_cond trace_body outer orig_loop_vars shape_invariants r outer' :
  while_loop trace_cond trace_body outer orig_loop_vars shape_invariants = Ok (r, outer') ->
  exists counter tensor_lists while_op ids,
    appends outer outer'
      ([mkOp (fg_next_name outer) "Const" [] [counter] (Some 0%N)]
         ++ tensor_lists ++ [while_op] ++ ids) /\
    Forall (fun op => op_type op <> "While") tensor_lists /\
    op_type while_op = "While" /\
    op_inputs while_op !! 0 = Some counter /\
    length (op_outputs while_op) = length (op_inputs while_op) /\
    Forall2 (fun o id => op_type id = "Identity" /\ op_inputs id = [o])
      (op_outputs while_op) ids.
Proof.
  intros H. unfold while_loop in H. inv_bind H.
  pose proof (while_loop_assemble_arity _ _ _ _ _ _ Ha) as Harity.
  apply check_num_inputs_outputs_Ok in Harity as (_ & _ & _ & Hbo).
  pose proof (forward_loop_counter_input _ _ _ _ _ _ Ha) as [Hcounter _].
  apply while_loop_assemble_Ok_assembled in Ha.
  destruct Ha as [cg bg cg' ints _ _ _ _ _ Ha].
  destruct (accumulate_outer ints
              (mkAssembly (constant outer 0%N).2
                 (body_loop_vars outer orig_loop_vars cg ++ (Leaf <$> external_captures bg))
                 cg' (with_passthrough bg))) as (tls & Htls & _ & Hall).
  rewrite <- Ha in Htls. cbn [as_outer] in Htls.
  set (lvs := flatten (Seq (as_loop_vars a))) in *.
  set (outs := (fun z : Tensor * Tensor => (t_dtype z.1, t_shape z.2))
                 <$> zip lvs (fg_outputs (as_body_graph a))) in *.
  pose proof (add_op_with_value_appends (as_outer a) "While" lvs outs None) as Hw.
  unfold add_op in H.
  destruct (add_op_with_value (as_outer a) "While" lvs outs None) as [while_op o2] eqn:Ew.
  cbn [fst snd] in Hw.
  destruct (identities_appends (op_outputs while_op) o2) as (ids & Hids & Hin & _).
  destruct (identities o2 (op_outputs while_op)) as [outputs o3] eqn:Ei.
  cbn [fst snd] in Hids. inv_bind H. injection H as Hr Ho. subst r outer'.
  assert (Hop : while_op = mkOp (fg_next_name (as_outer a)) "While" lvs
                             (new_outputs (fg_name (as_outer a)) (fg_next_name (as_outer a)) outs)
                             None).
  { unfold add_op_with_value in Ew. inversion Ew. reflexivity. }
  exists (constant outer 0%N).1, tls, while_op, ids. split; [|split; [|split; [|split; [|split]]]].
  - apply (appends_trans _ _ _ [_] _ (constant_appends outer 0%N)).
    apply (appends_trans _ _ _ _ _ Htls).
    apply (appends_trans _ _ _ [_] _ Hw Hids).
  - apply (Forall_impl _ _ _ Hall). intros op' [Hty _]. rewrite Hty. discriminate.
  - rewrite Hop. reflexivity.
  - rewrite Hop. exact Hcounter.
  - rewrite Hop. cbn [op_inputs op_outputs]. rewrite new_outputs_length. unfold outs.
    rewrite length_fmap, length_zip_with. fold lvs in Hbo. lia.
  - exact Hin.
Qed.

Lemma while_loop_emits_a_single_While_witness :
  exists counter tensor_lists while_op ids,
    appends ex2_outer ex2_returned.2
      ([mkOp (fg_next_name ex2_outer) "Const" [] [counter] (Some 0%N)]
         ++ tensor_lists ++ [while_op] ++ ids) /\
    Forall (fun op => op_type op <> "While") tensor_lists /\
    op_type while_op = "While" /\
    op_inputs while_op !! 0 = Some counter /\
    length (op_outputs while_op) = length (op_inputs while_op) /\
    Forall2 (fun o id => op_type id = "Identity" /\ op_inputs id = [o])
      (op_outputs while_op) ids.
Proof.
  apply (while_loop_emits_a_single_While (ex_trace ex2_cond_graph) (ex_trace ex2_body_graph)
           ex2_outer ex2_loop_vars None ex2_returned.1).
  vm_compute. reflexivity.
Defined.

(** ** Captured tensors are loop invariants *)

Lemma capture_inputs g t : exists extra, fg_inputs (capture g t).2 = fg_inputs g ++ extra.
Proof.
  unfold capture. destruct (decide _).
  - exists []. rewrite app_nil_r. reflexivity.
  - unfold base_capture_helper. destruct (captures_get _ _).
    + exists []. rewrite app_nil_r. reflexivity.
    + eexists [_]. reflexivity.
Qed.

Lemma capture_all_inputs ts :
  forall g, exists extra, fg_inputs (capture_all g ts).2 = fg_inputs g ++ extra.
Proof.
  induction ts as [|t ts IH]; intros g; simpl.
  - exists []. rewrite app_nil_r. reflexivity.
  - destruct (capture_inputs g t) as (e1 & H1).
    destruct (capture g t) as [t' g1]. cbn [snd] in H1.
    destruct (IH g1) as (e2 & H2).
    destruct (capture_all g1 ts) as [ts' g2]. cbn [snd] in *.
    exists (e1 ++ e2). rewrite H2, H1, app_assoc. reflexivity.
Qed.

Lemma accumulate_one_inputs a it :
  exists extra,
    fg_inputs (as_body_graph (accumulate_one a it)) = fg_inputs (as_body_graph a) ++ extra.
Proof.
  unfold accumulate_one.
  destruct (add_op1 (as_outer a) "EmptyTensorList" [] DT_VARIANT scalar) as [tl o].
  unfold create_op1.
  destruct (capture_all_inputs [tl; it] (as_body_graph a)) as (extra & He).
  destruct (capture_all (as_body_graph a) [tl; it]) as [ins g1]. cbn [snd] in He.
  exists extra. unfold add_op1, add_op, add_op_with_value. cbn. exact He.
Qed.

Lemma accumulate_inputs its :
  forall a, exists extra,
    fg_inputs (as_body_graph (accumulate a its)) = fg_inputs (as_body_graph a) ++ extra.
Proof.
  unfold accumulate. induction its as [|it its IH]; intros a; simpl.
  - exists []. rewrite app_nil_r. reflexivity.
  - destruct (IH (accumulate_one a it)) as (e2 & H2).
    destruct (accumulate_one_inputs a it) as (e1 & H1).
    exists (e1 ++ e2). rewrite H2, H1, app_assoc. reflexivity.
Qed.

(** X10.  External tensors captured by the body are loop invariants of the
    emitted loop.  Let the closure builder return a body graph whose inputs
    are one placeholder per loop variable followed by the placeholders of
    its captures, with one output per loop variable.  Then, for each
    capture, the assembled body returns the placeholder of the capture
    unchanged at the position where it receives it, and the loop variable at
    that position is the captured tensor itself. *)
Theorem captures_are_loop_invariants
    trace_cond trace_body outer orig_loop_vars shape_invariants a cond_graph body_graph phs :
  while_loop_assemble trace_cond trace_body outer orig_loop_vars shape_invariants = Ok a ->
  trace_cond (cond_loop_vars outer orig_loop_vars)
    (cond_invariants orig_loop_vars shape_invariants) = Ok cond_graph ->
  trace_body (body_loop_vars outer orig_loop_vars cond_graph)
    (body_invariants orig_loop_vars shape_invariants cond_graph) = Ok body_graph ->
  fg_inputs body_graph = phs ++ internal_captures body_graph ->
  length (fg_outputs body_graph) = length phs ->
  length phs = length (flatten (Seq (body_loop_vars outer orig_loop_vars cond_graph))) ->
  forall i external placeholder,
    fg_captures body_graph !! i = Some (external, placeholder) ->
    fg_inputs (as_body_graph a) !! (length phs + i) = Some placeholder /\
    fg_outputs (as_body_graph a) !! (length phs + i) = Some placeholder /\
    flatten (Seq (as_loop_vars a)) !! (length phs + i) = Some external.
Proof.
  intros Ha Hc Hb Hin Hout Hlv i external placeholder Hi.
  apply while_loop_assemble_Ok_assembled in Ha.
  destruct Ha as [cg bg cg' ints _ Hc' Hb' _ _ Ha].
  rewrite Hc in Hc'. inversion Hc'; subst cg. rewrite Hb in Hb'. inversion Hb'; subst bg.
  clear Hc' Hb'.
  set (a0 := mkAssembly (constant outer 0%N).2
               (body_loop_vars outer orig_loop_vars cond_graph
                  ++ (Leaf <$> external_captures body_graph))
               cg' (with_passthrough body_graph)) in *.
  destruct (accumulate_inputs ints a0) as (e1 & H1).
  destruct (accumulate_outputs ints a0) as (e2 & _ & H2).
  destruct (accumulate_loop_vars ints a0) as (e3 & _ & H3).
  rewrite <- Ha in H1, H2, H3.
  assert (Hint : internal_captures body_graph !! i = Some placeholder).
  { unfold internal_captures. rewrite list_lookup_fmap, Hi. reflexivity. }
  assert (Hext : external_captures body_graph !! i = Some external).
  { unfold external_captures. rewrite list_lookup_fmap, Hi. reflexivity. }
  split; [|split].
  - rewrite H1. cbn [a0 as_body_graph with_passthrough set_outputs fg_inputs].
    rewrite Hin. apply lookup_app_l_Some.
    rewrite lookup_app_r by lia. replace (length phs + i - length phs) with i by lia.
    exact Hint.
  - rewrite H2. cbn [a0 as_body_graph with_passthrough set_outputs fg_outputs].
    apply lookup_app_l_Some.
    rewrite lookup_app_r by lia. replace (length phs + i - length (fg_outputs body_graph)) with i by lia.
    exact Hint.
  - rewrite H3. cbn [a0 as_loop_vars].
    rewrite !flatten_Seq_app. rewrite <- app_assoc. rewrite lookup_app_r by lia.
    apply lookup_app_l_Some.
    replace (length phs + i - length (flatten (Seq (body_loop_vars outer orig_loop_vars cond_graph))))
      with i by lia.
    assert (E : forall l : list Tensor, flatten (Seq (Leaf <$> l)) = l).
    { induction l as [|x l IH]; [reflexivity|].
      rewrite fmap_cons, flatten_Seq_cons, IH. reflexivity. }
    rewrite E. exact Hext.
Qed.

Lemma captures_are_loop_invariants_witness :
  fg_inputs (as_body_graph ex2_assembly) !! 3 = Some (mkTensor 2 3 0 DT_RESOURCE (Some [Some 2%N])) /\
  fg_outputs (as_body_graph ex2_assembly) !! 3 = Some (mkTensor 2 3 0 DT_RESOURCE (Some [Some 2%N])) /\
  flatten (Seq (as_loop_vars ex2_assembly)) !! 3 = Some ex2_handle.
Proof.
  apply (captures_are_loop_invariants (ex_trace ex2_cond_graph) (ex_trace ex2_body_graph)
           ex2_outer ex2_loop_vars None ex2_assembly ex2_cond_graph ex2_body_graph
           [mkTensor 2 0 0 DT_FLOAT scalar; mkTensor 2 1 0 DT_INT32 scalar;
            mkTensor 2 2 0 DT_FLOAT scalar] ltac:(vm_compute; reflexivity)
           eq_refl eq_refl eq_refl eq_refl eq_refl 0 ex2_handle
           (mkTensor 2 3 0 DT_RESOURCE (Some [Some 2%N])) eq_refl).
Defined.

(** ** The backward loop mirrors the forward loop *)

Section CountersAgree.
Local Open Scope N_scope.

Lemma while_runs_iter {S} (cond : S -> bool) (body : S -> S) s n s' :
  while_runs cond body s n s' -> s' = N.iter n body s.
Proof.
  induction 1 as [s Hc | s n s' Hc Hrun IH]; [reflexivity|].
  rewrite N.iter_succ_r. exact IH.
Qed.

Lemma wrapped_body_iter {V} (body : V -> V) n :
  forall c v,
    (N.iter n (fun s : float32 * V => wrapped_body V body s.1 s.2) (c, v)).2
    = N.iter n body v.
Proof.
  induction n as [|n IH] using N.peano_ind; intros c v; [reflexivity|].
  rewrite !N.iter_succ_r. unfold wrapped_body at 2. cbn [fst snd]. apply IH.
Qed.

Lemma grad_fn_iter {G} (grad_outs : G -> G) n :
  forall c t g,
    c + n <= 2 ^ 24 ->
    N.iter n (fun s : float32 * float32 * G => _grad_fn G grad_outs s.1.1 s.1.2 s.2) (c, t, g)
    = (c + n, t, N.iter n grad_outs g).
Proof.
  induction n as [|n IH] using N.peano_ind; intros c t g Hc.
  - cbn. rewrite N.add_0_r. reflexivity.
  - rewrite !N.iter_succ_r. unfold _grad_fn at 2. cbn [fst snd].
    rewrite f32_increment by lia. rewrite N.min_l by lia.
    rewrite IH by lia. f_equal. f_equal. lia.
Qed.

(** X11.  Up to [2^24] iterations the backward loop mirrors the forward loop.
    When the forward loop stops after [n <= 2^24] applications of the body,
    its counter output is [n], and the backward loop started on that output
    stops after exactly [n] applications of the gradient body, with its
    counter at [n] and the number of iterations passed through unchanged. *)
Theorem gradient_loop_mirrors_forward_loop {V G} (cond : V -> bool) (body : V -> V)
    (grad_outs : G -> G) v0 g0 n out :
  n <= 2 ^ 24 ->
  forward_runs cond body v0 n out ->
  out = (n, N.iter n body v0) /\
  backward_runs grad_outs out.1 g0 n (n, n, N.iter n grad_outs g0) /\
  (forall m out',
     backward_runs grad_outs out.1 g0 m out' ->
     m = n /\ out' = (n, n, N.iter n grad_outs g0)).
Proof.
  intros Hn Hf.
  assert (Hc : out.1 = n).
  { pose proof (forward_counter cond body (0, v0) n out Hf) as H. cbn [fst] in H.
    rewrite H by lia. lia. }
  assert (Hv : out.2 = N.iter n body v0).
  { unfold forward_runs in Hf. apply while_runs_iter in Hf. rewrite Hf.
    apply wrapped_body_iter. }
  destruct (backward_matches_forward cond body grad_outs v0 g0 n out Hn Hf) as [(o & Ho) Hu].
  assert (Eo : o = (n, n, N.iter n grad_outs g0)).
  { pose proof Ho as Hi. unfold backward_runs in Hi. apply while_runs_iter in Hi.
    rewrite Hi, Hc. rewrite grad_fn_iter by lia. rewrite N.add_0_l. reflexivity. }
  subst o. split; [|split].
  - destruct out as [c v]. cbn in Hc, Hv. subst. reflexivity.
  - exact Ho.
  - intros m out' Hb. pose proof (Hu m out' Hb) as ->. split; [reflexivity|].
    unfold backward_runs in Hb, Ho.
    destruct (while_runs_deterministic _ _ _ _ _ Ho n out' Hb) as [_ ->]. reflexivity.
Qed.

Lemma gradient_loop_mirrors_forward_loop_witness :
  backward_runs (fun g : N => 2 * g) 3 1 3 (3, 3, 8).
Proof.
  assert (Hf : forward_runs (fun i => i <? 3) N.succ 0 3 (3, 3)).
  { unfold forward_runs.
    exact (counting_loop_runs 3 3 0 0 eq_refl ltac:(vm_compute; discriminate)). }
  exact (proj1 (proj2 (gradient_loop_mirrors_forward_loop (fun i => i <? 3) N.succ
                         (fun g : N => 2 * g) 0 1 3 (3, 3)
                         ltac:(vm_compute; discriminate) Hf))).
Defined.

End CountersAgree.

(** ** Invariants of the backward graph *)

Lemma base_capture_helper_external g t k :
  k ∈ external_captures (base_capture_helper g t).2 -> k ∈ external_captures g \/ k = t.
Proof.
  unfold base_capture_helper. destruct (captures_get (fg_captures g) t); [auto|].
  unfold external_captures. cbn. rewrite fmap_app, elem_of_app. cbn.
  rewrite list_elem_of_singleton. auto.
Qed.

Lemma base_capture_helper_internal g t ph :
  ph ∈ internal_captures g -> ph ∈ internal_captures (base_capture_helper g t).2.
Proof.
  intros H. unfold base_capture_helper. destruct (captures_get (fg_captures g) t); [exact H|].
  unfold internal_captures. cbn. rewrite fmap_app. apply elem_of_app. left. exact H.
Qed.

Lemma base_capture_helper_operations g t op :
  op ∈ fg_operations g -> op ∈ fg_operations (base_capture_helper g t).2.
Proof.
  intros H. unfold base_capture_helper. destruct (captures_get (fg_captures g) t); [exact H|].
  cbn. apply elem_of_app. left. exact H.
Qed.

Lemma base_capture_helper_placeholder g t :
  (base_capture_helper g t).1 ∈ internal_captures (base_capture_helper g t).2.
Proof.
  pose proof (base_capture_helper_captured g t) as H.
  unfold internal_captures. apply list_elem_of_fmap. eexists (_, _). split; [|exact H].
  reflexivity.
Qed.

(** The state [capture_accumulated] returns, written out. *)
Lemma capture_accumulated_state self tensor captured self' :
  capture_accumulated self tensor = Ok (captured, self') ->
  exists outer_accumulator,
    t_graph outer_accumulator = fg_outer_graph (_forward_graph self) /\
    let ph := (base_capture_helper (gg_graph self) outer_accumulator).1 in
    let g1 := (base_capture_helper (gg_graph self) outer_accumulator).2 in
    let tl := mkTensor (fg_name g1) (fg_next_name g1) 0 DT_VARIANT scalar in
    captured = mkTensor (fg_name g1) (fg_next_name g1) 1 (t_dtype tensor) None /\
    self' = mkGradFuncGraph
              (mkFuncGraph (fg_name g1) (fg_outer_graph g1)
                 (fg_operations g1
                    ++ [mkOp (fg_next_name g1) "TensorListPopBack" [ph] [tl; captured] None])
                 (fg_inputs g1) (fg_outputs g1) (fg_captures g1) (S (fg_next_name g1)))
              (<[ph:=tl]> (popped_tensor_lists self)) (_forward_graph self)
              (_forward_while self) (<[tensor:=captured]> (_indirect_captures self))
              (<[tensor:=outer_accumulator]> (_inner_to_outer_tensor self)).
Proof.
  unfold capture_accumulated. cbv zeta. intros H.
  apply bind_Ok in H as ([] & _ & H). apply bind_Ok in H as (acc & Hacc & H).
  destruct acc as [accumulator|]; [|discriminate].
  apply bind_Ok in H as ([] & _ & H). apply bind_Ok in H as (idx & Hidx & H).
  apply bind_Ok in H as (outer_acc & Houter & H). apply bind_Ok in H as ([] & Hg & H).
  apply py_assert_Ok, bool_decide_eq_true in Hg.
  exists outer_acc. split; [exact Hg|].
  unfold super_capture_helper, gg_set_inner_to_outer in H. cbn [gg_graph] in H.
  destruct (base_capture_helper (gg_graph self) outer_acc) as [ph g]. cbn [fst snd] in *.
  unfold add_op, add_op_with_value in H. cbv beta iota zeta in H.
  inversion H; subst. clear H. cbn. split; reflexivity.
Qed.

Lemma capture_helper_invariants depth :
  forall self t c self',
    fg_outer_graph (_forward_graph self) <> fg_name (_forward_graph self) ->
    captures_outside_forward_graph self -> popped_lists_are_pops self ->
    _capture_helper depth self t = Some (Ok (c, self')) ->
    captures_outside_forward_graph self' /\ popped_lists_are_pops self'.
Proof.
  induction depth as [|depth IH]; intros self t c self' Hout Hcap Hpop H; [discriminate|].
  cbn [_capture_helper] in H. cbv zeta in H.
  assert (Hsuper : forall s t0,
             _forward_graph s = _forward_graph self ->
             captures_outside_forward_graph s -> popped_lists_are_pops s ->
             t_graph t0 <> fg_name (_forward_graph self) ->
             captures_outside_forward_graph (super_capture_helper s t0).2 /\
             popped_lists_are_pops (super_capture_helper s t0).2).
  { intros s t0 Hf Hc Hp Ht0. unfold super_capture_helper.
    pose proof (base_capture_helper_external (gg_graph s) t0) as Hext.
    pose proof (base_capture_helper_internal (gg_graph s) t0) as Hint.
    pose proof (base_capture_helper_operations (gg_graph s) t0) as Hops.
    destruct (base_capture_helper (gg_graph s) t0) as [ph g]. cbn [fst snd] in *.
    split.
    - unfold captures_outside_forward_graph in *. cbn. rewrite Hf.
      apply Forall_forall. intros k Hk. destruct (Hext k Hk) as [Hk' | ->]; [|exact Ht0].
      rewrite Forall_forall in Hc. rewrite <- Hf. apply Hc. exact Hk'.
    - intros ph' tl Hl. cbn in Hl. destruct (Hp ph' tl Hl) as (Hin & name & cp & Hop).
      cbn. split; [apply Hint; exact Hin|]. exists name, cp. apply Hops. exact Hop. }
  destruct (decide (t_graph t = fg_name (_forward_graph self))) as [Hg|Hg].
  2:{ inversion H as [H']. rewrite (surjective_pairing (super_capture_helper self t)) in H'.
      inversion H'; subst. apply Hsuper; auto. }
  destruct (skip_identities _ _ t) as [[t2|e]|]; try discriminate.
  destruct (_indirect_captures self !! t2) as [c2|] eqn:Hind.
  { unfold cached_capture in H.
    destruct (_inner_to_outer_tensor self !! t2) as [outer_t|]; [|discriminate].
    inversion H as [H']. apply bind_Ok in H' as ([] & Hin & H'). inversion H'; subst.
    apply py_assert_Ok, py_in_true in Hin.
    rewrite (super_capture_helper_known self outer_t Hin). auto. }
  destruct (decide (t_dtype t2 = DT_RESOURCE)) as [Hres|Hres].
  - destruct (resolve_resource self t2) as [outer_t|e]; [|discriminate].
    set (self_a := gg_set_inner_to_outer self t2 outer_t) in *.
    destruct (capture_via (_capture_helper depth) self_a outer_t true)
      as [[[ph self_b]|e]|] eqn:Hcv; try discriminate.
    inversion H; subst c self'. clear H.
    assert (Hb : captures_outside_forward_graph self_b /\ popped_lists_are_pops self_b).
    { unfold capture_via in Hcv. cbn [negb andb] in Hcv.
      destruct (decide (t_graph outer_t = fg_name (gg_graph self_a))).
      - inversion Hcv; subst. auto.
      - apply (IH self_a outer_t ph self_b); auto. }
    exact Hb.
  - inversion H as [H']. apply capture_accumulated_state in H' as (outer_acc & Hgo & Hc & ->).
    pose proof (base_capture_helper_external (gg_graph self) outer_acc) as Hext.
    pose proof (base_capture_helper_internal (gg_graph self) outer_acc) as Hint.
    pose proof (base_capture_helper_operations (gg_graph self) outer_acc) as Hops.
    pose proof (base_capture_helper_placeholder (gg_graph self) outer_acc) as Hph.
    destruct (base_capture_helper (gg_graph self) outer_acc) as [ph g]. cbn [fst snd] in *.
    split.
    + unfold captures_outside_forward_graph in *. cbn.
      apply Forall_forall. intros k Hk. destruct (Hext k Hk) as [Hk' | ->].
      * rewrite Forall_forall in Hcap. apply Hcap. exact Hk'.
      * congruence.
    + intros ph' tl Hl. cbn in Hl. cbn.
      destruct (decide (ph' = ph)) as [->|Hne].
      * rewrite lookup_insert_eq in Hl. inversion Hl; subst tl.
        split; [exact Hph|]. eexists _, _. apply elem_of_app. right. left.
      * rewrite lookup_insert_ne in Hl by congruence.
        destruct (Hpop ph' tl Hl) as (Hin & name & cp & Hop).
        split; [apply Hint; exact Hin|]. exists name, cp.
        apply elem_of_app. left. apply Hops. exact Hop.
Qed.

Lemma resolves_to_invariants self self' :
  resolves_to self self' ->
  fg_outer_graph (_forward_graph self) <> fg_name (_forward_graph self) ->
  captures_outside_forward_graph self -> popped_lists_are_pops self ->
  captures_outside_forward_graph self' /\ popped_lists_are_pops self'.
Proof.
  induction 1 as [self | depth self tensor c self1 self2 Hstep _ IH]; intros Hout Hc Hp.
  - auto.
  - destruct (capture_helper_invariants depth self tensor c self1 Hout Hc Hp Hstep) as [Hc1 Hp1].
    apply capture_helper_preserves in Hstep as [Hf _].
    apply IH; [rewrite Hf; exact Hout | exact Hc1 | exact Hp1].
Qed.

(** X12.  The captures of a backward graph never hold a tensor of the
    forward graph.  Starting from a new backward graph that has captured
    nothing, whatever tensors [_capture_helper] is called on, every key of
    [captures] lies outside the forward graph: forward tensors are only
    captured indirectly, through an accumulator or a loop input. *)
Theorem forward_tensors_are_never_captured g forward_graph while_op self :
  fg_captures g = [] ->
  fg_outer_graph forward_graph <> fg_name forward_graph ->
  resolves_to (new_grad_func_graph g forward_graph while_op) self ->
  Forall (fun k => t_graph k <> fg_name forward_graph) (external_captures (gg_graph self)).
Proof.
  intros Hg Hout Hres.
  pose proof (resolves_to_preserves _ _ Hres) as [Hf _].
  destruct (resolves_to_invariants _ _ Hres) as [Hc _].
  - exact Hout.
  - unfold captures_outside_forward_graph, external_captures. cbn. rewrite Hg. constructor.
  - intros ph tl Hl. cbn in Hl. rewrite lookup_empty in Hl. discriminate.
  - unfold captures_outside_forward_graph in Hc. rewrite Hf in Hc. exact Hc.
Qed.

Lemma forward_tensors_are_never_captured_witness :
  Forall (fun k => t_graph k <> fg_name (as_body_graph ex2_assembly))
    (external_captures (gg_graph ex_first_capture.2)).
Proof.
  apply (forward_tensors_are_never_captured (mkFuncGraph 3 0 [] [] [] [] 0)
           (as_body_graph ex2_assembly) ex2_while_op ex_first_capture.2).
  - reflexivity.
  - vm_compute. discriminate.
  - apply (resolves_step 1 _ ex_v ex_first_capture.1 ex_first_capture.2 ex_first_capture.2);
      [vm_compute; reflexivity | apply resolves_refl].
Defined.

(** X13.  Every entry of [popped_tensor_lists] is backed by a pop.  Starting
    from a new backward graph, whatever tensors [_capture_helper] is called
    on, each key of [popped_tensor_lists] is the placeholder of a capture of
    the graph, and its value is the first output of a TensorListPopBack that
    the graph applies to that placeholder. *)
Theorem popped_lists_come_from_pops g forward_graph while_op self ph tl :
  fg_captures g = [] ->
  fg_outer_graph forward_graph <> fg_name forward_graph ->
  resolves_to (new_grad_func_graph g forward_graph while_op) self ->
  popped_tensor_lists self !! ph = Some tl ->
  ph ∈ internal_captures (gg_graph self) /\
  exists name captured,
    mkOp name "TensorListPopBack" [ph] [tl; captured] None ∈ fg_operations (gg_graph self).
Proof.
  intros Hg Hout Hres Hl.
  destruct (resolves_to_invariants _ _ Hres) as [_ Hp].
  - exact Hout.
  - unfold captures_outside_forward_graph, external_captures. cbn. rewrite Hg. constructor.
  - intros ph' tl' Hl'. cbn in Hl'. rewrite lookup_empty in Hl'. discriminate.
  - exact (Hp ph tl Hl).
Qed.

Lemma popped_lists_come_from_pops_witness :
  mkTensor 3 0 0 DT_VARIANT scalar ∈ internal_captures (gg_graph ex_first_capture.2) /\
  exists name captured,
    mkOp name "TensorListPopBack" [mkTensor 3 0 0 DT_VARIANT scalar]
      [mkTensor 3 1 0 DT_VARIANT scalar; captured] None
      ∈ fg_operations (gg_graph ex_first_capture.2).
Proof.
  apply (popped_lists_come_from_pops (mkFuncGraph 3 0 [] [] [] [] 0)
           (as_body_graph ex2_assembly) ex2_while_op ex_first_capture.2).
  - reflexivity.
  - vm_compute. discriminate.
  - apply (resolves_step 1 _ ex_v ex_first_capture.1 ex_first_capture.2 ex_first_capture.2);
      [vm_compute; reflexivity | apply resolves_refl].
  - vm_compute. reflexivity.
Defined.

(** ** From the forward accumulators to the backward captures *)

Lemma fresh_tensors_graph g n :
  forall from step, Forall (fun t => t_graph t = g) (fresh_tensors g from step n).
Proof.
  induction n as [|n IH]; intros from step; simpl; constructor; [reflexivity | apply IH].
Qed.

Lemma capture_accumulated_returns self tensor accumulator :
  _inner_to_outer_tensor self !! tensor = None ->
  _get_accumulator (_forward_graph self) tensor = Ok (Some accumulator) ->
  t_graph accumulator = fg_name (_forward_graph self) ->
  length (op_outputs (_forward_while self)) = length (fg_outputs (_forward_graph self)) ->
  Forall (fun o => t_graph o = fg_outer_graph (_forward_graph self))
    (op_outputs (_forward_while self)) ->
  exists captured self',
    capture_accumulated self tensor = Ok (captured, self') /\
    t_dtype captured = t_dtype tensor /\
    _indirect_captures self' !! tensor = Some captured.
Proof.
  intros Hio Hacc Hg Hlen Hall. unfold capture_accumulated. cbv zeta.
  rewrite (bool_decide_eq_true_2 _ Hio). cbn [py_assert mbind result_bind].
  rewrite Hacc. cbn [mbind result_bind].
  rewrite (bool_decide_eq_true_2 _ Hg). cbn [py_assert mbind result_bind].
  destruct (get_accumulator_loop_Some _ tensor _ accumulator (fun c Hc => Hc) Hacc)
    as (c & _ & _ & _ & itl & otl & i & _ & _ & _ & _ & Hidx).
  pose proof Hidx as [Hi _]. apply py_index_Ok in Hidx. rewrite Hidx. cbn [mbind result_bind].
  destruct (lookup_lt_is_Some_2 (op_outputs (_forward_while self)) i) as [outer_acc Ho].
  { rewrite Hlen. apply lookup_lt_Some in Hi. exact Hi. }
  apply py_getitem_Ok in Ho as Ho'. rewrite Ho'. cbn [mbind result_bind].
  assert (Hog : t_graph outer_acc = fg_outer_graph (_forward_graph self)).
  { rewrite Forall_forall in Hall. apply Hall. eapply list_elem_of_lookup_2. exact Ho. }
  rewrite (bool_decide_eq_true_2 _ Hog). cbn [py_assert mbind result_bind].
  destruct (super_capture_helper _ outer_acc) as [ph s1].
  destruct (add_op _ _ _ _) as [pop g2].
  eexists _, _. split; [reflexivity|]. split; [reflexivity|].
  cbn. apply lookup_insert_eq.
Qed.

(** X14.  What the forward pass accumulates the backward pass can read.  Let
    the forward body be the body graph after [while_loop] has accumulated
    its intermediates, and let the forward While operation have one output
    per body output, in the outer graph of the body.  Then the first
    reference of the backward graph to any accumulated intermediate (that is
    not an Identity output) succeeds: [_capture_helper] finds its
    accumulator, pops a value of the intermediate's type off it, and caches
    that value. *)
Theorem accumulated_intermediates_can_be_captured
    (a : Assembly) (l : list Tensor) (self : WhileBodyGradFuncGraph) (it : Tensor)
    (depth : nat) :
  wf_assembly a -> wf_outputs (as_body_graph a) -> wf_names (as_body_graph a) ->
  length (fg_inputs (as_body_graph a)) = length (fg_outputs (as_body_graph a)) ->
  Forall (fun o => t_graph o = fg_name (as_body_graph a)) (fg_outputs (as_body_graph a)) ->
  _get_intermediates (as_body_graph a) = Ok l ->
  _forward_graph self = as_body_graph (accumulate a l) ->
  length (op_outputs (_forward_while self)) = length (fg_outputs (_forward_graph self)) ->
  Forall (fun o => t_graph o = fg_outer_graph (_forward_graph self))
    (op_outputs (_forward_while self)) ->
  it ∈ l ->
  skip_identities (length (fg_operations (_forward_graph self))) (_forward_graph self) it
  = Some (Ok it) ->
  _indirect_captures self !! it = None -> _inner_to_outer_tensor self !! it = None ->
  exists captured self',
    _capture_helper (S depth) self it = Some (Ok (captured, self')) /\
    t_dtype captured = t_dtype it /\
    _indirect_captures self' !! it = Some captured.
Proof.
  intros Hwf Hout Hnames Hlen Hgout Hl Hfwd Hwlen Hwall Hit Hskip Hind Hio.
  apply get_intermediates_Ok in Hl.
  assert (Hgraph : Forall (fun it => t_graph it = fg_name (as_body_graph a)) l).
  { rewrite Hl. apply candidates_in_graph. exact Hout. }
  assert (Hits : Forall (fun it => t_graph it = fg_name (as_body_graph a)
                                   /\ it ∈ tensors_of (as_body_graph a)) l).
  { apply Forall_forall. intros x Hx. split.
    - rewrite Forall_forall in Hgraph. apply Hgraph. exact Hx.
    - rewrite Hl in Hx. apply list_elem_of_filter in Hx as [_ Hx].
      apply candidate_outputs_tensors_of. exact Hx. }
  assert (Hcand : is_candidate (as_body_graph a) it).
  { rewrite Hl in Hit. apply list_elem_of_filter in Hit as [Hc _]. exact Hc. }
  destruct Hcand as (_ & Hres & Hnone).
  destruct (accumulate_get_accumulator l a Hwf Hnames Hlen Hits it None Hnone)
    as (r' & Hr' & _ & Hnew).
  destruct (Hnew Hit) as (acc & ->).
  destruct (accumulate_wf l a Hwf Hgraph) as [_ Hname].
  destruct (accumulate_spec l a Hwf Hgraph) as (_ & _ & _ & _ & Hbo & _).
  assert (Hitg : t_graph it = fg_name (_forward_graph self)).
  { rewrite Hfwd, Hname. rewrite Forall_forall in Hgraph. apply Hgraph. exact Hit. }
  assert (Haccg : t_graph acc = fg_name (_forward_graph self)).
  { rewrite Hfwd in *.
    destruct (get_accumulator_loop_Some _ it _ acc (fun c Hc => Hc) Hr')
      as (c & _ & _ & _ & itl & otl & i & _ & _ & _ & _ & [Hi _]).
    rewrite Hbo in Hi. rewrite Hname.
    apply list_elem_of_lookup_2 in Hi. apply elem_of_app in Hi as [Hi | Hi].
    - rewrite Forall_forall in Hgout. apply Hgout. exact Hi.
    - pose proof (fresh_tensors_graph (fg_name (as_body_graph a)) (length l)
                    (S (fg_next_name (as_body_graph a))) 2) as Hf.
      rewrite Forall_forall in Hf. apply Hf. exact Hi. }
  rewrite <- Hfwd in Hr'.
  destruct (capture_accumulated_returns self it acc Hio Hr' Haccg Hwlen Hwall)
    as (captured & self' & Hcap & Hd & Hc).
  exists captured, self'. split; [|auto].
  cbn [_capture_helper]. cbv zeta.
  destruct (decide (t_graph it = fg_name (_forward_graph self))) as [_|Hn]; [|contradiction].
  rewrite Hskip, Hind.
  destruct (decide (t_dtype it = DT_RESOURCE)) as [Hr|_]; [contradiction|].
  rewrite Hcap. reflexivity.
Qed.

Lemma accumulated_intermediates_can_be_captured_witness :
  exists captured self',
    _capture_helper 1 ex_self ex_v = Some (Ok (captured, self')) /\
    t_dtype captured = t_dtype ex_v /\
    _indirect_captures self' !! ex_v = Some captured.
Proof.
  apply (accumulated_intermediates_can_be_captured ex2_before_accumulation
           (candidates (as_body_graph ex2_before_accumulation)) ex_self ex_v 0).
  - split; (split; [simpl; lia|]); intros k Hk Hg; vm_compute in Hk;
      repeat (apply elem_of_cons in Hk as [-> | Hk]; [vm_compute; lia|]);
      apply elem_of_nil in Hk; contradiction.
  - unfold wf_outputs. simpl. repeat constructor.
  - unfold wf_names. vm_compute. repeat constructor; lia.
  - reflexivity.
  - vm_compute. repeat constructor.
  - vm_compute. reflexivity.
  - vm_compute. reflexivity.
  - vm_compute. reflexivity.
  - vm_compute. repeat constructor.
  - vm_compute. apply list_elem_of_In. simpl. tauto.
  - vm_compute. reflexivity.
  - reflexivity.
  - reflexivity.
Defined.

(** ** Identity outputs *)

Lemma skip_identities_more_fuel g :
  forall fuel tensor r,
    skip_identities fuel g tensor = Some r -> skip_identities (S fuel) g tensor = Some r.
Proof.
  induction fuel as [|fuel IH]; intros tensor r H.
  - cbn [skip_identities] in *.
    destruct (tensor_op g tensor) as [op|?]; [|exact H].
    destruct (decide (op_type op = "Identity")); [|exact H].
    destruct (py_getitem (op_inputs op) 0); [discriminate | exact H].
  - cbn [skip_identities] in H. cbn [skip_identities].
    destruct (tensor_op g tensor) as [op|?]; [|exact H].
    destruct (decide (op_type op = "Identity")); [|exact H].
    destruct (py_getitem (op_inputs op) 0) as [t'|?]; [|exact H].
    apply IH in H. cbn [skip_identities] in H. exact H.
Qed.

Lemma skip_identities_through g tensor x op :
  topologically_ordered g ->
  tensor_op g tensor = Ok op -> op_type op = "Identity" -> op_inputs op !! 0 = Some x ->
  skip_identities (length (fg_operations g)) g tensor
  = skip_identities (length (fg_operations g)) g x.
Proof.
  intros Htopo Hop Hid Hx.
  unfold tensor_op in Hop.
  destruct (list_find (fun op => op_name op = t_op_name tensor) (fg_operations g))
    as [[j op']|] eqn:Ef; [|discriminate].
  inversion Hop; subst op'. clear Hop.
  pose proof Ef as Ef'. apply list_find_Some in Ef' as (Hj & _ & _).
  pose proof (lookup_lt_Some _ _ _ Hj) as Hlt.
  destruct (length (fg_operations g)) as [|n] eqn:En; [lia|].
  destruct (skip_identities_enough_fuel g Htopo n x) as [r Hr].
  { intros j' op' E'. specialize (Htopo j op x j' op' Hj Hx E'). lia. }
  rewrite (skip_identities_more_fuel g n x r Hr).
  cbn [skip_identities]. unfold tensor_op. rewrite Ef.
  destruct (decide (op_type op = "Identity")); [|contradiction].
  apply py_getitem_Ok in Hx. rewrite Hx. exact Hr.
Qed.

(** X15.  The backward graph does not tell the output of an Identity of the
    forward body from the Identity's input: in a forward graph listed in
    creation order, a reference to the output of an Identity is resolved
    exactly as a reference to its input is, to the same captured tensor and
    the same state of the graph under construction. *)
Theorem identity_output_is_captured_as_its_input depth self tensor x op :
  topologically_ordered (_forward_graph self) ->
  t_graph tensor = fg_name (_forward_graph self) ->
  t_graph x = fg_name (_forward_graph self) ->
  tensor_op (_forward_graph self) tensor = Ok op ->
  op_type op = "Identity" -> op_inputs op !! 0 = Some x ->
  _capture_helper depth self tensor = _capture_helper depth self x.
Proof.
  intros Htopo Ht Hxg Hop Hid Hx. destruct depth as [|depth]; [reflexivity|].
  cbn [_capture_helper]. cbv zeta.
  destruct (decide (t_graph tensor = fg_name (_forward_graph self))); [|contradiction].
  destruct (decide (t_graph x = fg_name (_forward_graph self))); [|contradiction].
  rewrite (skip_identities_through _ tensor x op Htopo Hop Hid Hx). reflexivity.
Qed.

Lemma identity_output_is_captured_as_its_input_witness :
  let self := new_grad_func_graph (mkFuncGraph 3 0 [] [] [] [] 0) ex_identity_body
                (mkOp 9 "While" [] [] None) in
  _capture_helper 1 self (mkTensor 2 2 0 DT_FLOAT scalar)
  = _capture_helper 1 self (mkTensor 2 1 0 DT_FLOAT scalar).
Proof.
  intros self.
  apply (identity_output_is_captured_as_its_input 1 self (mkTensor 2 2 0 DT_FLOAT scalar)
           (mkTensor 2 1 0 DT_FLOAT scalar)
           (mkOp 2 "Identity" [mkTensor 2 1 0 DT_FLOAT scalar] [mkTensor 2 2 0 DT_FLOAT scalar]
              None)).
  - intros j op t j' op' Hj Ht Hf. cbn in Hj.
    destruct j as [|[|[|j]]]; cbn in Hj; inversion Hj; subst op; cbn in Ht;
      try discriminate.
    inversion Ht; subst t. vm_compute in Hf. inversion Hf. lia.
  - reflexivity.
  - reflexivity.
  - reflexivity.
  - reflexivity.
  - reflexivity.
Defined.

(** ** A dangling append *)

(** X16.  An append whose result is dropped breaks the selection of the
    intermediates.  When the first consumer of a tensor that is up for
    selection is a TensorListPushBack on an input of the graph whose result
    is neither an output of the graph nor consumed by any operation, the
    lookup [t.consumers()[0]] of [_get_accumulator] raises an IndexError,
    and [_get_intermediates] raises instead of returning a list. *)
Theorem dangling_push_back_is_an_index_error g tensor consumer input_tl output_tl :
  tensor ∈ candidate_outputs g -> fg_inputs g !! 0 <> Some tensor ->
  t_dtype tensor <> DT_RESOURCE ->
  consumers g tensor !! 0 = Some consumer ->
  op_type consumer = "TensorListPushBack" ->
  op_inputs consumer !! 0 = Some input_tl -> input_tl ∈ fg_inputs g ->
  op_outputs consumer !! 0 = Some output_tl ->
  output_tl ∉ fg_outputs g -> consumers g output_tl = [] ->
  _get_accumulator g tensor = Raise (IndexError "list index out of range") /\
  exists e, _get_intermediates g = Raise e.
Proof.
  intros Hcand Hcounter Hres Hc Hty Hin Hinp Hout Hnot Hnone.
  assert (Hacc : _get_accumulator g tensor = Raise (IndexError "list index out of range")).
  { unfold _get_accumulator. destruct (consumers g tensor) as [|c cs]; [discriminate|].
    inversion Hc; subst c. cbn [get_accumulator_loop].
    destruct (decide (op_type consumer = "TensorListPushBack")); [|contradiction].
    apply py_getitem_Ok in Hin. rewrite Hin. cbn [mbind result_bind].
    apply py_in_true in Hinp. rewrite Hinp.
    apply py_getitem_Ok in Hout. rewrite Hout. cbn [mbind result_bind].
    unfold get_func_graph_output. apply py_in_false in Hnot. rewrite Hnot, Hnone.
    reflexivity. }
  split; [exact Hacc|].
  destruct (_get_intermediates g) as [l|e] eqn:E; [|eauto].
  destruct (get_intermediates_evaluated g l E tensor Hcand Hcounter Hres) as (r & Hr).
  congruence.
Qed.

Lemma dangling_push_back_is_an_index_error_witness :
  _get_accumulator ex_dangling_body (mkTensor 2 2 0 DT_FLOAT scalar)
  = Raise (IndexError "list index out of range") /\
  exists e, _get_intermediates ex_dangling_body = Raise e.
Proof.
  apply (dangling_push_back_is_an_index_error ex_dangling_body
           (mkTensor 2 2 0 DT_FLOAT scalar)
           (mkOp 3 "TensorListPushBack"
              [mkTensor 2 1 0 DT_VARIANT scalar; mkTensor 2 2 0 DT_FLOAT scalar]
              [mkTensor 2 3 0 DT_VARIANT scalar] None)
           (mkTensor 2 1 0 DT_VARIANT scalar) (mkTensor 2 3 0 DT_VARIANT scalar)).
  - vm_compute. apply list_elem_of_In. simpl. tauto.
  - discriminate.
  - discriminate.
  - vm_compute. reflexivity.
  - reflexivity.
  - reflexivity.
  - apply list_elem_of_In. simpl. tauto.
  - reflexivity.
  - intros H. apply list_elem_of_In in H. simpl in H.
    destruct H as [H | [H | []]]; discriminate.
  - vm_compute. reflexivity.
Defined.

(** ** The signatures [while_loop] builds *)

Lemma flatten_Seq_leaves {A B} (f : A -> B) (l : list A) :
  flatten (Seq ((fun x => Leaf (f x)) <$> l)) = f <$> l.
Proof.
  induction l as [|x l IH]; [reflexivity|].
  rewrite !fmap_cons, flatten_Seq_cons, IH. reflexivity.
Qed.

Lemma cond_signature_lengths outer orig_loop_vars shape_invariants :
  match shape_invariants with
  | Some si => same_structure (Seq orig_loop_vars) (Seq si) = true
  | None => True
  end ->
  length (flatten (Seq (cond_loop_vars outer orig_loop_vars)))
  = length (flatten (Seq (cond_invariants orig_loop_vars shape_invariants))).
Proof.
  intros H. unfold cond_loop_vars, cond_invariants.
  rewrite !flatten_Seq_cons, !length_app.
  pose proof (validated_invariants_length orig_loop_vars shape_invariants H) as H1.
  pose proof (validated_inputs_length orig_loop_vars) as H2.
  unfold validated_invariants, validated_inputs in H1, H2. rewrite H1, H2. reflexivity.
Qed.

(** X17.  The signatures [while_loop] hands to the closure builder always
    exist.  Once the structure check of the shape invariants has passed (or
    no invariants are given), [_build_signature] returns for the loop
    variables and invariants of the cond call and for those of the body
    call, whatever the cond graph has captured; each signature has the
    nesting of the loop variables it is built for, and its first leaf is the
    scalar float specification of the loop counter. *)
Theorem while_loop_signatures_exist outer orig_loop_vars shape_invariants cond_graph :
  match shape_invariants with
  | Some si => same_structure (Seq orig_loop_vars) (Seq si) = true
  | None => True
  end ->
  let counter := (constant outer 0%N).1 in
  (exists sig,
     _build_signature (Seq (cond_loop_vars outer orig_loop_vars))
       (Seq (cond_invariants orig_loop_vars shape_invariants)) = Ok sig /\
     same_structure (Seq (cond_loop_vars outer orig_loop_vars)) sig = true /\
     flatten sig !! 0 = Some (mkTensorSpec scalar DT_FLOAT (t_op_name counter))) /\
  (exists sig,
     _build_signature (Seq (body_loop_vars outer orig_loop_vars cond_graph))
       (Seq (body_invariants orig_loop_vars shape_invariants cond_graph)) = Ok sig /\
     same_structure (Seq (body_loop_vars outer orig_loop_vars cond_graph)) sig = true /\
     flatten sig !! 0 = Some (mkTensorSpec scalar DT_FLOAT (t_op_name counter))).
Proof.
  intros H counter.
  pose proof (cond_signature_lengths outer orig_loop_vars shape_invariants H) as Hc.
  assert (Hb : length (flatten (Seq (body_loop_vars outer orig_loop_vars cond_graph)))
               = length (flatten (Seq (body_invariants orig_loop_vars shape_invariants
                                         cond_graph)))).
  { unfold body_loop_vars, body_invariants. rewrite !flatten_Seq_app, !length_app, Hc.
    f_equal. rewrite (flatten_Seq_leaves id), (flatten_Seq_leaves t_shape), !length_fmap.
    reflexivity. }
  split.
  - unfold _build_signature.
    destruct (pack_sequence_as_spec (Seq (cond_loop_vars outer orig_loop_vars))
                ((fun z : TensorShape * Tensor =>
                    mkTensorSpec z.1 (t_dtype z.2) (t_op_name z.2))
                   <$> zip (flatten (Seq (cond_invariants orig_loop_vars shape_invariants)))
                         (flatten (Seq (cond_loop_vars outer orig_loop_vars)))))
      as (p & Hp & Hs & Hf).
    { rewrite length_fmap, length_zip_with. lia. }
    exists p. split; [exact Hp|]. split; [exact Hs|]. rewrite Hf.
    unfold cond_loop_vars, cond_invariants. rewrite !flatten_Seq_cons. reflexivity.
  - unfold _build_signature.
    destruct (pack_sequence_as_spec (Seq (body_loop_vars outer orig_loop_vars cond_graph))
                ((fun z : TensorShape * Tensor =>
                    mkTensorSpec z.1 (t_dtype z.2) (t_op_name z.2))
                   <$> zip (flatten (Seq (body_invariants orig_loop_vars shape_invariants
                                            cond_graph)))
                         (flatten (Seq (body_loop_vars outer orig_loop_vars cond_graph)))))
      as (p & Hp & Hs & Hf).
    { rewrite length_fmap, length_zip_with. lia. }
    exists p. split; [exact Hp|]. split; [exact Hs|]. rewrite Hf.
    unfold body_loop_vars, body_invariants, cond_loop_vars, cond_invariants.
    rewrite <- !app_comm_cons, !flatten_Seq_cons. reflexivity.
Qed.

Lemma while_loop_signatures_exist_witness :
  exists sig,
    _build_signature (Seq (body_loop_vars ex2_outer ex2_loop_vars ex2_cond_graph))
      (Seq (body_invariants ex2_loop_vars None ex2_cond_graph)) = Ok sig /\
    same_structure (Seq (body_loop_vars ex2_outer ex2_loop_vars ex2_cond_graph)) sig = true /\
    flatten sig !! 0 = Some (mkTensorSpec scalar DT_FLOAT 2).
Proof.
  exact (proj2 (while_loop_signatures_exist ex2_outer ex2_loop_vars None ex2_cond_graph I)).
Defined.

(** ** Shape invariants of the wrong structure *)

(** X18.  Shape invariants that do not have the nesting of the loop
    variables are refused before anything is traced: whatever the closure
    builder would return for cond and body, [while_loop] raises the
    ValueError of the structure check.  In particular a list of invariants
    whose length is not the number of loop variables is refused. *)
Theorem mismatched_shape_invariants_are_refused
    trace_cond trace_body outer orig_loop_vars (shape_invariants : list (nest TensorShape)) :
  same_structure (Seq orig_loop_vars) (Seq shape_invariants) = false
  \/ length shape_invariants <> length orig_loop_vars ->
  while_loop trace_cond trace_body outer orig_loop_vars (Some shape_invariants)
  = Raise (ValueError "The two structures don't have the same nested structure." []).
Proof.
  intros H.
  assert (Hs : same_structure (Seq orig_loop_vars) (Seq shape_invariants) = false).
  { destruct H as [H | H]; [exact H|].
    destruct (same_structure (Seq orig_loop_vars) (Seq shape_invariants)) eqn:E;
      [|reflexivity].
    apply same_structure_Seq_length in E. congruence. }
  unfold while_loop, while_loop_assemble, assert_same_structure.
  rewrite Hs. reflexivity.
Qed.

Lemma mismatched_shape_invariants_are_refused_witness :
  while_loop (ex_trace ex2_cond_graph) (ex_trace ex2_body_graph) ex2_outer ex2_loop_vars
    (Some [Leaf scalar; Leaf None])
  = Raise (ValueError "The two structures don't have the same nested structure." []).
Proof.
  apply mismatched_shape_invariants_are_refused. left. reflexivity.
Defined.

(** ** Captures that are not shared *)

(** X19.  Captures of the body that the cond graph has not captured are
    handed to the cond graph as further inputs.  When no tensor captured by
    the body is captured by cond, the reconciliation of lines 177-183
    succeeds and gives the cond graph one new placeholder per capture of
    the body, of the type and shape of the captured tensor, appended to its
    inputs and to its captures in the order of the body's captures; the
    outputs of the cond graph are unchanged. *)
Theorem disjoint_captures_are_reconciled (body_external : list Tensor) :
  forall cond_graph,
    NoDup body_external ->
    Forall (fun t => t_graph t <> fg_name cond_graph) body_external ->
    (forall t, t ∈ body_external -> t ∉ external_captures cond_graph) ->
    exists cond_graph' phs,
      reconcile_captures cond_graph body_external = Ok cond_graph' /\
      external_captures cond_graph' = external_captures cond_graph ++ body_external /\
      internal_captures cond_graph' = internal_captures cond_graph ++ phs /\
      fg_inputs cond_graph' = fg_inputs cond_graph ++ phs /\
      fg_outputs cond_graph' = fg_outputs cond_graph /\
      Forall2 (fun t ph => t_dtype ph = t_dtype t /\ t_shape ph = t_shape t)
        body_external phs.
Proof.
  induction body_external as [|t ts IH]; intros cond_graph Hnd Hg Hdis.
  - exists cond_graph, []. rewrite !app_nil_r. repeat split. constructor.
  - inversion Hnd as [|? ? Hnot Hnd']; subst.
    inversion Hg as [|? ? Ht Hg']; subst.
    assert (Hfresh : t ∉ external_captures cond_graph) by (apply Hdis; left).
    cbn [reconcile_captures].
    apply py_in_false in Hfresh as Hpy. rewrite Hpy. cbn [negb py_assert mbind result_bind].
    unfold capture.
    destruct (decide (t_graph t = fg_name cond_graph)) as [E|_]; [contradiction|].
    rewrite (base_capture_helper_fresh cond_graph t Hfresh). cbn [snd].
    set (ph := mkTensor (fg_name cond_graph) (fg_next_name cond_graph) 0 (t_dtype t)
                 (t_shape t)).
    set (g1 := mkFuncGraph _ _ _ _ _ _ _).
    destruct (IH g1 Hnd') as (g' & phs & Hr & He & Hi & Hin & Ho & Hall).
    + exact Hg'.
    + intros t' Ht' Hc. unfold external_captures in Hc. cbn in Hc.
      rewrite fmap_app in Hc. apply elem_of_app in Hc as [Hc | Hc].
      * apply (Hdis t'); [right; exact Ht' | exact Hc].
      * cbn in Hc. apply list_elem_of_singleton in Hc. subst t'. contradiction.
    + exists g', (ph :: phs). split; [exact Hr|].
      unfold external_captures, internal_captures in *. cbn in He, Hi, Hin, Ho.
      rewrite fmap_app in He, Hi. cbn in He, Hi.
      rewrite He, Hi, Hin, Ho, <- !app_assoc. repeat split.
      constructor; [split; reflexivity | exact Hall].
Qed.

Lemma disjoint_captures_are_reconciled_witness :
  exists cond_graph' phs,
    reconcile_captures ex2_cond_graph (external_captures ex2_body_graph) = Ok cond_graph' /\
    external_captures cond_graph'
    = external_captures ex2_cond_graph ++ external_captures ex2_body_graph /\
    internal_captures cond_graph' = internal_captures ex2_cond_graph ++ phs /\
    fg_inputs cond_graph' = fg_inputs ex2_cond_graph ++ phs /\
    fg_outputs cond_graph' = fg_outputs ex2_cond_graph /\
    Forall2 (fun t ph => t_dtype ph = t_dtype t /\ t_shape ph = t_shape t)
      (external_captures ex2_body_graph) phs.
Proof.
  apply (disjoint_captures_are_reconciled (external_captures ex2_body_graph) ex2_cond_graph).
  - cbn. apply NoDup_singleton.
  - cbn. repeat constructor. discriminate.
  - intros t _ H. cbn in H. apply elem_of_nil in H. contradiction.
Defined.

(** ** The backward While operation *)

Lemma new_outputs_lookup g name outs i d s :
  outs !! i = Some (d, s) -> new_outputs g name outs !! i = Some (mkTensor g name i d s).
Proof.
  intros H. unfold new_outputs. rewrite list_lookup_imap, H. reflexivity.
Qed.

Lemma grad_accumulate_name recursion_limit its :
  forall outer self self' outer',
    grad_accumulate recursion_limit outer self its = Some (Ok (self', outer')) ->
    fg_name outer' = fg_name outer.
Proof.
  induction its as [|it its IH]; intros o s s' o' Hacc; cbn [grad_accumulate] in Hacc.
  - inversion Hacc. reflexivity.
  - unfold add_op1 at 1, add_op, add_op_with_value in Hacc.
    cbv beta iota zeta in Hacc.
    destruct (grad_capture _ _ _ _) as [[[ph s1]|?]|]; try discriminate.
    destruct (add_op1 _ _ _ _ _) as [app g]. apply IH in Hacc. exact Hacc.
Qed.

Section BackwardWhile.

Variable graph_of : gid -> FuncGraph.
Variable maybe_captured : Tensor -> Tensor.
Variable IsTrainable : Tensor -> bool.
Variable _get_body_graph : Operation -> FuncGraph.
Variable trace_grad_fn :
  list Tensor -> list Tensor -> list Tensor -> FuncGraph -> Operation ->
  option (result WhileBodyGradFuncGraph).
Variable trace_grad_cond : list Tensor -> result FuncGraph.
Variable recursion_limit : nat.

(** X20.  The While operation [_WhileGrad] emits is well formed.  Whenever
    [_WhileGrad] returns, it has built a backward body with
    [_create_grad_func] from the gradients that remain after the TensorArray
    override and has accumulated the intermediates of that body; the While
    operation is the one operation added to the default graph after that.
    Its inputs are the new zero counter, output 0 of the forward While
    operation, the remaining gradients in order, and then the external
    captures of the accumulated backward body; the backward cond graph traced
    on those inputs and the accumulated backward body passed the arity check
    against them; and it has one output per input, output [i] being a tensor
    of the default graph with the type of input [i] and the shape of output
    [i] of the accumulated backward body. *)
Theorem backward_While_is_well_formed outer op grads r outer' :
  _WhileGrad graph_of maybe_captured IsTrainable _get_body_graph trace_grad_fn
    trace_grad_cond recursion_limit outer op grads = Some (Ok (r, outer')) ->
  exists grads' body_grad_graph args outer1 intermediate_tensors body_grad_graph' outer2
         cond_grad_graph while_op total_iters,
    let body_graph := _get_body_graph op in
    let triples := grad_triples body_graph grads' in
    overridden_grads graph_of maybe_captured grads (op_outputs op) = Ok grads' /\
    _create_grad_func trace_grad_fn outer
      ((fun z : Tensor * Tensor * Tensor => z.1.1) <$> triples)
      ((fun z : Tensor * Tensor * Tensor => z.1.2) <$> triples)
      ((fun z : Tensor * Tensor * Tensor => z.2) <$> triples) body_graph op
    = Some (Ok (body_grad_graph, args, outer1)) /\
    _get_intermediates (gg_graph body_grad_graph) = Ok intermediate_tensors /\
    grad_accumulate recursion_limit outer1 body_grad_graph intermediate_tensors
    = Some (Ok (body_grad_graph', outer2)) /\
    appends outer2 outer' [while_op] /\ op_type while_op = "While" /\
    op_outputs op !! 0 = Some total_iters /\
    op_inputs while_op
    = [(constant outer 0%N).1; total_iters]
        ++ ((fun z : Tensor * Tensor * Tensor => z.2) <$> triples)
        ++ external_captures (gg_graph body_grad_graph') /\
    trace_grad_cond (op_inputs while_op) = Ok cond_grad_graph /\
    _check_num_inputs_outputs cond_grad_graph (gg_graph body_grad_graph')
      (length (op_inputs while_op)) = Ok tt /\
    length (op_outputs while_op) = length (op_inputs while_op) /\
    forall i input,
      op_inputs while_op !! i = Some input ->
      exists body_output,
        fg_outputs (gg_graph body_grad_graph') !! i = Some body_output /\
        op_outputs while_op !! i
        = Some (mkTensor (fg_name outer) (op_name while_op) i (t_dtype input)
                  (t_shape body_output)).
Proof.
  intros H.
  apply WhileGrad_returns in H
    as (grads' & bgg & args & outer1 & ints & bgg2 & outer2 & cgg & while_op & Hov & _ & _
        & Hcreate & Hints & Hacc & Hcond & Hcheck & Hop & _).
  cbv zeta in *.
  destruct (create_grad_func_args trace_grad_fn _ _ _ _ _ _ _ _ _ Hcreate)
    as (total_iters & Hti & Hargs & Houter1).
  set (loop_vars := args ++ external_captures (gg_graph bgg2)) in *.
  pose proof (add_op_with_value_appends outer2 "While" loop_vars
                ((fun z : Tensor * Tensor => (t_dtype z.1, t_shape z.2))
                   <$> zip loop_vars (fg_outputs (gg_graph bgg2))) None) as Happ.
  unfold add_op in Hop. rewrite Hop in Happ. cbn [fst snd] in Happ.
  unfold add_op_with_value in Hop. inversion Hop as [[Hw Ho']]. clear Hop.
  pose proof Hcheck as Hlen. apply check_num_inputs_outputs_Ok in Hlen as (_ & _ & _ & Hbo).
  assert (Hname : fg_name outer2 = fg_name outer).
  { rewrite (grad_accumulate_name _ _ _ _ _ _ Hacc), Houter1. reflexivity. }
  subst while_op outer'.
  eexists grads', bgg, args, outer1, ints, bgg2, outer2, cgg, _, total_iters.
  split; [exact Hov|]. split; [exact Hcreate|]. split; [exact Hints|]. split; [exact Hacc|].
  split; [exact Happ|]. cbn [op_type op_inputs op_outputs op_name].
  split; [reflexivity|]. split; [exact Hti|].
  split; [unfold loop_vars; rewrite Hargs, <- app_assoc; reflexivity|].
  split; [exact Hcond|]. split; [exact Hcheck|]. split.
  - rewrite new_outputs_length, length_fmap, length_zip_with. lia.
  - intros i input Hi.
    destruct (lookup_lt_is_Some_2 (fg_outputs (gg_graph bgg2)) i) as [bo Hbo'].
    { rewrite Hbo. apply lookup_lt_Some in Hi. exact Hi. }
    exists bo. split; [exact Hbo'|].
    rewrite <- Hname. apply new_outputs_lookup. apply list_lookup_fmap_Some.
    exists (input, bo). split; [reflexivity|].
    apply lookup_zip_with_Some. exists input, bo. auto.
Qed.

End BackwardWhile.

Lemma backward_While_is_well_formed_witness :
  exists grads' body_grad_graph args outer1 intermediate_tensors body_grad_graph' outer2
         cond_grad_graph while_op total_iters,
    let body_graph := as_body_graph ex2_assembly in
    let triples := grad_triples body_graph grads' in
    overridden_grads ex_graph_of id ex_grads (op_outputs ex2_while_op) = Ok grads' /\
    _create_grad_func ex_trace_grad_fn ex2_returned.2
      ((fun z : Tensor * Tensor * Tensor => z.1.1) <$> triples)
      ((fun z : Tensor * Tensor * Tensor => z.1.2) <$> triples)
      ((fun z : Tensor * Tensor * Tensor => z.2) <$> triples) body_graph ex2_while_op
    = Some (Ok (body_grad_graph, args, outer1)) /\
    _get_intermediates (gg_graph body_grad_graph) = Ok intermediate_tensors /\
    grad_accumulate 8 outer1 body_grad_graph intermediate_tensors
    = Some (Ok (body_grad_graph', outer2)) /\
    appends outer2 ex_grad_returned.2 [while_op] /\ op_type while_op = "While" /\
    op_outputs ex2_while_op !! 0 = Some total_iters /\
    op_inputs while_op
    = [(constant ex2_returned.2 0%N).1; total_iters]
        ++ ((fun z : Tensor * Tensor * Tensor => z.2) <$> triples)
        ++ external_captures (gg_graph body_grad_graph') /\
    ex_trace_grad_cond (op_inputs while_op) = Ok cond_grad_graph /\
    _check_num_inputs_outputs cond_grad_graph (gg_graph body_grad_graph')
      (length (op_inputs while_op)) = Ok tt /\
    length (op_outputs while_op) = length (op_inputs while_op) /\
    forall i input,
      op_inputs while_op !! i = Some input ->
      exists body_output,
        fg_outputs (gg_graph body_grad_graph') !! i = Some body_output /\
        op_outputs while_op !! i
        = Some (mkTensor (fg_name ex2_returned.2) (op_name while_op) i (t_dtype input)
                  (t_shape body_output)).
Proof.
  apply (backward_While_is_well_formed ex_graph_of id ex_IsTrainable
           (fun _ => as_body_graph ex2_assembly) ex_trace_grad_fn ex_trace_grad_cond 8
           ex2_returned.2 ex2_while_op ex_grads ex_grad_returned.1).
  vm_compute. reflexivity.
Defined.

(** ** Loops that are accepted *)

Lemma py_slice_lookup {A} (l : list A) a n j x :
  py_slice l a n !! j = Some x <-> j < n /\ l !! (a + j) = Some x.
Proof.
  unfold py_slice. rewrite lookup_take_Some, lookup_drop. tauto.
Qed.

Lemma py_slice_length {A} (l : list A) a n :
  a + n <= length l -> length (py_slice l a n) = n.
Proof. intros H. unfold py_slice. rewrite length_take, length_drop. lia. Qed.

Lemma flatten_Seq_Leaf_fmap {A} (l : list A) : flatten (Seq (Leaf <$> l)) = l.
Proof.
  induction l as [|x l IH]; [reflexivity|].
  rewrite fmap_cons, flatten_Seq_cons, IH. reflexivity.
Qed.

(** X21.  [while_loop] accepts every well-formed loop.  Let the structure
    check pass, let the closure builder return a cond graph and a body graph,
    let the captures reconcile and the intermediates be selected; let names
    be fresh, let the cond graph have one input per loop variable and one
    output, the body graph one input per loop variable and one output per
    loop variable that is not one of its own captures, and let every output
    of the body that stands for a loop variable of the caller have a shape
    that its invariant admits.  Then none of the checks of [while_loop]
    fails and [while_loop] returns. *)
Theorem well_formed_loops_are_accepted
    trace_cond trace_body outer orig_loop_vars shape_invariants
    cond_graph body_graph cond_graph' intermediates :
  match shape_invariants with
  | Some si => same_structure (Seq orig_loop_vars) (Seq si) = true
  | None => True
  end ->
  trace_cond (cond_loop_vars outer orig_loop_vars)
    (cond_invariants orig_loop_vars shape_invariants) = Ok cond_graph ->
  trace_body (body_loop_vars outer orig_loop_vars cond_graph)
    (body_invariants orig_loop_vars shape_invariants cond_graph) = Ok body_graph ->
  reconcile_captures cond_graph (external_captures body_graph) = Ok cond_graph' ->
  _get_intermediates (with_passthrough body_graph) = Ok intermediates ->
  let loop_vars :=
    body_loop_vars outer orig_loop_vars cond_graph
      ++ (Leaf <$> external_captures body_graph) in
  let a0 := mkAssembly (constant outer 0%N).2 loop_vars cond_graph'
              (with_passthrough body_graph) in
  let n := length (flatten (Seq orig_loop_vars)) in
  wf_assembly a0 -> wf_outputs (with_passthrough body_graph) ->
  length (fg_inputs cond_graph') = length (flatten (Seq loop_vars)) ->
  length (fg_outputs cond_graph') = 1 ->
  length (fg_inputs body_graph) = length (flatten (Seq loop_vars)) ->
  length (fg_outputs body_graph) + length (fg_captures body_graph)
  = length (flatten (Seq loop_vars)) ->
  1 + n <= length (fg_outputs body_graph) ->
  (forall j t shape,
     j < n -> fg_outputs body_graph !! (1 + j) = Some t ->
     validated_invariants orig_loop_vars shape_invariants !! j = Some shape ->
     _ShapeLessThanOrEqual (t_shape t) shape = true) ->
  exists r outer',
    while_loop trace_cond trace_body outer orig_loop_vars shape_invariants = Ok (r, outer').
Proof.
  intros Hs Hc Hb Hr Hi loop_vars a0 n Hwf Hout Hci Hco Hbi Hbo Hn Hshape.
  set (a := accumulate a0 intermediates).
  assert (Hasm : assembled trace_cond trace_body outer orig_loop_vars shape_invariants a).
  { apply (Assembled _ _ _ _ _ _ cond_graph body_graph cond_graph' intermediates); auto. }
  assert (Hgraph : Forall (fun it => t_graph it = fg_name (as_body_graph a0)) intermediates).
  { apply get_intermediates_Ok in Hi. rewrite Hi. apply candidates_in_graph. exact Hout. }
  destruct (accumulate_spec intermediates a0 Hwf Hgraph)
    as (Hlv & Hcin & Hcout & Hbin & Hbout & _).
  fold a in Hlv, Hcin, Hcout, Hbin, Hbout.
  cbn [a0 as_loop_vars as_cond_graph as_body_graph as_outer] in Hlv, Hcin, Hcout, Hbin, Hbout.
  assert (Hflat : length (flatten (Seq (as_loop_vars a)))
                  = length (flatten (Seq loop_vars)) + length intermediates).
  { rewrite Hlv, flatten_Seq_app, length_app, flatten_Seq_Leaf_fmap, fresh_tensors_length.
    reflexivity. }
  assert (Hshapes : _check_shapes_compat (validated_outputs orig_loop_vars a)
                      (validated_invariants orig_loop_vars shape_invariants)
                      (validated_inputs orig_loop_vars) = Ok tt).
  { unfold _check_shapes_compat. apply check_shapes_compat_loop_Ok.
    apply Forall_lookup. intros j [[t shape] input_t] Hz. cbn [fst snd].
    apply zip3_lookup in Hz as (Ht & Hsh & _).
    unfold validated_outputs in Ht. apply py_slice_lookup in Ht as [Hj Ht].
    apply (Hshape j t shape Hj); [|exact Hsh].
    rewrite Hbout in Ht. unfold with_passthrough in Ht. cbn [set_outputs fg_outputs] in Ht.
    rewrite <- app_assoc in Ht. rewrite lookup_app_l in Ht by (fold n in Hj; lia).
    exact Ht. }
  assert (Harity : _check_num_inputs_outputs (as_cond_graph a) (as_body_graph a)
                     (length (flatten (Seq (as_loop_vars a)))) = Ok tt).
  { apply check_num_inputs_outputs_Ok. rewrite Hflat, Hcin, Hcout, Hbin, Hbout.
    unfold with_passthrough. cbn [set_outputs fg_inputs fg_outputs].
    rewrite !length_app, !fresh_tensors_length. unfold internal_captures.
    rewrite length_fmap. repeat split; lia. }
  assert (Hassemble : while_loop_assemble trace_cond trace_body outer orig_loop_vars
                        shape_invariants = Ok a).
  { rewrite (while_loop_assemble_assembled _ _ _ _ _ _ Hasm), Hshapes.
    cbn [mbind result_bind]. rewrite Harity. reflexivity. }
  unfold while_loop. rewrite Hassemble. cbn [mbind result_bind].
  set (lvs := flatten (Seq (as_loop_vars a))) in *.
  set (outs := (fun z : Tensor * Tensor => (t_dtype z.1, t_shape z.2))
                 <$> zip lvs (fg_outputs (as_body_graph a))).
  destruct (add_op (as_outer a) "While" lvs outs) as [while_op o2] eqn:Ew.
  assert (Hwlen : length (op_outputs while_op) = length lvs).
  { unfold add_op, add_op_with_value in Ew. inversion Ew. cbn [op_outputs].
    rewrite new_outputs_length. unfold outs. rewrite length_fmap, length_zip_with.
    apply check_num_inputs_outputs_Ok in Harity as (_ & _ & _ & Hbo'). lia. }
  pose proof (identities_length (op_outputs while_op) o2) as Hidl.
  destruct (identities o2 (op_outputs while_op)) as [outputs o3]. cbn [fst] in Hidl.
  assert (Hol : 1 + n <= length outputs).
  { rewrite Hidl, Hwlen, Hflat. lia. }
  unfold while_loop_return. fold n.
  destruct (decide (n = 1)) as [E|E].
  - destruct (lookup_lt_is_Some_2 outputs 1) as [o Ho]; [lia|].
    apply py_getitem_Ok in Ho. rewrite Ho. cbn [mbind result_bind]. eauto.
  - destruct (_pack_sequence_as_spec (Seq orig_loop_vars) (py_slice outputs 1 n))
      as (r & Hr' & _).
    { apply py_slice_length. lia. }
    rewrite Hr'. cbn [mbind result_bind]. eauto.
Qed.

Lemma well_formed_loops_are_accepted_witness :
  exists r outer',
    while_loop (ex_trace ex2_cond_graph) (ex_trace ex2_body_graph) ex2_outer ex2_loop_vars None
    = Ok (r, outer').
Proof.
  apply (well_formed_loops_are_accepted (ex_trace ex2_cond_graph) (ex_trace ex2_body_graph)
           ex2_outer ex2_loop_vars None ex2_cond_graph ex2_body_graph ex2_reconciled_cond
           (candidates (as_body_graph ex2_before_accumulation))).
  - exact I.
  - reflexivity.
  - reflexivity.
  - vm_compute. reflexivity.
  - vm_compute. reflexivity.
  - split; (split; [simpl; lia|]); intros k Hk Hg; vm_compute in Hk;
      repeat (apply elem_of_cons in Hk as [-> | Hk]; [vm_compute; lia|]);
      apply elem_of_nil in Hk; contradiction.
  - unfold wf_outputs. simpl. repeat constructor.
  - vm_compute. reflexivity.
  - vm_compute. reflexivity.
  - vm_compute. reflexivity.
  - vm_compute. reflexivity.
  - vm_compute. lia.
  - intros j t shape Hj Ht Hs. vm_compute in Hj.
    destruct j as [|[|j]]; [| |lia]; vm_compute in Ht, Hs;
      inversion Ht; inversion Hs; subst; vm_compute; reflexivity.
Defined.
